(* ===== verification/_CoqProject ===== *)
-Q . S2P
Prelude.v
JsString.v
JsValue.v
Json.v
Backend.v
Resolver.v
Await.v
SharesView.v
CreateShare.v
Submissions.v
FormView.v
Infobox.v
Panel.v
Widgets.v
Regex.v
RegexSpec.v
RegexEngine.v
