(* ===== verification/Prelude.v ===== *)
(** * A verification development for cs3api4lab's share panels

    The repository is the front end of a JupyterLab extension: two React
    files, [src/src/infobox.tsx] (the file-information panel with its
    INFO and SHARES tabs) and [src/src/createShare.tsx] (the form that
    creates a share).  Both talk to a remote share service through
    [requestAPI] (in [services.ts], not part of [src/]), which resolves
    with the parsed JSON body of a response or rejects.

    ** The parts and how they interact

    - The SHARES tab ([Shares], infobox.tsx 201-320) loads on mount: it
      asks the service for the shares of the file, looks every grantee
      up one after the other, joins the answers with the shares and
      stores the rows twice, as [grantees] and [filteredGrantees].  Its
      filter box compiles the typed text with [new RegExp(text, 'i')]
      and keeps the rows whose display name the pattern finds.
    - The share form ([ShareForm] and [CreateShare], createShare.tsx)
      loads the user list, lets the user pick a user and a role, and
      POSTs the form object; the answer is shown as JSON text.
    - [Main], [Menu] and [Content] (infobox.tsx 22-119) switch between
      the INFO and SHARES tabs; [Info] (151-192) is the INFO table.
      [Content] calls [Shares] as a plain function, so the hooks of
      [Shares] (its two states and its mount effect) belong to
      [Content]: every switch to SHARES mounts them afresh and starts a
      new load, and a switch to INFO drops them.

    ** Files, in dependency order

    - [Prelude] (this file): [result] (a value or a thrown exception),
      the traced state-and-error monad [traced] (the list of requests
      sent, threaded through the code's sequential [await]s), [mapM] and
      [Array.filter] with a throwing callback ([filter_result]), the
      notations of [cs3_scope] and the hint database [cs3].
    - [JsString]: [trim], [indexOf], [replace] with a string pattern,
      case folding of the [i] flag, on Latin-1 strings.
    - [JsValue]: JSON values plus [undefined] ([js]), exceptions
      ([exn]), truthiness, property access with its TypeError,
      [ToString], [v.toString()], loose equality [==] with [ToNumber],
      [JSON.stringify].
    - [Json]: [JSON.parse] ([json_parse]) with fuel, and the round
      trip: the text of [JSON.stringify v] parses back to
      [json_normalize v] ([parse_stringify]).
    - [Backend]: requests, the service as the class [Backend] (an
      answer for each request given the ones before), [requestAPI] in
      the traced monad, the endpoint URLs.
    - [Resolver]: the mount effect of [Shares] ([resolve_grantees] =
      the request, [on_shares], [lookup_users], [join]); the class
      [UserDirectory] says what a well-behaved user service answers.
    - [Await]: the same [getGrantees] await by await, as a program of a
      free monad over requests ([prog]: [Ret] or [Await q k]); [run_prog]
      runs it at once against the service, [send] runs it to its next
      [await], and [reaches] relates a program to the trace positions
      of the requests it sent and the answers they got.
    - [SharesView]: the SHARES tab as a state machine over [view]
      (the two lists and the input text): [filterGrantees] against the
      interface [RegExpEngine] with its law [RegExpLiteral], the end of
      the load ([apply_load]), and [handle]/[run_events] for any
      interleaving of the two.
    - [CreateShare]: the three states of [ShareForm] and the message of
      [CreateShare]; [handle_form] for the picker and the role select,
      [click] for the button with its try/catch.
    - [Submissions]: the same button with its asynchrony: presses,
      answers arriving in any order, and edits, as events on a state
      that holds the POSTs in flight.
    - [FormView]: what the share form renders: the picker's options
      (value and label read from each entry of [userList]) and the
      text [Results] shows for the message.
    - [Infobox]: the two [activeTab] states, the rendered [Menu], the
      [Header] (with [findFileIcon] as a parameter) and the INFO rows.
    - [Panel]: the composition [Main] -> [Content] -> [Shares]: the tab
      states, the hooks of [Content] as an optional [view] of
      SharesView.v, the number of the visit of SHARES that mounted them
      and the loads in flight by visit; [panel_step] for a menu click,
      a keystroke or the end of a load.
    - [Widgets]: [InfoboxWidget] and [ShareWidget] (constructor and
      [render]), and the application an [InfoboxWidget] runs: the panel
      of [Panel], the requests sent, and each load of [getGrantees]
      suspended at an [await] of [Await] ([infobox_app], [app_step]);
      answers, clicks and keystrokes come in any order.
    - [Regex]: JavaScript patterns (non-unicode mode, Annex B grammar):
      the syntax [regex], the executable matcher [ends] (all end
      positions of the matches from a position), [search_regex]
      ([String.prototype.search]) and the parser [parse_pattern] with
      its SyntaxErrors.
    - [RegexSpec]: the rules [matches] of what a pattern matches
      (relational, with the iterations of a quantifier as [reps]), the
      proof that [ends] computes them ([ends_spec]) and the
      characterization of [search] ([search_regex_spec]).
    - [RegexEngine]: [regexp_new] and [regex_search] packed as the
      instance [js_regexp] of [RegExpEngine], the proof that it
      satisfies [RegExpLiteral], and the filter run with it.

    ** What the theorems show

    - Resolver.v: the load sends one request, then one lookup per share
      in list order, and yields the declarative join of records and
      shares ([resolve_grantees_spec]); its early returns, the stop at a
      rejected lookup, the TypeError of a null record, and the join's
      use of [==] on opaque ids alone (an m-share user gives m*m rows).
    - SharesView.v: a blank filter shows everything; with a literal
      filter text the handler computes the spec's case-insensitive
      substring filter ([filterGrantees_refines], a refinement against
      the interface); an undefined display name makes every filter text
      without pattern syntax throw a TypeError; over any interleaving of events the list stays a sublist
      of the loaded rows; a load that ends after typing ignores the
      typed text.
    - RegexEngine.v and Regex.v: the code's engine meets the interface
      law, so the theorems above hold of it; an invalid pattern makes
      the handler throw a SyntaxError and freezes the list.  As
      supporting lemmas of the engine: the parser always finishes
      within its fuel, the matcher computes exactly the relational
      semantics, and [search] returns the least matching position or
      -1.
    - CreateShare.v: the POST carries the picked user's idp and grantee
      and the message shows the answer; the form object keeps its shape
      through any user actions; a rejected POST changes nothing; a
      cleared selection throws before any request; a press without a
      pick posts the placeholder's empty grantee.  A supporting lemma
      ([click_message_json]) shows that the message shown after a
      success parses back to the service's answer.
    - Submissions.v: a second press is not blocked while a POST is in
      flight, and the answer that arrives last is shown, even if it
      belongs to the older press ([stale_answer]); over any
      interleaving, every pending answer belongs to a POST that went
      out.
    - Infobox.v: the highlighted menu item always names the content
      shown, and the rendered menu has exactly one active item; the
      Size row hides a zero-byte size.
    - Panel.v: the hooks exist exactly while SHARES is shown, and every
      load in flight belongs to this or an earlier visit
      ([run_panel_inv]); within a visit the panel is the view of
      SharesView.v run on the visit's own events, the answers of
      earlier visits being dropped ([visit_refines], a refinement);
      reopening SHARES forgets the list and the filter text and loads
      again; from any history the user can get the full list back
      ([shares_recoverable]).
    - Await.v: run with nothing in between, the await-by-await
      [getGrantees] is the atomic [resolve_grantees]
      ([resolve_grantees_prog_run], a supporting lemma); a program's
      place in a growing trace is kept ([reaches_app], [reaches_snoc]).
    - Widgets.v: an [InfoboxWidget] sends its file's shares request
      exactly once per opening of SHARES, however its loads interleave
      ([shares_request_per_visit]); what it shows is a run of Panel.v
      in which the load tagged with visit [g] carries the result of
      [getGrantees] for its file, started by the [g]-th shares request
      of the trace, each later request of the load sent after the
      previous one and answered by the service given the requests
      before it ([run_app_refines], a refinement joining Panel.v,
      Await.v and the trace); every share
      a [ShareWidget] posts is a share of its own file
      ([share_widget_posts]).
    - CreateShare.v also shows that [userList] is always the initial
      placeholder or an array of well-formed options; FormView.v that
      the picker's value and label are both the display name (so
      homonyms collide) and that [Results] never receives an object.
    - Backend.v: the user-lookup URL is not encoded, so two identities
      share one request.

    ** Fuel and bounds

    - [parse_pattern] runs the mutually recursive [p_disj]/[p_alt]/
      [p_term] on [3 * length + 3] fuel: each character costs at most
      three nested calls, and [parse_pattern_no_fuel] proves that the
      fuel never runs out; [p_class] gets [length + 1] for the same
      reason ([p_class_within]).
    - [ends] unrolls a quantifier at most [length s] times beyond its
      minimum ([repeat_bound]): a further iteration either consumes a
      character, of which there are no more, or consumes none and can
      be dropped.  [ends_spec] of RegexSpec.v proves the bound enough
      ([iter_compress]).
    - [search_from] tries the [length s + 1] start positions of
      [String.prototype.search]; [search_regex_found] shows they are
      enough.
    - [json_parse] runs on [2 * length + 2] fuel: a value reads a
      character before it enters an array or an object, an element or
      a member one more, so each character costs at most two calls;
      [json_parse_no_fuel] proves that the fuel never runs out.
    - Numbers are integers ([Z]); fractions and magnitudes of [2^53]
      and more are outside the model (see JsValue.v).

    ** Not modelled

    - [services.ts] ([requestAPI], [findFileIcon]) is not under [src/]:
      [requestAPI] is modelled from the spec as the [Backend] class, and
      [findFileIcon] is a parameter of [header].
    - The rendering of JSX beyond the rows, options, menu and messages
      the state decides; the classes lumino's [Widget] constructor adds
      are a parameter of the widget constructors.
    - Interleaving is at the granularity of the code's [await]s and
      [then]s: the synchronous code between two of them runs as one
      step, as it does in the browser's event loop.  The service's
      answer to a request is fixed by the requests sent before it, when
      it goes out; it reaches the code at a later [AAnswer] step.
    - [moment]'s date formatting is a parameter of [info_rows].
    - Binary64 rounding of [ToNumber], object identity, characters
      beyond Latin-1.
    - Backreferences, lookaround, named groups and the [\c], [\u] and
      octal escapes of patterns: [parse_pattern] reports them as
      [PUnmodelled] (an [OutsideModel] exception) instead of guessing. *)

From stdpp Require Export base list strings decidable.
From Stdlib Require Export ZArith Lia.

Declare Scope cs3_scope.
Delimit Scope cs3_scope with cs3.
Open Scope cs3_scope.

Create HintDb cs3 discriminated.

(** ** Results: a value or a thrown exception *)

Inductive result (E A : Type) : Type :=
| Ok (a : A)
| Err (e : E).
Arguments Ok {E A} a.
Arguments Err {E A} e.

#[export] Instance result_ret E : MRet (result E) := λ A a, Ok a.
#[export] Instance result_bind E : MBind (result E) :=
  λ A B f r, match r with Ok a => f a | Err e => Err e end.
#[export] Instance result_fmap E : FMap (result E) :=
  λ A B f r, match r with Ok a => Ok (f a) | Err e => Err e end.

Notation "'throw' e" := (Err e) (at level 10) : cs3_scope.

Definition is_ok {E A} (r : result E A) : bool :=
  match r with Ok _ => true | Err _ => false end.

(** ** A traced state-and-error monad

    [traced R E A] threads the list of requests issued so far (oldest
    first) and returns a result.  Awaiting a request appends it to the
    trace; a thrown exception stops the computation with the trace it
    had reached. *)

Definition traced (R E A : Type) : Type := list R → list R * result E A.

#[export] Instance traced_ret R E : MRet (traced R E) := λ A a tr, (tr, Ok a).
#[export] Instance traced_bind R E : MBind (traced R E) :=
  λ A B f m tr,
    match m tr with
    | (tr', Ok a) => f a tr'
    | (tr', Err e) => (tr', Err e)
    end.

(** Lift a pure result into the traced monad. *)
Definition lift {R E A} (r : result E A) : traced R E A := λ tr, (tr, r).


(** ** Tactics *)

(** Destruct the first match on a result or an option found in a
    hypothesis, keeping the equation. *)
Ltac res_case :=
  match goal with
  | H : context [match ?r with Ok _ => _ | Err _ => _ end] |- _ =>
      let E := fresh "Er" in destruct r eqn:E
  | |- context [match ?r with Ok _ => _ | Err _ => _ end] =>
      let E := fresh "Er" in destruct r eqn:E
  end.

(** ** Generic lemmas *)

Section ResultMapM.
Context {E A B : Type} (f : A → result E B).

Lemma mapM_result_cons x l :
  mapM f (x :: l) =
    match f x with
    | Ok y => match mapM f l with Ok k => Ok (y :: k) | Err e => Err e end
    | Err e => Err e
    end.
Proof. simpl. destruct (f x); [|done]. simpl. by destruct (mapM f l). Qed.

Lemma mapM_result_Ok l k :
  mapM f l = Ok k ↔ Forall2 (λ x y, f x = Ok y) l k.
Proof.
  revert k. induction l as [|x l IH]; intros k; simpl.
  - split; [by intros [= <-] | by intros ->%Forall2_nil_inv_l].
  - destruct (f x) as [y|e] eqn:Hf; simpl.
    + destruct (mapM f l) as [k'|e] eqn:Hl; simpl.
      * split; [intros [= <-]; constructor; [done | by apply IH]|].
        intros (y' & k'' & Hy & Hk & ->)%Forall2_cons_inv_l.
        rewrite Hf in Hy. injection Hy as ->.
        apply IH in Hk. injection Hk as ->. done.
      * split; [done|].
        intros (y' & k'' & _ & Hk & _)%Forall2_cons_inv_l.
        apply IH in Hk. congruence.
    + split; [done|].
      intros (y' & k'' & Hy & _ & _)%Forall2_cons_inv_l. congruence.
Qed.

Lemma mapM_result_length l k : mapM f l = Ok k → length k = length l.
Proof. intros H%mapM_result_Ok. symmetry. by eapply Forall2_length. Qed.

Lemma mapM_result_Err l e :
  mapM f l = Err e → ∃ x, x ∈ l ∧ f x = Err e.
Proof.
  induction l as [|x l IH]; simpl; [done|].
  destruct (f x) eqn:Hf; simpl.
  - destruct (mapM f l) eqn:Hl; simpl; [done|]. intros [= ->].
    destruct (IH eq_refl) as (z & Hz & Hfz). exists z. split; [by right|done].
  - intros [= ->]. exists x. split; [left|done].
Qed.
End ResultMapM.

#[export] Hint Resolve mapM_result_length : cs3.

Section TracedMapM.
Context {R E A B : Type} (f : A → traced R E B).

Lemma mapM_traced_nil tr : mapM f [] tr = (tr, Ok []).
Proof. done. Qed.

Lemma mapM_traced_cons x l tr :
  mapM f (x :: l) tr =
    match f x tr with
    | (tr', Ok y) =>
        match mapM f l tr' with
        | (tr'', Ok k) => (tr'', Ok (y :: k))
        | (tr'', Err e) => (tr'', Err e)
        end
    | (tr', Err e) => (tr', Err e)
    end.
Proof.
  cbn. unfold mbind, traced_bind. destruct (f x tr) as [tr' [y|e]]; [|done].
  fold (mapM f l). by destruct (mapM f l tr') as [tr'' [k|e]].
Qed.
End TracedMapM.

Lemma bind_traced_lift {R E A B} (r : result E A) (k : A → traced R E B) tr :
  (x ← lift r; k x) tr = match r with Ok a => k a tr | Err e => (tr, Err e) end.
Proof. by destruct r. Qed.

Lemma bind_traced_ret {R E A B} (a : A) (k : A → traced R E B) tr :
  (x ← (mret a : traced R E A); k x) tr = k a tr.
Proof. done. Qed.

#[export] Hint Rewrite @mapM_traced_nil @mapM_traced_cons @bind_traced_lift @bind_traced_ret : cs3.

(** [Array.prototype.filter] with a callback that may throw: the callback
    runs on the elements in order and the first exception escapes. *)
Fixpoint filter_result {E A} (f : A → result E bool) (l : list A) : result E (list A) :=
  match l with
  | [] => Ok []
  | x :: l' =>
      match f x with
      | Ok b => match filter_result f l' with
                | Ok rest => Ok (if b then x :: rest else rest)
                | Err e => Err e
                end
      | Err e => Err e
      end
  end.

Lemma filter_result_sublist {E A} (f : A → result E bool) l k :
  filter_result f l = Ok k → k `sublist_of` l.
Proof.
  revert k. induction l as [|x l IH]; intros k; simpl; [intros [= <-]; done|].
  destruct (f x) as [[]|e]; [| |done]; destruct (filter_result f l) as [rest|e] eqn:Hr; try done;
    intros [= <-]; [apply sublist_skip | apply sublist_cons]; by apply IH.
Qed.

Lemma filter_result_total {E A} (f : A → result E bool) (g : A → bool) l :
  (∀ x, x ∈ l → f x = Ok (g x)) → filter_result f l = Ok (List.filter g l).
Proof.
  induction l as [|x l IH]; intros Hf; [done|]. simpl.
  rewrite (Hf x (list_elem_of_here _ _)), IH; [done|].
  intros y Hy. apply Hf. by apply list_elem_of_further.
Qed.

Lemma filter_result_Err {E A} (f : A → result E bool) l e :
  filter_result f l = Err e → ∃ x, x ∈ l ∧ f x = Err e.
Proof.
  induction l as [|x l IH]; simpl; [done|].
  destruct (f x) eqn:Hf.
  - destruct (filter_result f l) eqn:Hl; [done|]. intros [= ->].
    destruct (IH eq_refl) as (y & Hy & Hfy). exists y. split; [by right|done].
  - intros [= ->]. exists x. split; [left|done].
Qed.

(** A trace grows at its end: an entry already sent, and what was sent
    before it, stay as they were. *)
Lemma lookup_take_app {A} (tr ext : list A) m x :
  tr !! m = Some x → (tr ++ ext) !! m = Some x ∧ take m (tr ++ ext) = take m tr.
Proof.
  intros Hx. pose proof (lookup_lt_Some _ _ _ Hx).
  split; [by apply lookup_app_l_Some|]. apply take_app_le. lia.
Qed.

(** [try { m } catch (e) { h(e) }] *)
Definition catch_traced {R E A} (m : traced R E A) (h : E → traced R E A) : traced R E A :=
  λ tr, match m tr with
        | (tr', Err e) => h e tr'
        | ok => ok
        end.
