(* ===== verification/JsString.v ===== *)
(** * JavaScript string operations used by the panels

    Strings are Rocq [string]s whose characters are read as UTF-16 code
    units in the Latin-1 range (0 to 255); JavaScript strings outside
    that range are not modelled.  This file models
    - [String.prototype.trim] ([trim]), with the WhiteSpace and
      LineTerminator characters of that range (tab, LF, VT, FF, CR,
      space, no-break space);
    - [String.prototype.indexOf] ([index_of]) and [replace] with a string
      pattern ([replace_first]), as [infobox.tsx] line 207 and
      [createShare.tsx] line 49 call it on [fileInfo.path];
    - the case folding [Canonicalize] of a regular expression with the
      [i] flag ([canon]). *)

From S2P Require Import Prelude.
From Stdlib Require Import Ascii String.

Open Scope string_scope.

(** ** Whitespace and [trim] *)

Definition is_js_space (c : ascii) : bool :=
  match nat_of_ascii c with
  | 9 | 10 | 11 | 12 | 13 | 32 | 160 => true
  | _ => false
  end.

Fixpoint trim_start (s : string) : string :=
  match s with
  | EmptyString => EmptyString
  | String c r => if is_js_space c then trim_start r else s
  end.

Fixpoint trim_end (s : string) : string :=
  match s with
  | EmptyString => EmptyString
  | String c r =>
      let r' := trim_end r in
      if is_js_space c && String.eqb r' "" then "" else String c r'
  end.

(** [s.trim()] *)
Definition trim (s : string) : string := trim_end (trim_start s).

(** Every character of [s] is whitespace. *)
Fixpoint all_space (s : string) : bool :=
  match s with
  | EmptyString => true
  | String c r => is_js_space c && all_space r
  end.

(** ** [indexOf] and [replace] with a string pattern *)

(** [prefixb p s]: [s] starts with [p]. *)
Fixpoint prefixb (p s : string) : bool :=
  match p, s with
  | EmptyString, _ => true
  | String a p', String b s' => Ascii.eqb a b && prefixb p' s'
  | String _ _, EmptyString => false
  end.

(** [s.indexOf(p)]: the first position where [p] occurs, [None] for -1. *)
Fixpoint index_of (p s : string) : option nat :=
  if prefixb p s then Some 0
  else match s with
       | EmptyString => None
       | String _ s' => S <$> index_of p s'
       end.

(** [s.replace(p, r)] for a string pattern [p]: the first occurrence of
    [p] is replaced by [r].  JavaScript also expands [$]-patterns in [r];
    the only replacement string the code passes is [''], which has
    none. *)
Definition replace_first (p r s : string) : string :=
  match index_of p s with
  | None => s
  | Some i => substring 0 i s ++ r ++ substring (i + String.length p) (String.length s) s
  end.

(** ** Case folding of the [i] flag

    [Canonicalize(ch)] of ECMA-262 (non-unicode mode) maps a code unit
    to its upper case when that is a single code unit and does not map a
    non-ASCII unit to an ASCII one.  On Latin-1: [a-z] and
    [U+00E0..U+00FE] except [U+00F7] go to their capitals.  [U+00B5] and
    [U+00FF] go to code units outside Latin-1 that no other Latin-1
    character reaches, so keeping them unchanged gives the same
    equalities between canonical forms. *)
Definition canon (c : ascii) : ascii :=
  let n := nat_of_ascii c in
  if Nat.leb 97 n && Nat.leb n 122 then ascii_of_nat (n - 32)
  else if Nat.leb 224 n && Nat.leb n 254 && negb (Nat.eqb n 247)
  then ascii_of_nat (n - 32)
  else c.

Definition canon_eqb (a b : ascii) : bool := Ascii.eqb (canon a) (canon b).

(** ** Case-insensitive substring search

    The reading of the filter that spec section 4.3 gives: the display
    name contains the filter text, ignoring case. *)

Fixpoint ci_prefixb (p s : string) : bool :=
  match p, s with
  | EmptyString, _ => true
  | String a p', String b s' => canon_eqb a b && ci_prefixb p' s'
  | String _ _, EmptyString => false
  end.

Fixpoint ci_contains (p s : string) : bool :=
  ci_prefixb p s ||
  match s with
  | EmptyString => false
  | String _ s' => ci_contains p s'
  end.

(** A pattern with none of the characters that have a meaning in a
    regular expression: [^ $ \ . * + ? ( ) [ ] { } |]. *)
Definition is_syntax_char (c : ascii) : bool :=
  match nat_of_ascii c with
  | 36 | 40 | 41 | 42 | 43 | 46 | 63 | 91 | 92 | 93 | 94 | 123 | 124 | 125 => true
  | _ => false
  end.

Fixpoint literal_pattern (p : string) : bool :=
  match p with
  | EmptyString => true
  | String c p' => negb (is_syntax_char c) && literal_pattern p'
  end.

(** ** Lemmas *)

Lemma trim_end_empty s : trim_end s = "" ↔ all_space s = true.
Proof.
  induction s as [|c r IH]; simpl; [done|].
  destruct (is_js_space c) eqn:Hc; simpl.
  - destruct (String.eqb_spec (trim_end r) "") as [Hr|Hr].
    + split; [intros _; by apply IH | done].
    + split; [done|]. intros ?%IH. congruence.
  - split; [done|discriminate].
Qed.

Lemma trim_start_all_space s : all_space (trim_start s) = all_space s.
Proof.
  induction s as [|c r IH]; simpl; [done|].
  destruct (is_js_space c) eqn:Hc; simpl; [apply IH | by rewrite Hc].
Qed.

Lemma trim_empty s : trim s = "" ↔ all_space s = true.
Proof. unfold trim. by rewrite trim_end_empty, trim_start_all_space. Qed.

Lemma trim_end_idem s : trim_end (trim_end s) = trim_end s.
Proof.
  induction s as [|c r IH]; simpl; [done|].
  destruct (is_js_space c && String.eqb (trim_end r) "") eqn:Hc; [done|].
  simpl. rewrite IH, Hc. done.
Qed.

Lemma trim_start_idem s : trim_start (trim_start s) = trim_start s.
Proof.
  induction s as [|c r IH]; simpl; [done|].
  destruct (is_js_space c) eqn:Hc; [done|]. simpl. by rewrite Hc.
Qed.

(** [trim_end] keeps a non-space first character in front. *)
Lemma trim_start_trim_end s :
  trim_start s = s → trim_start (trim_end s) = trim_end s.
Proof.
  destruct s as [|c r]; simpl; [done|].
  destruct (is_js_space c) eqn:Hc.
  - intros Hs. assert (String.length (trim_start r) <= String.length r)%nat as Hl.
    { clear. induction r as [|d r IH]; simpl; [lia|].
      destruct (is_js_space d); simpl; lia. }
    rewrite Hs in Hl. simpl in Hl. lia.
  - intros _. simpl. by rewrite Hc.
Qed.

Lemma trim_idem s : trim (trim s) = trim s.
Proof.
  unfold trim. rewrite trim_start_trim_end by apply trim_start_idem.
  apply trim_end_idem.
Qed.

Lemma prefixb_app p t : prefixb p (p ++ t) = true.
Proof.
  induction p as [|c p IH]; simpl; [done|]. by rewrite Ascii.eqb_refl, IH.
Qed.

Lemma substring_app_r p t k :
  substring (String.length p) k (p ++ t) = substring 0 k t.
Proof. induction p as [|c p IH]; simpl; [done|]. apply IH. Qed.

Lemma substring_full t : substring 0 (String.length t) t = t.
Proof. induction t as [|c t IH]; simpl; [done|]. by rewrite IH. Qed.

Lemma length_append_str p t :
  String.length (p ++ t) = String.length p + String.length t.
Proof. induction p as [|c p IH]; simpl; [done|]. by rewrite IH. Qed.

Lemma index_of_prefixb p s : prefixb p s = true → index_of p s = Some 0.
Proof. intros H. destruct s; simpl; by rewrite H. Qed.

Lemma substring_long t k : (String.length t <= k)%nat → substring 0 k t = t.
Proof.
  revert k. induction t as [|c t IH]; intros [|k]; simpl; try done; [lia|].
  intros Hk. rewrite IH; [done|lia].
Qed.

(** Replacing a pattern that the string starts with removes exactly that
    prefix, whatever the rest contains. *)
Lemma replace_first_prefix p r t : replace_first p r (p ++ t) = r ++ t.
Proof.
  unfold replace_first. rewrite index_of_prefixb by apply prefixb_app.
  simpl. rewrite length_append_str, substring_app_r, (substring_long t) by lia.
  by destruct (p ++ t).
Qed.

Lemma replace_first_absent p r s : index_of p s = None → replace_first p r s = s.
Proof. unfold replace_first. by intros ->. Qed.

(** stdpp makes [String.append] opaque to [simpl]; its defining
    equation, for rewriting. *)
Lemma append_String (c : ascii) (s t : string) : (String c s ++ t)%string = String c (s ++ t).
Proof. reflexivity. Qed.

#[export] Hint Rewrite append_String : cs3.

Lemma append_assoc_str (s t u : string) : ((s ++ t) ++ u)%string = (s ++ (t ++ u))%string.
Proof. induction s as [|c s IH]; [done|]. by rewrite !append_String, IH. Qed.
