(* ===== verification/JsValue.v ===== *)
(** * JavaScript values as the panels see them

    [requestAPI] resolves with the parsed JSON body of a response, so the
    values the code inspects are JSON values plus [undefined] (what a
    missing property reads as).  This file models
    - the values ([js]) and the exceptions the code can raise ([exn]);
    - truthiness ([truthy]), used by [!granteesRequest.shares] and the
      [mimetype]/[size] guards of the INFO table;
    - property access [v.k] ([get_prop]) with its [TypeError] on
      [undefined] and [null];
    - the abstract operation [ToString] used by [+] on strings
      ([js_ToString]) and the method call [v.toString()]
      ([to_string_method]);
    - loose equality [==] ([loose_eq]), used by the join of
      [infobox.tsx] line 242, with [ToNumber] on strings
      ([str_to_number]).

    Numbers are integers ([Z]): the numbers the code reads (ids, sizes)
    are integers, and below [2^53] in magnitude a binary64 number is an
    exact integer that prints in plain decimal, as [js_ToString] prints
    it; fractions and larger numbers are outside the model.  [ToNumber] of a string
    is computed exactly; JavaScript rounds it to binary64, which differs
    only for literals of more than 15 significant digits or exponents
    beyond the binary64 range.  Two distinct parsed objects are never
    [==]: the model has no object identity, and the code only compares
    values from different responses. *)

From S2P Require Import Prelude JsString.
From Stdlib Require Import Ascii String.

Open Scope string_scope.

(** ** Values and exceptions *)

Inductive js : Type :=
| JUndef
| JNull
| JBool (b : bool)
| JNum (n : Z)
| JStr (s : string)
| JArr (l : list js)
| JObj (kvs : list (string * js)).

(** Induction with hypotheses on the elements of arrays and objects. *)
Section JsInd.
Variable P : js → Prop.
Hypothesis HU : P JUndef.
Hypothesis HN : P JNull.
Hypothesis HB : ∀ b, P (JBool b).
Hypothesis HZ : ∀ n, P (JNum n).
Hypothesis HS : ∀ s, P (JStr s).
Hypothesis HA : ∀ l, Forall P l → P (JArr l).
Hypothesis HO : ∀ kvs, Forall (λ kv, P kv.2) kvs → P (JObj kvs).

Fixpoint js_ind' (v : js) : P v :=
  match v with
  | JUndef => HU
  | JNull => HN
  | JBool b => HB b
  | JNum n => HZ n
  | JStr s => HS s
  | JArr l =>
      HA l ((fix go (l : list js) : Forall P l :=
               match l with
               | [] => Forall_nil_2 _
               | x :: l' => Forall_cons_2 _ _ _ (js_ind' x) (go l')
               end) l)
  | JObj kvs =>
      HO kvs ((fix go (kvs : list (string * js)) : Forall (λ kv, P kv.2) kvs :=
                 match kvs with
                 | [] => Forall_nil_2 _
                 | kv :: kvs' => Forall_cons_2 _ _ _ (js_ind' kv.2) (go kvs')
                 end) kvs)
  end.
End JsInd.

(** Exceptions: the two kinds of error the code can throw itself, and a
    rejected request carrying its reason.  [OutsideModel] is not a
    JavaScript exception: it marks an operation on an input the model
    does not cover (a regular-expression construct of [Regex.v]), so
    that no theorem predicts JavaScript's behaviour there. *)
Inductive exn : Type :=
| TypeError (msg : string)
| SyntaxError (msg : string)
| Rejected (reason : js)
| OutsideModel (what : string).

(** ** Truthiness *)

Definition truthy (v : js) : bool :=
  match v with
  | JUndef | JNull => false
  | JBool b => b
  | JNum n => negb (Z.eqb n 0)
  | JStr s => negb (String.eqb s "")
  | JArr _ | JObj _ => true
  end.

(** ** Decimal printing of integers *)

Definition digit_char (d : N) : ascii := ascii_of_N (48 + d).

Fixpoint N_digits (fuel : nat) (n : N) (acc : string) : string :=
  match fuel with
  | O => acc
  | S f =>
      let acc' := String (digit_char (n mod 10)) acc in
      if N.ltb n 10 then acc' else N_digits f (n / 10) acc'
  end.

Definition N_to_dec (n : N) : string := N_digits (S (N.size_nat n)) n "".

Definition Z_to_dec (z : Z) : string :=
  match z with
  | Z0 => "0"
  | Zpos p => N_to_dec (Npos p)
  | Zneg p => "-" ++ N_to_dec (Npos p)
  end.

(** ** [ToString] and [.toString()] *)

Fixpoint js_ToString (v : js) : string :=
  match v with
  | JUndef => "undefined"
  | JNull => "null"
  | JBool b => if b then "true" else "false"
  | JNum n => Z_to_dec n
  | JStr s => s
  | JArr l =>
      (* Array.prototype.join(","): null and undefined elements print as "" *)
      (fix join (l : list js) : string :=
         match l with
         | [] => ""
         | [x] => match x with JUndef | JNull => "" | _ => js_ToString x end
         | x :: l' =>
             match x with JUndef | JNull => "" | _ => js_ToString x end ++ "," ++ join l'
         end) l
  | JObj _ => "[object Object]"
  end.

(** [v.toString()]: a TypeError on [undefined] and [null]. *)
Definition to_string_method (v : js) : result exn string :=
  match v with
  | JUndef | JNull =>
      throw (TypeError ("Cannot read properties of " ++ js_ToString v ++ " (reading 'toString')"))
  | _ => Ok (js_ToString v)
  end.

(** ** Property access [v.k]

    The keys the code reads ([shares], [grantee], [opaque_id],
    [permissions], [idp], [display_name], [displayName], [mimetype],
    [size], ...) are not members of [Object.prototype],
    [Array.prototype] or [String.prototype], so reading them from a
    value without such an own property gives [undefined]. *)

Fixpoint assoc (k : string) (kvs : list (string * js)) : option js :=
  match kvs with
  | [] => None
  | (k', v) :: kvs' => if String.eqb k k' then Some v else assoc k kvs'
  end.

(** An array index: the canonical decimal form of a natural number
    below [2^32 - 1]. *)
Definition array_index (k : string) : option nat :=
  let fix digits (s : string) (acc : N) : option N :=
    match s with
    | EmptyString => Some acc
    | String c s' =>
        let d := N_of_ascii c in
        if N.leb 48 d && N.leb d 57 then digits s' (acc * 10 + (d - 48))%N else None
    end in
  match k with
  | EmptyString => None
  | _ => match digits k 0%N with
         | Some n => if String.eqb (N_to_dec n) k && N.ltb n 4294967295
                     then Some (N.to_nat n) else None
         | None => None
         end
  end.

Definition get_prop (v : js) (k : string) : result exn js :=
  match v with
  | JUndef | JNull =>
      throw (TypeError ("Cannot read properties of " ++ js_ToString v ++ " (reading '" ++ k ++ "')"))
  | JObj kvs => Ok (default JUndef (assoc k kvs))
  | JArr l =>
      Ok (if String.eqb k "length" then JNum (Z.of_nat (List.length l))
          else match array_index k with
               | Some i => default JUndef (nth_error l i)
               | None => JUndef
               end)
  | JStr s =>
      Ok (if String.eqb k "length" then JNum (Z.of_nat (String.length s))
          else match array_index k with
               | Some i => match String.get i s with
                           | Some c => JStr (String c EmptyString)
                           | None => JUndef
                           end
               | None => JUndef
               end)
  | JBool _ | JNum _ => Ok JUndef
  end.

(** ** Decidable equality *)

Fixpoint js_eqb (a b : js) : bool :=
  match a, b with
  | JUndef, JUndef | JNull, JNull => true
  | JBool x, JBool y => Bool.eqb x y
  | JNum x, JNum y => Z.eqb x y
  | JStr s, JStr t => String.eqb s t
  | JArr l, JArr m =>
      (fix go (l m : list js) : bool :=
         match l, m with
         | [], [] => true
         | x :: l', y :: m' => js_eqb x y && go l' m'
         | _, _ => false
         end) l m
  | JObj l, JObj m =>
      (fix go (l m : list (string * js)) : bool :=
         match l, m with
         | [], [] => true
         | (k, x) :: l', (k', y) :: m' => String.eqb k k' && js_eqb x y && go l' m'
         | _, _ => false
         end) l m
  | _, _ => false
  end.

Lemma js_eqb_eq a b : js_eqb a b = true ↔ a = b.
Proof.
  revert b. induction a as [| |x|x|x|l IH|l IH] using js_ind'; intros [| |y|y|y|m|m];
    simpl; try (split; congruence).
  - rewrite Bool.eqb_true_iff. split; congruence.
  - rewrite Z.eqb_eq. split; congruence.
  - rewrite String.eqb_eq. split; congruence.
  - revert m. induction IH as [|x l Hx _ IHl]; intros [|y m]; simpl; try (split; congruence).
    rewrite andb_true_iff, Hx, IHl. split; [intros [-> [= ->]]; done | intros [= -> ->]; done].
  - revert m. induction IH as [|[k x] l Hx _ IHl]; intros [|[k' y] m]; simpl; try (split; congruence).
    simpl in Hx. rewrite !andb_true_iff, String.eqb_eq, Hx, IHl.
    split; [intros [[-> ->] [= ->]]; done | intros [= -> -> ->]; done].
Qed.

#[export] Instance js_eq_dec : EqDecision js.
Proof.
  intros a b. destruct (js_eqb a b) eqn:E.
  - left. by apply js_eqb_eq.
  - right. intros ?%js_eqb_eq. congruence.
Defined.

(** ** Property assignment [o[k] = v]

    An own property is overwritten in place, a new one is added last
    (the order [JSON.stringify] and spreading follow).  The code assigns
    only to objects it has just built by spreading.  Assigning to
    [undefined] or [null] throws, and so does assigning to another
    primitive in the strict code of a module; assignment to an array is
    outside the model, which refuses it with the same TypeError. *)

Fixpoint set_assoc (k : string) (v : js) (kvs : list (string * js)) : list (string * js) :=
  match kvs with
  | [] => [(k, v)]
  | (k', v') :: rest => if String.eqb k k' then (k, v) :: rest else (k', v') :: set_assoc k v rest
  end.

Definition set_prop (o : js) (k : string) (v : js) : result exn js :=
  match o with
  | JObj kvs => Ok (JObj (set_assoc k v kvs))
  | _ => throw (TypeError ("Cannot create property '" ++ k ++ "' on " ++ js_ToString o))
  end.

(** [undefined] and [null], the values whose properties cannot be read. *)
Definition nullish (v : js) : bool :=
  match v with JUndef | JNull => true | _ => false end.

(** The value of [v.k] when the read does not throw. *)
Definition field (v : js) (k : string) : js :=
  match get_prop v k with Ok x => x | Err _ => JUndef end.

Lemma get_prop_not_nullish v k : nullish v = false → get_prop v k = Ok (field v k).
Proof. unfold field. by destruct v. Qed.

Lemma to_string_method_defined v : nullish v = false → to_string_method v = Ok (js_ToString v).
Proof. by destruct v. Qed.

Lemma get_prop_nullish v k :
  nullish v = true → ∃ msg, get_prop v k = Err (TypeError msg).
Proof. destruct v; try done; eexists; reflexivity. Qed.

Lemma field_obj kvs k : field (JObj kvs) k = default JUndef (assoc k kvs).
Proof. done. Qed.

#[export] Hint Rewrite field_obj : cs3.

Local Open Scope Z_scope.

(** ** [ToNumber] on strings and loose equality *)

(** A number as [ToNumber] produces it: NaN, an infinity, or the exact
    value [m * 10^e] of a decimal literal. *)
Inductive numval : Type :=
| NNaN
| NInf (neg : bool)
| NFin (m e : Z).

Definition dec_digit (c : ascii) : option Z :=
  let n := nat_of_ascii c in
  if Nat.leb 48 n && Nat.leb n 57 then Some (Z.of_nat (n - 48)) else None.

(** Value of a hexadecimal, octal or binary digit in base [b]. *)
Definition radix_digit (b : Z) (c : ascii) : option Z :=
  let n := nat_of_ascii c in
  let v := if Nat.leb 48 n && Nat.leb n 57 then Some (Z.of_nat (n - 48))
           else if Nat.leb 97 n && Nat.leb n 102 then Some (Z.of_nat (n - 87))
           else if Nat.leb 65 n && Nat.leb n 70 then Some (Z.of_nat (n - 55))
           else None in
  match v with Some d => if Z.ltb d b then Some d else None | None => None end.

(** The longest prefix of digits: its value, its length and the rest. *)
Fixpoint take_digits (l : list ascii) (acc : Z) (n : nat) : Z * nat * list ascii :=
  match l with
  | c :: l' => match dec_digit c with
               | Some d => take_digits l' (acc * 10 + d) (S n)
               | None => (acc, n, l)
               end
  | [] => (acc, n, [])
  end.

(** All of [l] as digits of base [b], at least one. *)
Fixpoint radix_value (b : Z) (l : list ascii) (acc : Z) : option Z :=
  match l with
  | [] => Some acc
  | c :: l' => match radix_digit b c with
               | Some d => radix_value b l' (acc * b + d)
               | None => None
               end
  end.

Definition nonempty_radix (b : Z) (l : list ascii) : numval :=
  match l with
  | [] => NNaN
  | _ => match radix_value b l 0 with Some v => NFin v 0 | None => NNaN end
  end.

(** [ExponentPart] and the end of the literal. *)
Definition exponent_part (l : list ascii) : option Z :=
  match l with
  | [] => Some 0
  | e :: l' =>
      if Ascii.eqb e "e" || Ascii.eqb e "E" then
        let '(sgn, l'') := match l' with
                           | "+"%char :: r => (1, r)
                           | "-"%char :: r => ((-1)%Z, r)
                           | _ => (1%Z, l')
                           end in
        match take_digits l'' 0 0 with
        | (v, S _, []) => Some (sgn * v)
        | _ => None
        end
      else None
  end.

(** [StrUnsignedDecimalLiteral]. *)
Definition unsigned_decimal (l : list ascii) : numval :=
  if String.eqb (string_of_list_ascii l) "Infinity" then NInf false else
  let '(v1, n1, r1) := take_digits l 0 0 in
  let '(m, n2, r2) :=
    match r1 with
    | "."%char :: r => let '(v2, n2, r2) := take_digits r 0 0 in
                       (v1 * 10 ^ Z.of_nat n2 + v2, n2, r2)
    | _ => (v1, 0%nat, r1)
    end in
  if Nat.eqb (n1 + n2) 0 then NNaN else
  match exponent_part r2 with
  | Some e => NFin m (e - Z.of_nat n2)
  | None => NNaN
  end.

Definition negate (v : numval) : numval :=
  match v with
  | NNaN => NNaN
  | NInf b => NInf (negb b)
  | NFin m e => NFin (- m) e
  end.

(** [ToNumber(s)] for a string (StringToNumber of ECMA-262). *)
Definition str_to_number (s : string) : numval :=
  match list_ascii_of_string (trim s) with
  | [] => NFin 0 0
  | "0"%char :: x :: l =>
      if Ascii.eqb x "x" || Ascii.eqb x "X" then nonempty_radix 16 l
      else if Ascii.eqb x "o" || Ascii.eqb x "O" then nonempty_radix 8 l
      else if Ascii.eqb x "b" || Ascii.eqb x "B" then nonempty_radix 2 l
      else unsigned_decimal ("0"%char :: x :: l)
  | "+"%char :: l => unsigned_decimal l
  | "-"%char :: l => negate (unsigned_decimal l)
  | l => unsigned_decimal l
  end.

Definition numval_eq_Z (v : numval) (n : Z) : bool :=
  match v with
  | NFin m e => if Z.leb 0 e then Z.eqb (m * 10 ^ e) n else Z.eqb m (n * 10 ^ (- e))
  | _ => false
  end.

(** [ToPrimitive] of an object or array (its [toString]), and [ToNumber]
    of a boolean. *)
Definition to_primitive (v : js) : js :=
  match v with JArr _ | JObj _ => JStr (js_ToString v) | _ => v end.

Definition bool_to_number (v : js) : js :=
  match v with JBool b => JNum (if b then 1 else 0) | _ => v end.

(** [==] between two primitives that are numbers or strings. *)
Definition prim_loose_eq (a b : js) : bool :=
  match a, b with
  | JNum x, JNum y => Z.eqb x y
  | JStr s, JStr t => String.eqb s t
  | JNum x, JStr s | JStr s, JNum x => numval_eq_Z (str_to_number s) x
  | _, _ => false
  end.

(** The abstract equality [a == b] (IsLooselyEqual). *)
Definition loose_eq (a b : js) : bool :=
  match a, b with
  | (JUndef | JNull), (JUndef | JNull) => true
  | (JUndef | JNull), _ | _, (JUndef | JNull) => false
  | (JArr _ | JObj _), (JArr _ | JObj _) => false
  | _, _ => prim_loose_eq (bool_to_number (to_primitive a)) (bool_to_number (to_primitive b))
  end.

Local Open Scope nat_scope.

(** ** [JSON.stringify] *)

Definition dq : ascii := "034"%char.
Definition bs : ascii := "092"%char.

Definition hex_char (n : nat) : ascii :=
  if Nat.ltb n 10 then ascii_of_nat (48 + n) else ascii_of_nat (87 + n).

(** QuoteJSONString on one code unit. *)
Definition escape_char (c : ascii) : string :=
  match nat_of_ascii c with
  | 34 => String bs (String dq EmptyString)
  | 92 => String bs (String bs EmptyString)
  | 8 => String bs "b"
  | 12 => String bs "f"
  | 10 => String bs "n"
  | 13 => String bs "r"
  | 9 => String bs "t"
  | n => if Nat.ltb n 32
         then String bs ("u00" ++ String (hex_char (n / 16)) (String (hex_char (n mod 16)) EmptyString))
         else String c EmptyString
  end.

Fixpoint quote_body (s : string) : string :=
  match s with
  | EmptyString => EmptyString
  | String c s' => escape_char c ++ quote_body s'
  end.

Definition quote (s : string) : string := String dq (quote_body s ++ String dq EmptyString).

(** Insert a key/value pair among array-index keys kept in ascending
    order. *)
Fixpoint insert_index {A} (i : nat) (kv : string * A) (l : list (nat * (string * A))) :=
  match l with
  | [] => [(i, kv)]
  | (j, kv') :: l' => if Nat.ltb i j then (i, kv) :: l else (j, kv') :: insert_index i kv l'
  end.

(** [OrdinaryOwnPropertyKeys]: array-index keys in ascending order, then
    the other keys in insertion order. *)
Definition own_keys_order {A} (kvs : list (string * A)) : list (string * A) :=
  let idx := foldr (λ kv acc, match array_index kv.1 with
                              | Some i => insert_index i kv acc
                              | None => acc
                              end) [] kvs in
  map snd idx ++ List.filter (λ kv, match array_index kv.1 with Some _ => false | None => true end) kvs.

(** [JSON.stringify(v)]: [None] is the [undefined] it returns for
    [undefined]; object members whose value is [undefined] are skipped,
    array elements that are [undefined] print as [null]. *)
Fixpoint stringify (v : js) : option string :=
  match v with
  | JUndef => None
  | JNull => Some "null"
  | JBool b => Some (if b then "true" else "false")
  | JNum n => Some (Z_to_dec n)
  | JStr s => Some (quote s)
  | JArr l =>
      let elems := map (λ o, default "null" o)
                     ((fix go (l : list js) : list (option string) :=
                         match l with [] => [] | x :: l' => stringify x :: go l' end) l) in
      Some ("[" ++ String.concat "," elems ++ "]")
  | JObj kvs =>
      let members :=
        (fix go (kvs : list (string * js)) : list (string * option string) :=
           match kvs with [] => [] | (k, x) :: kvs' => (k, stringify x) :: go kvs' end) kvs in
      let shown := omap (λ kv, match kv.2 with
                               | Some s => Some (quote kv.1 ++ ":" ++ s)
                               | None => None
                               end) (own_keys_order members) in
      Some ("{" ++ String.concat "," shown ++ "}")
  end.
