(* ===== verification/Json.v ===== *)
(** * [JSON.parse], and the round trip of [JSON.stringify]

    [requestAPI] resolves with [JSON.parse] of the response body, and
    [CreateShare] shows [JSON.stringify(data)] of it (createShare.tsx
    line 160), which spec section 6 calls echoing the result verbatim.
    This file models [JSON.parse] (ECMA-262 and ECMA-404) on Latin-1
    text: [p_json_value] and its two loops [p_json_elems] and
    [p_json_members], on fuel, build values as [JSON.parse] does, with
    [CreateDataProperty] for members ([set_assoc]: a repeated key keeps
    its first place and takes the last value).  Numbers with a fraction
    or an exponent, and [\u] escapes beyond Latin-1, are [OutsideModel].

    [json_normalize v] is the value [JSON.stringify] describes: members
    whose value is [undefined] dropped, array holes [undefined] read as
    [null], and members in property order ([own_keys_order]).
    [parse_stringify] proves that parsing the text of [JSON.stringify v]
    gives [json_normalize v] back, for values whose objects have no
    repeated key ([json_wf]). *)

From S2P Require Import Prelude JsString JsValue.
From Stdlib Require Import Ascii String.

Open Scope string_scope.

(** ** The grammar *)

Definition is_json_ws (c : ascii) : bool :=
  match nat_of_ascii c with 9 | 10 | 13 | 32 => true | _ => false end.

Fixpoint skip_ws (s : string) : string :=
  match s with
  | String c s' => if is_json_ws c then skip_ws s' else s
  | EmptyString => s
  end.

(** The character of a one-letter escape: a backslash followed by a
    double quote, a backslash, a slash, or one of [b f n r t]. *)
Definition json_escape (e : ascii) : option ascii :=
  match nat_of_ascii e with
  | 34 => Some dq
  | 92 => Some bs
  | 47 => Some "/"%char
  | 98 => Some (ascii_of_nat 8)
  | 102 => Some (ascii_of_nat 12)
  | 110 => Some (ascii_of_nat 10)
  | 114 => Some (ascii_of_nat 13)
  | 116 => Some (ascii_of_nat 9)
  | _ => None
  end.

Definition hex4 (h1 h2 h3 h4 : ascii) : option Z :=
  match radix_digit 16 h1, radix_digit 16 h2, radix_digit 16 h3, radix_digit 16 h4 with
  | Some a, Some b, Some c, Some d => Some (((a * 16 + b) * 16 + c) * 16 + d)%Z
  | _, _, _, _ => None
  end.

Definition cons_char (c : ascii) (res : result exn (string * string)) : result exn (string * string) :=
  match res with
  | Ok (t, rest) => Ok (String c t, rest)
  | Err e => Err e
  end.

(** The characters of a string literal after its opening quote, up to
    and without the closing one. *)
Fixpoint p_json_string (s : string) : result exn (string * string) :=
  match s with
  | EmptyString => throw (SyntaxError "Unterminated string in JSON")
  | String c s' =>
      if Ascii.eqb c dq then Ok (EmptyString, s')
      else if Ascii.eqb c bs then
        match s' with
        | String "u" (String h1 (String h2 (String h3 (String h4 r)))) =>
            match hex4 h1 h2 h3 h4 with
            | Some n => if Z.ltb n 256 then cons_char (ascii_of_N (Z.to_N n)) (p_json_string r)
                        else throw (OutsideModel "character beyond Latin-1")
            | None => throw (SyntaxError "Bad Unicode escape in JSON")
            end
        | String e r =>
            match json_escape e with
            | Some c' => cons_char c' (p_json_string r)
            | None => throw (SyntaxError "Bad escaped character in JSON")
            end
        | EmptyString => throw (SyntaxError "Unterminated string in JSON")
        end
      else if Nat.ltb (nat_of_ascii c) 32 then throw (SyntaxError "Bad control character in string literal in JSON")
      else cons_char c (p_json_string s')
  end.

Definition is_dec_digit (c : ascii) : bool :=
  Nat.leb 48 (nat_of_ascii c) && Nat.leb (nat_of_ascii c) 57.

(** The longest run of decimal digits, its value added to [acc * 10^k]. *)
Fixpoint json_digits (s : string) (acc : Z) : Z * string :=
  match s with
  | String c s' => if is_dec_digit c then json_digits s' (acc * 10 + Z.of_nat (nat_of_ascii c - 48))%Z
                   else (acc, s)
  | EmptyString => (acc, s)
  end.

(** After the integer part: a fraction or an exponent is outside the
    model, anything else ends the number. *)
Definition json_number_end (neg : bool) (v : Z) (r : string) : result exn (Z * string) :=
  match r with
  | String "." _ | String "e" _ | String "E" _ => throw (OutsideModel "number with a fraction or an exponent")
  | _ => Ok (if neg then (- v)%Z else v, r)
  end.

(** An optional minus sign, then [0] or a non-zero digit followed by
    digits, then the end of the number. *)
Definition p_json_number (s : string) : result exn (Z * string) :=
  let '(neg, s1) := match s with String "-" r => (true, r) | _ => (false, s) end in
  match s1 with
  | String "0" r => json_number_end neg 0 r
  | String c _ =>
      if is_dec_digit c then let '(v, r) := json_digits s1 0 in json_number_end neg v r
      else throw (SyntaxError "No number after minus sign in JSON")
  | EmptyString => throw (SyntaxError "No number after minus sign in JSON")
  end.

Fixpoint p_json_value (fuel : nat) (s : string) {struct fuel} : result exn (js * string) :=
  match fuel with
  | O => throw (OutsideModel "parser fuel")
  | S f =>
      match skip_ws s with
      | String "n" (String "u" (String "l" (String "l" r))) => Ok (JNull, r)
      | String "t" (String "r" (String "u" (String "e" r))) => Ok (JBool true, r)
      | String "f" (String "a" (String "l" (String "s" (String "e" r)))) => Ok (JBool false, r)
      | String c r as s1 =>
          if Ascii.eqb c dq then '(t, r') ← p_json_string r; Ok (JStr t, r')
          else if Ascii.eqb c "[" then
            match skip_ws r with
            | String "]" r' => Ok (JArr [], r')
            | _ => p_json_elems f r []
            end
          else if Ascii.eqb c "{" then
            match skip_ws r with
            | String "}" r' => Ok (JObj [], r')
            | _ => p_json_members f r []
            end
          else if Ascii.eqb c "-" || is_dec_digit c then
            '(n, r') ← p_json_number s1; Ok (JNum n, r')
          else throw (SyntaxError "Unexpected token in JSON")
      | EmptyString => throw (SyntaxError "Unexpected end of JSON input")
      end
  end
(** The elements of a non-empty array, [acc] those read so far. *)
with p_json_elems (fuel : nat) (s : string) (acc : list js) {struct fuel} : result exn (js * string) :=
  match fuel with
  | O => throw (OutsideModel "parser fuel")
  | S f =>
      '(v, r) ← p_json_value f s;
      match skip_ws r with
      | String "," r' => p_json_elems f r' (acc ++ [v])
      | String "]" r' => Ok (JArr (acc ++ [v]), r')
      | _ => throw (SyntaxError "Expected ',' or ']' after array element in JSON")
      end
  end
(** The members of a non-empty object, [acc] the object so far. *)
with p_json_members (fuel : nat) (s : string) (acc : list (string * js)) {struct fuel}
    : result exn (js * string) :=
  match fuel with
  | O => throw (OutsideModel "parser fuel")
  | S f =>
      match skip_ws s with
      | String c r =>
          if Ascii.eqb c dq then
            '(k, r1) ← p_json_string r;
            match skip_ws r1 with
            | String ":" r2 =>
                '(v, r3) ← p_json_value f r2;
                match skip_ws r3 with
                | String "," r4 => p_json_members f r4 (set_assoc k v acc)
                | String "}" r4 => Ok (JObj (set_assoc k v acc), r4)
                | _ => throw (SyntaxError "Expected ',' or '}' after property value in JSON")
                end
            | _ => throw (SyntaxError "Expected ':' after property name in JSON")
            end
          else throw (SyntaxError "Expected double-quoted property name in JSON")
      | EmptyString => throw (SyntaxError "Expected double-quoted property name in JSON")
      end
  end.

(** [JSON.parse(text)]: one value and nothing but white space after it.
    A value reads at least one character before it enters an array or
    an object, and an element or a member reads at least one more, so
    twice the length of the text plus two is enough fuel
    ([json_parse_no_fuel]). *)
Definition json_parse (text : string) : result exn js :=
  '(v, r) ← p_json_value (2 * String.length text + 2) text;
  match skip_ws r with
  | EmptyString => Ok v
  | _ => throw (SyntaxError "Unexpected non-whitespace character after JSON")
  end.

(** ** What [JSON.stringify] describes *)

(** The value [JSON.parse] rebuilds from the text of [JSON.stringify v]. *)
Fixpoint json_normalize (v : js) : js :=
  match v with
  | JArr l =>
      JArr ((fix go (l : list js) : list js :=
               match l with
               | [] => []
               | x :: l' => match x with JUndef => JNull | _ => json_normalize x end :: go l'
               end) l)
  | JObj kvs =>
      JObj (omap (λ kv : string * js, match kv.2 with JUndef => None | x => Some (kv.1, x) end)
                 (own_keys_order
                    ((fix go (kvs : list (string * js)) : list (string * js) :=
                        match kvs with
                        | [] => []
                        | (k, x) :: kvs' => (k, json_normalize x) :: go kvs'
                        end) kvs)))
  | _ => v
  end.

Fixpoint nodup_keys (kvs : list (string * js)) : bool :=
  match kvs with
  | [] => true
  | (k, _) :: kvs' => negb (existsb (String.eqb k) (map fst kvs')) && nodup_keys kvs'
  end.

(** No object, at any depth, has a repeated key: what [JSON.parse]
    produces. *)
Fixpoint json_wf (v : js) : bool :=
  match v with
  | JArr l => (fix go (l : list js) : bool :=
                 match l with [] => true | x :: l' => json_wf x && go l' end) l
  | JObj kvs =>
      nodup_keys kvs &&
      (fix go (kvs : list (string * js)) : bool :=
         match kvs with [] => true | (_, x) :: kvs' => json_wf x && go kvs' end) kvs
  | _ => true
  end.

(** ** String literals *)

Lemma p_json_string_escape c rest :
  p_json_string (escape_char c ++ rest) = cons_char c (p_json_string rest).
Proof. destruct c as [[] [] [] [] [] [] [] []]; reflexivity. Qed.

Lemma p_json_string_quote s rest :
  p_json_string (quote_body s ++ String dq rest) = Ok (s, rest).
Proof.
  induction s as [|c s IH]; [reflexivity|]. simpl.
  rewrite append_assoc_str, p_json_string_escape, IH. reflexivity.
Qed.

(** ** Numbers *)

(** A character that cannot continue a number: what follows a number in
    the text of [JSON.stringify]. *)
Definition ends_number (r : string) : bool :=
  match r with
  | String c _ => negb (is_dec_digit c) && negb (Ascii.eqb c ".") && negb (Ascii.eqb c "e")
                  && negb (Ascii.eqb c "E")
  | EmptyString => true
  end.

Lemma digit_char_spec d : (d < 10)%N →
  is_dec_digit (digit_char d) = true ∧ Z.of_nat (nat_of_ascii (digit_char d) - 48) = Z.of_N d.
Proof.
  intros Hd. assert (d = 0 ∨ d = 1 ∨ d = 2 ∨ d = 3 ∨ d = 4 ∨ d = 5 ∨ d = 6 ∨ d = 7 ∨ d = 8 ∨ d = 9)%N
    as Hd' by lia.
  repeat destruct Hd' as [->|Hd']; subst; split; reflexivity.
Qed.

Lemma json_digits_N_digits f : ∀ n acc a rest, (n < 10 ^ N.of_nat f)%N →
  ∃ k : nat, json_digits (N_digits f n acc ++ rest) a =
             json_digits (acc ++ rest) (a * 10 ^ Z.of_nat k + Z.of_N n)%Z.
Proof.
  induction f as [|f IH]; intros n acc a rest Hn; simpl.
  - exists 0%nat. simpl in Hn. assert (n = 0%N) as -> by lia. f_equal. lia.
  - pose proof (N.mod_lt n 10 ltac:(lia)) as Hmod.
    destruct (digit_char_spec (n mod 10) Hmod) as [Hdig Hval].
    destruct (N.ltb_spec n 10).
    + exists 1%nat. rewrite append_String. simpl. rewrite Hdig, Hval. f_equal.
      rewrite N.mod_small by lia. lia.
    + destruct (IH (n / 10)%N (String (digit_char (n mod 10)) acc) a rest) as [k Hk].
      { rewrite Nat2N.inj_succ, N.pow_succ_r' in Hn. apply N.Div0.div_lt_upper_bound; lia. }
      exists (S k). rewrite Hk, append_String. simpl. rewrite Hdig, Hval. f_equal.
      pose proof (N.div_mod n 10 ltac:(lia)). rewrite Nat2Z.inj_succ, Z.pow_succ_r by lia. lia.
Qed.

Lemma N_digits_head f : ∀ n acc, (0 < n)%N → (n < 10 ^ N.of_nat f)%N →
  ∃ d s, N_digits f n acc = String (digit_char d) s ∧ (0 < d < 10)%N.
Proof.
  induction f as [|f IH]; intros n acc Hpos Hn; simpl in *; [lia|].
  destruct (N.ltb_spec n 10).
  - exists (n mod 10)%N, acc. rewrite N.mod_small by lia. split; [done|lia].
  - apply IH.
    + apply N.div_str_pos. lia.
    + rewrite Nat2N.inj_succ, N.pow_succ_r' in Hn. apply N.Div0.div_lt_upper_bound; lia.
Qed.

Lemma pos_lt_size p : (Npos p < 2 ^ N.of_nat (Pos.size_nat p))%N.
Proof. induction p as [p IH|p IH|]; simpl; rewrite ?Nat2N.inj_succ, ?N.pow_succ_r'; lia. Qed.

Lemma N_lt_10_size n : (n < 10 ^ N.of_nat (S (N.size_nat n)))%N.
Proof.
  destruct n as [|p]; [simpl; lia|]. simpl. rewrite Nat2N.inj_succ, N.pow_succ_r'.
  pose proof (pos_lt_size p).
  assert (2 ^ N.of_nat (Pos.size_nat p) <= 10 ^ N.of_nat (Pos.size_nat p))%N
    by (apply N.pow_le_mono_l; lia).
  lia.
Qed.

Lemma json_digits_end s a : ends_number s = true → json_digits s a = (a, s).
Proof. destruct s as [|c s]; [done|]. simpl. by destruct (is_dec_digit c). Qed.

Lemma json_number_end_ok neg v r :
  ends_number r = true → json_number_end neg v r = Ok (if neg then (- v)%Z else v, r).
Proof.
  destruct r as [|c r]; [done|]. intros H.
  destruct c as [[] [] [] [] [] [] [] []]; first [discriminate H | reflexivity].
Qed.

Lemma json_digits_dec p rest :
  ends_number rest = true → json_digits (N_to_dec (Npos p) ++ rest) 0 = (Zpos p, rest).
Proof.
  intros Hr. unfold N_to_dec.
  destruct (json_digits_N_digits (S (N.size_nat (Npos p))) (Npos p) "" 0 rest (N_lt_10_size _))
    as [k ->].
  by rewrite json_digits_end.
Qed.

Lemma p_json_number_digit c t :
  is_dec_digit c = true → c ≠ "0"%char →
  p_json_number (String c t) = (let '(v, r) := json_digits (String c t) 0 in json_number_end false v r).
Proof.
  intros Hd Hz. destruct c as [[] [] [] [] [] [] [] []];
    first [discriminate Hd | by destruct Hz | reflexivity].
Qed.

Lemma p_json_number_minus c t :
  is_dec_digit c = true → c ≠ "0"%char →
  p_json_number (String "-" (String c t)) =
    (let '(v, r) := json_digits (String c t) 0 in json_number_end true v r).
Proof.
  intros Hd Hz. destruct c as [[] [] [] [] [] [] [] []];
    first [discriminate Hd | by destruct Hz | reflexivity].
Qed.

Lemma N_to_dec_head p : ∃ c s, N_to_dec (Npos p) = String c s ∧ is_dec_digit c = true ∧ c ≠ "0"%char.
Proof.
  destruct (N_digits_head (S (N.size_nat (Npos p))) (Npos p) "" ltac:(lia) (N_lt_10_size _))
    as (d & s & Hd & Hrange).
  exists (digit_char d), s. split; [done|]. split; [by apply digit_char_spec; lia|].
  intros Hz. assert (d = 0)%N; [|lia].
  assert (d = 1 ∨ d = 2 ∨ d = 3 ∨ d = 4 ∨ d = 5 ∨ d = 6 ∨ d = 7 ∨ d = 8 ∨ d = 9)%N as Hd' by lia.
  repeat destruct Hd' as [->|Hd']; subst; discriminate Hz.
Qed.

Lemma p_json_number_Z n rest :
  ends_number rest = true → p_json_number (Z_to_dec n ++ rest) = Ok (n, rest).
Proof.
  intros Hr. destruct n as [|p|p]; simpl.
  - by apply json_number_end_ok.
  - destruct (N_to_dec_head p) as (c & s & Hs & Hd & Hz).
    rewrite Hs, append_String, p_json_number_digit by done.
    rewrite <- append_String, <- Hs, json_digits_dec by done. by apply json_number_end_ok.
  - destruct (N_to_dec_head p) as (c & s & Hs & Hd & Hz).
    change ("-" ++ N_to_dec (Npos p))%string with (String "-" (N_to_dec (Npos p))).
    rewrite append_String, Hs, append_String, p_json_number_minus by done.
    rewrite <- append_String, <- Hs, json_digits_dec by done. by apply json_number_end_ok.
Qed.

(** ** The equations of the nested recursions *)

Definition norm_elem (x : js) : js := match x with JUndef => JNull | _ => json_normalize x end.

Lemma stringify_JArr l :
  stringify (JArr l) = Some ("[" ++ String.concat "," (map (λ x, default "null" (stringify x)) l) ++ "]").
Proof.
  simpl. do 4 f_equal. induction l as [|x l IH]; [done|]. simpl. by rewrite IH.
Qed.

Lemma stringify_JObj kvs :
  stringify (JObj kvs) =
    Some ("{" ++ String.concat ","
            (omap (λ kv : string * option string,
                     match kv.2 with Some s => Some (quote kv.1 ++ ":" ++ s) | None => None end)
                  (own_keys_order (map (λ kv : string * js, (kv.1, stringify kv.2)) kvs))) ++ "}").
Proof.
  simpl. do 6 f_equal. induction kvs as [|[k x] kvs IH]; [done|]. simpl. by rewrite IH.
Qed.

Lemma json_normalize_JArr l : json_normalize (JArr l) = JArr (map norm_elem l).
Proof. reflexivity. Qed.

Lemma json_normalize_JObj kvs :
  json_normalize (JObj kvs) =
    JObj (omap (λ kv : string * js, match kv.2 with JUndef => None | x => Some (kv.1, x) end)
               (own_keys_order (map (λ kv : string * js, (kv.1, json_normalize kv.2)) kvs))).
Proof. simpl. do 3 f_equal. induction kvs as [|[k x] kvs IH]; [done|]. simpl. by rewrite IH. Qed.

Lemma json_wf_JArr l : json_wf (JArr l) = forallb json_wf l.
Proof. simpl. induction l as [|x l IH]; [done|]. simpl. by rewrite IH. Qed.

Lemma json_wf_JObj kvs :
  json_wf (JObj kvs) = nodup_keys kvs && forallb (λ kv : string * js, json_wf kv.2) kvs.
Proof. simpl. f_equal. induction kvs as [|[k x] kvs IH]; [done|]. simpl. by rewrite IH. Qed.

(** ** Property order *)

(** [own_keys_order] only looks at the keys. *)
Lemma insert_index_map {A B} (h : A → B) i k (a : A) (l : list (nat * (string * A))) :
  insert_index i (k, h a) (map (λ p, (p.1, (p.2.1, h p.2.2))) l) =
    map (λ p, (p.1, (p.2.1, h p.2.2))) (insert_index i (k, a) l).
Proof.
  induction l as [|[j [k' a']] l IH]; simpl; [done|].
  destruct (Nat.ltb i j); simpl; [done|]. by rewrite IH.
Qed.

Lemma own_keys_order_map {A B} (h : A → B) (kvs : list (string * A)) :
  own_keys_order (map (λ kv, (kv.1, h kv.2)) kvs) = map (λ kv, (kv.1, h kv.2)) (own_keys_order kvs).
Proof.
  unfold own_keys_order. rewrite map_app. f_equal.
  - assert (∀ l : list (string * A),
      foldr (λ kv acc, match array_index kv.1 with Some i => insert_index i kv acc | None => acc end)
            [] (map (λ kv, (kv.1, h kv.2)) l) =
      map (λ p, (p.1, (p.2.1, h p.2.2)))
          (foldr (λ kv acc, match array_index kv.1 with Some i => insert_index i kv acc | None => acc end)
                 [] l)) as Hf.
    { induction l as [|[k a] l IH]; [done|]. simpl. rewrite IH.
      destruct (array_index k); [|done]. apply insert_index_map. }
    rewrite Hf, !map_map. by apply map_ext.
  - induction kvs as [|[k a] kvs IH]; [done|]. simpl. destruct (array_index k); simpl; by rewrite IH.
Qed.

Lemma insert_index_perm {A} i (kv : string * A) l :
  map snd (insert_index i kv l) ≡ₚ kv :: map snd l.
Proof.
  induction l as [|[j kv'] l IH]; simpl; [done|].
  destruct (Nat.ltb i j); simpl; [done|]. rewrite IH. by constructor.
Qed.

Lemma own_keys_order_perm {A} (kvs : list (string * A)) : own_keys_order kvs ≡ₚ kvs.
Proof.
  unfold own_keys_order. induction kvs as [|[k a] kvs IH]; simpl; [done|].
  destruct (array_index k); simpl.
  - rewrite insert_index_perm. simpl. by constructor.
  - rewrite <- Permutation_middle. by constructor.
Qed.

(** ** Helpers of the round trip *)

Lemma concat_one sep a : String.concat sep [a] = a.
Proof. reflexivity. Qed.

Lemma concat_cons2 sep a b l :
  String.concat sep (a :: b :: l) = (a ++ sep ++ String.concat sep (b :: l))%string.
Proof. reflexivity. Qed.

Lemma stringify_None v : stringify v = None ↔ v = JUndef.
Proof. destruct v; simpl; split; congruence. Qed.

Lemma json_normalize_undef v : json_normalize v = JUndef ↔ v = JUndef.
Proof.
  destruct v as [| | | | |l|kvs]; [done|..]; simpl; split; try congruence.
Qed.

(** The text of a value starts with a character that is not white
    space and closes no bracket. *)
Lemma stringify_head v t : stringify v = Some t →
  ∃ c s, t = String c s ∧ is_json_ws c = false ∧ c ≠ "]"%char ∧ c ≠ "}"%char.
Proof.
  destruct v as [| |b|n|s|l|kvs]; simpl; intros Ht; try discriminate Ht; injection Ht as <-.
  - by eexists _, _.
  - destruct b; by eexists _, _.
  - destruct n as [|p|p]; simpl; [by eexists _, _| |by eexists _, _].
    destruct (N_to_dec_head p) as (c & s & -> & Hd & _). eexists _, _. split; [done|].
    destruct c as [[] [] [] [] [] [] [] []]; try discriminate Hd; done.
  - by eexists _, _.
  - by eexists _, _.
  - by eexists _, _.
Qed.

Lemma p_json_value_arr f c s :
  is_json_ws c = false → c ≠ "]"%char →
  p_json_value (S f) (String "[" (String c s)) = p_json_elems f (String c s) [].
Proof.
  intros Hw Hb. destruct c as [[] [] [] [] [] [] [] []];
    first [discriminate Hw | by destruct Hb | reflexivity].
Qed.

Lemma p_json_value_num f c s :
  (is_dec_digit c || Ascii.eqb c "-") = true →
  p_json_value (S f) (String c s) = ('(n, r) ← p_json_number (String c s); Ok (JNum n, r)).
Proof.
  intros Hd. destruct c as [[] [] [] [] [] [] [] []]; first [discriminate Hd | reflexivity].
Qed.

Lemma skip_ws_delim c s : is_json_ws c = false → skip_ws (String c s) = String c s.
Proof. simpl. by intros ->. Qed.

Lemma set_assoc_fresh k v (acc : list (string * js)) :
  k ∉ map fst acc → set_assoc k v acc = (acc ++ [(k, v)])%list.
Proof.
  induction acc as [|[k' v'] acc IH]; intros Hk; simpl; [done|].
  destruct (String.eqb_spec k k') as [->|]; [by destruct Hk; left|].
  rewrite IH; [done|]. intros ?. apply Hk. by right.
Qed.

Lemma nodup_keys_NoDup kvs : nodup_keys kvs = true → NoDup (map fst kvs).
Proof.
  induction kvs as [|[k x] kvs IH]; simpl; [constructor|].
  intros [Hk Hr]%andb_prop. constructor; [|by apply IH].
  intros Hin. apply negb_true_iff in Hk. revert Hk. apply not_false_iff_true, existsb_exists.
  exists k. split; [by apply list_elem_of_In|]. apply String.eqb_refl.
Qed.

Lemma append_single c s : (String c EmptyString ++ s)%string = String c s.
Proof. reflexivity. Qed.

Lemma quote_app k s : (quote k ++ s)%string = String dq (quote_body k ++ String dq s).
Proof. unfold quote. by rewrite append_String, append_assoc_str, append_single. Qed.

Lemma p_json_members_step f k R acc :
  p_json_members (S f) (String dq (quote_body k ++ String dq (String ":" R))) acc =
    ('(v, r3) ← p_json_value f R;
     match skip_ws r3 with
     | String "," r4 => p_json_members f r4 (set_assoc k v acc)
     | String "}" r4 => Ok (JObj (set_assoc k v acc), r4)
     | _ => throw (SyntaxError "Expected ',' or '}' after property value in JSON")
     end).
Proof. cbn [p_json_members skip_ws is_json_ws]. simpl. rewrite p_json_string_quote. reflexivity. Qed.

(** ** The round trip *)

Definition defined (x : js) : bool := match x with JUndef => false | _ => true end.

(** The text of an array element, and of an object member. *)
Definition elem_text (x : js) : string := default "null" (stringify x).
Definition member_text (kv : string * js) : string := (quote kv.1 ++ ":" ++ elem_text kv.2)%string.

(** What the round trip says of one value. *)
Definition roundtrip (v : js) : Prop :=
  json_wf v = true → ∀ t, stringify v = Some t → ∀ f rest,
    String.length t < f → ends_number rest = true →
    p_json_value f (t ++ rest) = Ok (json_normalize v, rest).

Lemma elem_roundtrip x : roundtrip x → json_wf x = true → ∀ f r,
  String.length (elem_text x) < f → ends_number r = true →
  p_json_value f (elem_text x ++ r) = Ok (norm_elem x, r).
Proof.
  intros Hx Hwf f r Hf Hr. unfold elem_text, norm_elem in *.
  destruct (stringify x) as [t|] eqn:Ht; simpl in *.
  - rewrite (Hx Hwf t Ht f r Hf Hr). by destruct x.
  - apply stringify_None in Ht as ->. destruct f as [|f]; [lia|]. reflexivity.
Qed.

Lemma elems_roundtrip l : Forall roundtrip l → forallb json_wf l = true → l ≠ [] →
  ∀ acc f rest, S (String.length (String.concat "," (map elem_text l))) < f →
  p_json_elems f (String.concat "," (map elem_text l) ++ String "]" rest) acc =
    Ok (JArr (acc ++ map norm_elem l), rest).
Proof.
  induction 1 as [|x l Hx Hl IH]; intros Hwf Hne acc f rest Hf; [done|].
  simpl in Hwf. apply andb_prop in Hwf as [Hwx Hwl].
  destruct f as [|f]; [lia|].
  destruct l as [|y l].
  - simpl map in *. rewrite concat_one in *. simpl.
    rewrite (elem_roundtrip x Hx Hwx f) by (done || lia). reflexivity.
  - simpl map in *. rewrite concat_cons2 in *. rewrite !length_append_str in Hf.
    change (String.length ",") with 1 in Hf.
    rewrite append_assoc_str, append_assoc_str, append_single.
    remember (String.concat "," (elem_text y :: map elem_text l)) as C eqn:EC. simpl.
    rewrite (elem_roundtrip x Hx Hwx f) by (done || lia). simpl. subst C.
    rewrite (IH Hwl ltac:(done) (acc ++ [norm_elem x])%list f rest) by lia.
    by rewrite <- app_assoc.
Qed.

Lemma omap_stringify (K : list (string * js)) :
  omap (λ kv : string * option string,
          match kv.2 with Some s => Some (quote kv.1 ++ ":" ++ s)%string | None => None end)
       (map (λ kv : string * js, (kv.1, stringify kv.2)) K) =
    map member_text (List.filter (λ kv, defined kv.2) K).
Proof.
  induction K as [|[k x] K IH]; [done|]. simpl.
  destruct (stringify x) as [t|] eqn:Ht; simpl.
  - assert (defined x = true) as Hd by (destruct x; done || discriminate Ht).
    rewrite Hd. simpl. unfold member_text at 1, elem_text at 1. simpl. rewrite Ht. f_equal. exact IH.
  - apply stringify_None in Ht as ->. exact IH.
Qed.

Lemma omap_normalize (K : list (string * js)) :
  omap (λ kv : string * js, match kv.2 with JUndef => None | x => Some (kv.1, x) end)
       (map (λ kv : string * js, (kv.1, json_normalize kv.2)) K) =
    map (λ kv : string * js, (kv.1, json_normalize kv.2)) (List.filter (λ kv, defined kv.2) K).
Proof.
  induction K as [|[k x] K IH]; [done|]. simpl.
  destruct x as [| | | | |l|kvs]; simpl; [exact IH|..]; f_equal; exact IH.
Qed.

Lemma members_roundtrip M :
  Forall (λ kv : string * js, roundtrip kv.2 ∧ json_wf kv.2 = true ∧ defined kv.2 = true) M →
  NoDup (map fst M) → M ≠ [] →
  ∀ acc f rest, (∀ k, k ∈ map fst M → k ∉ map fst acc) →
  S (String.length (String.concat "," (map member_text M))) < f →
  p_json_members f (String.concat "," (map member_text M) ++ String "}" rest) acc =
    Ok (JObj (acc ++ map (λ kv : string * js, (kv.1, json_normalize kv.2)) M), rest).
Proof.
  induction 1 as [|[k x] M (Hx & Hwx & Hdx) HM IH]; intros Hnd Hne acc f rest Hfresh Hf; [done|].
  simpl in Hnd. inversion Hnd as [|? ? Hk Hnd']; subst.
  destruct f as [|f]; [lia|].
  assert (set_assoc k (json_normalize x) acc = (acc ++ [(k, json_normalize x)])%list) as Hset.
  { apply set_assoc_fresh, Hfresh. left. }
  assert (norm_elem x = json_normalize x) as Hn by (by destruct x).
  destruct M as [|kv M].
  - simpl map in *. rewrite concat_one in *. unfold member_text in *. simpl fst in *. simpl snd in *.
    rewrite !length_append_str in Hf.
    rewrite append_assoc_str, quote_app, append_assoc_str, append_single, p_json_members_step.
    rewrite (elem_roundtrip x Hx Hwx f), Hn by (done || lia). simpl. by rewrite Hset.
  - simpl map in *. rewrite concat_cons2 in *. rewrite !length_append_str in Hf.
    change (String.length ",") with 1 in Hf. unfold member_text at 1 in Hf. simpl fst in Hf.
    rewrite !length_append_str in Hf. change (elem_text (k, x).2) with (elem_text x) in Hf.
    unfold member_text at 1. simpl fst. simpl snd.
    remember (String.concat "," (member_text kv :: map member_text M)) as C eqn:EC.
    rewrite !append_assoc_str, quote_app, !append_single, p_json_members_step.
    rewrite (elem_roundtrip x Hx Hwx f), Hn by (done || lia). simpl.
    rewrite Hset. subst C.
    rewrite (IH Hnd' ltac:(done) (acc ++ [(k, json_normalize x)])%list f rest).
    + by rewrite <- app_assoc.
    + intros k' Hk'. rewrite map_app, elem_of_app. intros [Hin | Hin].
      * apply (Hfresh k'); [by right | done].
      * apply list_elem_of_singleton in Hin as ->. by apply Hk.
    + lia.
Qed.

Lemma concat_head sep a c s l : a = String c s →
  ∃ s', String.concat sep (a :: l) = String c s'.
Proof. intros ->. destruct l; [by eexists|]. rewrite concat_cons2, append_String. by eexists. Qed.

Lemma Z_to_dec_head n : ∃ c s, Z_to_dec n = String c s ∧ (is_dec_digit c || Ascii.eqb c "-") = true.
Proof.
  destruct n as [|p|p]; simpl; [by eexists _, _| |by eexists _, _].
  destruct (N_to_dec_head p) as (c & s & -> & Hd & _). exists c, s. by rewrite Hd.
Qed.

Lemma p_json_value_obj f s :
  p_json_value (S f) (String "{" (String dq s)) = p_json_members f (String dq s) [].
Proof. reflexivity. Qed.

Lemma NoDup_fst_filter (p : string * js → bool) K :
  NoDup (map fst K) → NoDup (map fst (List.filter p K)).
Proof.
  induction K as [|kv K IH]; simpl; [done|]. intros Hnd. inversion Hnd as [|? ? Hk Hnd']; subst.
  destruct (p kv); simpl; [|by apply IH]. constructor; [|by apply IH].
  intros (kv' & Heq & Hin)%list_elem_of_fmap. apply Hk, list_elem_of_fmap.
  exists kv'. split; [done|]. apply list_elem_of_In in Hin. apply filter_In in Hin as [Hin _].
  by apply list_elem_of_In.
Qed.

Lemma elem_text_head x : ∃ c s, elem_text x = String c s ∧ is_json_ws c = false ∧ c ≠ "]"%char.
Proof.
  unfold elem_text. destruct (stringify x) as [t|] eqn:Ht; simpl; [|by eexists _, _].
  destruct (stringify_head x t Ht) as (c & s & -> & ? & ? & _). by exists c, s.
Qed.

Theorem p_json_value_stringify v : roundtrip v.
Proof.
  induction v as [| |b|n|s|l IH|kvs IH] using js_ind'; intros Hwf t Ht f rest Hf Hr.
  - discriminate Ht.
  - injection Ht as <-. destruct f as [|f]; [simpl in Hf; lia|]. reflexivity.
  - injection Ht as <-. destruct f as [|f]; [simpl in Hf; lia|]. by destruct b.
  - injection Ht as <-. destruct f as [|f]; [simpl in Hf; lia|].
    destruct (Z_to_dec_head n) as (c & s & Hs & Hc).
    rewrite Hs, append_String, p_json_value_num, <- append_String, <- Hs, p_json_number_Z by done.
    reflexivity.
  - injection Ht as <-. destruct f as [|f]; [simpl in Hf; lia|].
    rewrite quote_app. simpl. rewrite p_json_string_quote. reflexivity.
  - rewrite stringify_JArr in Ht. injection Ht as <-. rewrite json_wf_JArr in Hwf.
    rewrite json_normalize_JArr. destruct f as [|f]; [simpl in Hf; lia|].
    destruct l as [|x l]; [reflexivity|].
    change (map (λ x0 : js, default "null" (stringify x0)) (x :: l)) with (map elem_text (x :: l)) in *.
    rewrite !length_append_str in Hf. change (String.length "[") with 1 in Hf.
    change (String.length "]") with 1 in Hf.
    destruct (elem_text_head x) as (c & s & Hx & Hw & Hb).
    destruct (concat_head "," _ c s (map elem_text l) Hx) as [s' Hs'].
    simpl map. rewrite append_assoc_str, append_single, append_assoc_str, append_single, Hs', append_String.
    rewrite p_json_value_arr, <- append_String, <- Hs' by done.
    apply (elems_roundtrip (x :: l) IH Hwf ltac:(done) [] f rest). simpl map in *. lia.
  - rewrite stringify_JObj, own_keys_order_map, omap_stringify in Ht. injection Ht as <-.
    rewrite json_normalize_JObj, own_keys_order_map, omap_normalize.
    rewrite json_wf_JObj in Hwf. apply andb_prop in Hwf as [Hnd Hwf].
    destruct f as [|f]; [simpl in Hf; lia|].
    remember (List.filter (λ kv : string * js, defined kv.2) (own_keys_order kvs)) as M eqn:EM.
    destruct M as [|kv M]; [reflexivity|].
    rewrite !length_append_str in Hf. change (String.length "{") with 1 in Hf.
    change (String.length "}") with 1 in Hf.
    destruct (concat_head "," (member_text kv) dq (quote_body kv.1 ++ String dq (":" ++ elem_text kv.2))
                (map member_text M)) as [s' Hs'].
    { unfold member_text. by rewrite quote_app. }
    simpl map. rewrite append_assoc_str, append_single, append_assoc_str, Hs', append_String.
    rewrite p_json_value_obj, <- append_String, <- Hs'.
    apply (members_roundtrip (kv :: M)); [| | done | intros ? _ Hin; simpl in Hin; by apply elem_of_nil in Hin | simpl map in *; lia].
    + apply Forall_forall. intros kv' Hkv'. rewrite EM in Hkv'.
      apply filter_In in Hkv' as [Hin Hdef].
      apply (Permutation_in _ (own_keys_order_perm kvs)) in Hin.
      split_and!; [by eapply Forall_forall in IH | | done].
      by apply forallb_forall with (x := kv') in Hwf.
    + rewrite EM. apply NoDup_fst_filter. rewrite own_keys_order_perm. by apply nodup_keys_NoDup.
Qed.

Lemma append_empty_r s : (s ++ EmptyString)%string = s.
Proof. induction s as [|c s IH]; [done|]. by rewrite append_String, IH. Qed.

(** [JSON.parse(JSON.stringify(v))] is [json_normalize v]: the text
    [JSON.stringify] produces is valid JSON, and it describes [v] up to
    the members and elements JSON has no text for. *)
Theorem parse_stringify v t :
  json_wf v = true → stringify v = Some t → json_parse t = Ok (json_normalize v).
Proof.
  intros Hwf Ht. unfold json_parse.
  pose proof (p_json_value_stringify v Hwf t Ht (2 * String.length t + 2) EmptyString ltac:(lia) eq_refl)
    as Hp.
  rewrite append_empty_r in Hp. rewrite Hp. reflexivity.
Qed.

(** ** [JSON.parse] always finishes within its fuel *)

Local Open Scope nat_scope.

(** [jwithin n res]: the parse did not run out of fuel, and if it
    succeeded it left at most [n] characters. *)
Definition jwithin {A} (n : nat) (res : result exn (A * string)) : Prop :=
  match res with Ok (_, r) => String.length r ≤ n | Err e => e ≠ OutsideModel "parser fuel" end.

Lemma jwithin_mono {A} n n' (res : result exn (A * string)) : n ≤ n' → jwithin n res → jwithin n' res.
Proof. destruct res as [[? r]|e]; simpl; [lia|auto]. Qed.

Lemma jwithin_bind {A B} n n' (m : result exn (A * string)) (k : A * string → result exn (B * string)) :
  jwithin n m → (∀ a r, String.length r ≤ n → jwithin n' (k (a, r))) → jwithin n' (m ≫= k).
Proof. destruct m as [[a r]|e]; simpl; auto. Qed.

Lemma skip_ws_len s : String.length (skip_ws s) ≤ String.length s.
Proof. induction s as [|c s IH]; simpl; [lia|]. destruct (is_json_ws c); simpl; lia. Qed.

Lemma cons_char_within c n res : jwithin n res → jwithin n (cons_char c res).
Proof. destruct res as [[? ?]|?]; done. Qed.

Lemma p_json_string_within s : jwithin (pred (String.length s)) (p_json_string s).
Proof.
  remember (String.length s) as n eqn:En. revert s En.
  induction n as [n IH] using lt_wf_ind. intros [|c s] En; simpl; [done|]. subst n.
  repeat case_match; subst; try done; try (simpl; lia);
    apply cons_char_within; (eapply jwithin_mono; [|apply IH; [|reflexivity]]); simpl; lia.
Qed.

Lemma json_digits_len s a : String.length (snd (json_digits s a)) ≤ String.length s.
Proof.
  revert a. induction s as [|c s IH]; intros a; simpl; [lia|].
  destruct (is_dec_digit c); [|simpl; lia]. specialize (IH (a * 10 + Z.of_nat (nat_of_ascii c - 48))%Z). lia.
Qed.

Lemma json_digits_strict c s a :
  is_dec_digit c = true → String.length (snd (json_digits (String c s) a)) ≤ String.length s.
Proof. intros Hd. simpl. rewrite Hd. apply json_digits_len. Qed.

Lemma json_number_end_within neg v r n : String.length r ≤ n → jwithin n (json_number_end neg v r).
Proof. intros Hr. unfold json_number_end. repeat case_match; subst; done. Qed.

Lemma p_json_number_within s : jwithin (pred (String.length s)) (p_json_number s).
Proof.
  unfold p_json_number. repeat case_match; simplify_eq/=; try done;
    try (apply json_number_end_within; simpl in *; lia).
  all: match goal with Hd : is_dec_digit ?c = true, H : (if is_dec_digit ?c then _ else _) = _ |- _ =>
         rewrite Hd in H end;
    match goal with H : json_digits ?s ?a = (?v, ?r) |- _ =>
      pose proof (json_digits_len s a) as Hl; rewrite H in Hl; simpl in Hl end;
    apply json_number_end_within; lia.
Qed.

Lemma parse_json_within f :
  (∀ s, 2 * String.length s + 2 ≤ f → jwithin (pred (String.length s)) (p_json_value f s)) ∧
  (∀ s acc, 2 * String.length s + 3 ≤ f → jwithin (String.length s) (p_json_elems f s acc)) ∧
  (∀ s acc, 2 * String.length s + 3 ≤ f → jwithin (String.length s) (p_json_members f s acc)).
Proof.
  induction f as [|f (IHv & IHe & IHm)]; [split_and!; intros; lia|].
  split_and!; intros s; [|intros acc|intros acc]; intros Hf; cbn [p_json_value p_json_elems p_json_members];
  repeat match goal with
  | H : skip_ws ?x = ?y |- _ =>
      let Hl := fresh "Hl" in pose proof (skip_ws_len x) as Hl; rewrite H in Hl; simpl in Hl; clear H
  | |- jwithin _ (p_json_string _ ≫= _) =>
      eapply jwithin_bind; [apply p_json_string_within|]; intros ?? ?; cbn beta iota
  | |- jwithin _ (p_json_number _ ≫= _) =>
      eapply jwithin_bind; [apply p_json_number_within|]; intros ?? ?; cbn beta iota
  | |- jwithin _ (p_json_value f _ ≫= _) =>
      eapply jwithin_bind; [apply IHv; simpl in *; lia|]; intros ?? ?; cbn beta iota
  | |- jwithin _ (p_json_elems f _ _) =>
      eapply jwithin_mono; [|apply IHe; simpl in *; lia]; simpl in *; lia
  | |- jwithin _ (p_json_members f _ _) =>
      eapply jwithin_mono; [|apply IHm; simpl in *; lia]; simpl in *; lia
  | |- jwithin _ (Ok _) => simpl in *; lia
  | |- jwithin _ (Err _) => done
  | |- jwithin _ (match _ with _ => _ end) => case_match
  | |- jwithin _ (if _ then _ else _) => case_match
  end.
Qed.

(** [JSON.parse] always finishes: with [2 * length + 2] fuel it returns a
    value, a SyntaxError, or a construct outside the model, but never
    runs out of fuel. *)
Theorem json_parse_no_fuel text : json_parse text ≠ Err (OutsideModel "parser fuel").
Proof.
  unfold json_parse. destruct (parse_json_within (2 * String.length text + 2)) as [Hv _].
  specialize (Hv text (le_n _)).
  destruct (p_json_value _ text) as [[v r]|e]; simpl in *; [|congruence].
  by destruct (skip_ws r).
Qed.
