(* ===== verification/Backend.v ===== *)
(** * Requests to the share service

    Both panels reach the service through [requestAPI] of [services.ts]
    (not under [src/]; modelled from its use and the spec, section 4.1):
    it sends a request and resolves with the parsed JSON body, or
    rejects.  This file holds
    - [request]: an endpoint, a method and a body, as the call sites
      build them;
    - [Backend]: the interface of the service, a class whose one method
      answers a request given the requests sent before it (so a server
      may answer the same request differently over time);
    - [requestAPI] in the traced monad of the prelude: it appends the
      request to the trace and returns the answer or throws [Rejected];
    - [resource_of]: the [/home/...] path both panels build from the
      file's [path];
    - the URLs of the three GET endpoints of infobox.tsx and
      createShare.tsx. *)

From S2P Require Import Prelude JsString JsValue.
From Stdlib Require Import Ascii String.

Open Scope string_scope.

Inductive method : Type := GET | POST.

Record request : Type := mk_request {
  req_endpoint : string;
  req_method : method;
  req_body : option string
}.

(** What the service does with a request. *)
Inductive reply : Type :=
| Resolved (body : js)
| Failed (reason : js).

(** The service, as the panels depend on it. *)
Class Backend : Type := {
  respond : list request → request → reply
}.

(** The monad of the asynchronous code: the trace of requests sent. *)
Notation io := (traced request exn).

Section Api.
Context `{Backend}.

(** [await requestAPI(endpoint, {method, body})] *)
Definition requestAPI (endpoint : string) (m : method) (body : option string) : io js :=
  λ tr,
    let r := mk_request endpoint m body in
    ((tr ++ [r])%list, match respond tr r with
                | Resolved j => Ok j
                | Failed e => Err (Rejected e)
                end).
End Api.

(** ** Endpoints *)

(** ['/home/' + path.replace('cs3drive:', '')], infobox.tsx line 207 and
    createShare.tsx line 49. *)
Definition resource_of (path : string) : string :=
  "/home/" ++ replace_first "cs3drive:" "" path.

(** The shares of a file, infobox.tsx lines 209-211. *)
Definition shares_endpoint (path : string) : string :=
  "/api/cs3/shares/file?file_path=" ++ resource_of path.

(** The user record of a grantee, infobox.tsx lines 265-270: the two
    values are concatenated with [+], that is through [ToString]. *)
Definition user_endpoint (opaqueId idp : js) : string :=
  "/api/cs3/user?opaque_id=" ++ js_ToString opaqueId ++ "&idp=" ++ js_ToString idp.

(** The user query of the share form, createShare.tsx line 151. *)
Definition query_endpoint (query : string) : string :=
  "api/cs3/user/query?query=" ++ query.

(** ** Lemmas on [requestAPI] *)

Section ApiLemmas.
Context `{Backend}.

Lemma requestAPI_trace e m b tr :
  fst (requestAPI e m b tr) = (tr ++ [mk_request e m b])%list.
Proof. done. Qed.

Lemma requestAPI_resolved e m b tr j :
  respond tr (mk_request e m b) = Resolved j →
  requestAPI e m b tr = ((tr ++ [mk_request e m b])%list, Ok j).
Proof. intros Hr. unfold requestAPI. by rewrite Hr. Qed.

Lemma requestAPI_failed e m b tr j :
  respond tr (mk_request e m b) = Failed j →
  requestAPI e m b tr = ((tr ++ [mk_request e m b])%list, Err (Rejected j)).
Proof. intros Hr. unfold requestAPI. by rewrite Hr. Qed.
End ApiLemmas.

(** The resource path of a drive file is [/home/] followed by the path
    without its drive prefix, whatever the rest of the path contains. *)
Lemma resource_of_drive p : resource_of ("cs3drive:" ++ p) = "/home/" ++ p.
Proof. unfold resource_of. by rewrite replace_first_prefix. Qed.

(** C21. The user lookup URL is not injective: the two values are
    concatenated without URL encoding, so an [opaque_id] that contains
    [&idp=] yields the same request as another identity. *)
Theorem user_endpoint_collision a b c :
  user_endpoint (JStr (a ++ "&idp=" ++ b)) (JStr c) =
  user_endpoint (JStr a) (JStr (b ++ "&idp=" ++ c)).
Proof. unfold user_endpoint. simpl. by rewrite !append_assoc_str. Qed.
