(* ===== verification/Resolver.v ===== *)
(** * The grantee resolver of the SHARES tab

    [getGrantees], the mount effect of [Shares] in infobox.tsx (lines
    205-259), with [getUsernames] (lines 261-271):
    - fetch the shares of the file ([shares_endpoint]);
    - if the body has no truthy [shares], stop ([return false]);
    - map each share to [{opaque_id, permission, idp}] ([to_entry],
      lines 221-227); an empty list stops;
    - look the users up one after the other, awaiting each
      ([lookup_users], lines 233-236);
    - join: for every response, for every entry whose [opaque_id] is
      [==] to the response's, a row [{...gr, displayName}] ([join],
      lines 238-247);
    - on success the rows become both [grantees] and [filteredGrantees]
      (lines 248-249).
    [resolve_grantees] composes these in the traced monad; it returns
    [Some rows] when the state is set, [None] when the code returns
    [false], and an exception when a promise of the chain rejects
    (nothing catches it: the state is left as it was). *)

From S2P Require Import Prelude JsString JsValue Backend.
From Stdlib Require Import Ascii.
From Stdlib Require String.

Open Scope string_scope.

(** ** Data *)

(** An element of [granteesSet]. *)
Record entry : Type := mk_entry {
  opaque_id : js;
  permission : js;
  idp : js
}.

(** A row of [granteesArray]: [{...gr, displayName: res.display_name}]. *)
Record grantee : Type := mk_grantee {
  g_entry : entry;
  displayName : js
}.

#[export] Instance entry_eq_dec : EqDecision entry.
Proof. solve_decision. Defined.
#[export] Instance grantee_eq_dec : EqDecision grantee.
Proof. solve_decision. Defined.

Section Resolver.
Context `{Backend}.

(** ** Operations *)

(** [{opaque_id: item.grantee.opaque_id, permission:
    item.grantee.permissions, idp: item.grantee.idp}], each field
    reading [item.grantee] again, in this order. *)
Definition to_entry (item : js) : result exn entry :=
  oid ← (g ← get_prop item "grantee"; get_prop g "opaque_id");
  perm ← (g ← get_prop item "grantee"; get_prop g "permissions");
  i ← (g ← get_prop item "grantee"; get_prop g "idp");
  mret (mk_entry oid perm i).

(** [granteesRequest.shares.forEach(...)]: only an array has a
    callable [forEach]; any other truthy value throws. *)
Definition entries_of (shares : js) : result exn (list entry) :=
  match shares with
  | JArr items => mapM to_entry items
  | _ => throw (TypeError "granteesRequest.shares.forEach is not a function")
  end.

Definition getUsernames (opaqueId idp : js) : io js :=
  requestAPI (user_endpoint opaqueId idp) GET None.

Definition user_request (gr : entry) : request :=
  mk_request (user_endpoint (opaque_id gr) (idp gr)) GET None.

(** [for (const gr of granteesSet) granteesPromises.push(await
    getUsernames(gr.opaque_id, gr.idp))] *)
Definition lookup_users (set : list entry) : io (list js) :=
  mapM (λ gr, getUsernames (opaque_id gr) (idp gr)) set.

(** The inner loop of the join for one response [res]. *)
Fixpoint join_one (res : js) (set : list entry) : result exn (list grantee) :=
  match set with
  | [] => mret []
  | gr :: set' =>
      rid ← get_prop res "opaque_id";
      if loose_eq (opaque_id gr) rid then
        dn ← get_prop res "display_name";
        rest ← join_one res set';
        mret (mk_grantee gr dn :: rest)
      else join_one res set'
  end.

(** [for (const res of responses) for (const gr of granteesSet) ...] *)
Fixpoint join (responses : list js) (set : list entry) : result exn (list grantee) :=
  match responses with
  | [] => mret []
  | res :: rs =>
      rows ← join_one res set;
      rest ← join rs set;
      mret (rows ++ rest)%list
  end.

(** The [then] callback of the shares request. *)
Definition on_shares (granteesRequest : js) : io (option (list grantee)) :=
  shares ← lift (get_prop granteesRequest "shares");
  if negb (truthy shares) then mret None else
  set ← lift (entries_of shares);
  if Nat.leb (List.length set) 0 then mret None else
  responses ← lookup_users set;
  rows ← lift (join responses set);
  mret (Some rows).

Definition resolve_grantees (path : string) : io (option (list grantee)) :=
  granteesRequest ← requestAPI (shares_endpoint path) GET None;
  on_shares granteesRequest.
End Resolver.

(** ** The sequential lookups *)

Section Lookups.
Context `{Backend}.

Lemma getUsernames_run gr tr :
  getUsernames (opaque_id gr) (idp gr) tr =
    ((tr ++ [user_request gr])%list,
     match respond tr (user_request gr) with
     | Resolved j => Ok j
     | Failed e => Err (Rejected e)
     end).
Proof. done. Qed.

Lemma lookup_users_cons gr set tr :
  lookup_users (gr :: set) tr =
    match respond tr (user_request gr) with
    | Resolved j =>
        match lookup_users set (tr ++ [user_request gr])%list with
        | (tr'', Ok k) => (tr'', Ok (j :: k))
        | (tr'', Err e) => (tr'', Err e)
        end
    | Failed e => ((tr ++ [user_request gr])%list, Err (Rejected e))
    end.
Proof.
  unfold lookup_users. rewrite mapM_traced_cons, getUsernames_run.
  by destruct (respond tr (user_request gr)).
Qed.

(** C3. When every user lookup resolves, [getGrantees] issues exactly
    one lookup per entry of [granteesSet], in the order of the list,
    repeated [opaque_id]s included, and collects one response each. *)
Theorem lookup_users_resolved set tr :
  (∀ i g, set !! i = Some g →
          ∃ j, respond (tr ++ map user_request (take i set))%list (user_request g) = Resolved j) →
  ∃ rs, lookup_users set tr = ((tr ++ map user_request set)%list, Ok rs) ∧
        length rs = length set.
Proof.
  revert tr. induction set as [|gr set IH]; intros tr Hall.
  - exists []. by rewrite app_nil_r.
  - rewrite lookup_users_cons.
    destruct (Hall 0 gr eq_refl) as [j Hj]. rewrite app_nil_r in Hj. rewrite Hj.
    destruct (IH (tr ++ [user_request gr])%list) as (rs & -> & Hl).
    { intros i g Hg. destruct (Hall (S i) g Hg) as [j' Hj']. exists j'.
      by rewrite <-app_assoc. }
    exists (j :: rs). rewrite <-app_assoc. simpl. by rewrite Hl.
Qed.

(** C4. A rejected lookup stops the loop: no later user is looked up
    and the whole resolution rejects with that reason. *)
Theorem lookup_users_fail_stop set tr k gr reason :
  set !! k = Some gr →
  (∀ i g, i < k → set !! i = Some g →
          ∃ j, respond (tr ++ map user_request (take i set))%list (user_request g) = Resolved j) →
  respond (tr ++ map user_request (take k set))%list (user_request gr) = Failed reason →
  lookup_users set tr =
    ((tr ++ map user_request (take (S k) set))%list, Err (Rejected reason)).
Proof.
  revert tr k. induction set as [|g set IH]; intros tr k Hk Hbefore Hfail; [done|].
  rewrite lookup_users_cons. destruct k as [|k]; simpl in *.
  - injection Hk as ->. rewrite app_nil_r in Hfail. by rewrite Hfail.
  - destruct (Hbefore 0 g ltac:(lia) eq_refl) as [j Hj]. simpl in Hj.
    rewrite app_nil_r in Hj. rewrite Hj.
    rewrite (IH (tr ++ [user_request g])%list k Hk).
    + by rewrite <-app_assoc.
    + intros i g' Hi Hg'. destruct (Hbefore (S i) g' ltac:(lia) Hg') as [j' Hj'].
      exists j'. by rewrite <-app_assoc.
    + by rewrite <-app_assoc.
Qed.
End Lookups.

(** ** The join against its declarative reading

    [spec_rows responses set]: for each response in order, one row for
    each entry whose [opaque_id] is [==] to the response's, carrying the
    response's [display_name].  This is what spec section 4.2 step 5
    describes. *)

Definition matching (res : js) (set : list entry) : list entry :=
  List.filter (λ gr, loose_eq (opaque_id gr) (field res "opaque_id")) set.

Definition spec_rows (responses : list js) (set : list entry) : list grantee :=
  flat_map (λ res, map (λ gr, mk_grantee gr (field res "display_name")) (matching res set))
    responses.

Lemma join_one_not_nullish res set :
  nullish res = false →
  join_one res set = Ok (map (λ gr, mk_grantee gr (field res "display_name")) (matching res set)).
Proof.
  intros Hres. induction set as [|gr set IH]; [done|]. simpl.
  rewrite !get_prop_not_nullish by done. simpl.
  destruct (loose_eq (opaque_id gr) (field res "opaque_id")); simpl; [|done].
  by rewrite IH.
Qed.

Lemma join_cons res rs set :
  join (res :: rs) set =
    match join_one res set with
    | Ok rows => match join rs set with Ok rest => Ok (rows ++ rest)%list | Err e => Err e end
    | Err e => Err e
    end.
Proof. simpl. destruct (join_one res set); [|done]. simpl. by destruct (join rs set). Qed.

Lemma join_one_nullish res gr set :
  nullish res = true → ∃ msg, join_one res (gr :: set) = Err (TypeError msg).
Proof.
  intros Hres. destruct (get_prop_nullish res "opaque_id" Hres) as [msg Hm].
  exists msg. simpl. by rewrite Hm.
Qed.

(** C5. The nested loops of the join compute exactly the declarative
    rows, as long as no response is [undefined] or [null]. *)
Theorem join_spec responses set :
  Forall (λ res, nullish res = false) responses →
  join responses set = Ok (spec_rows responses set).
Proof.
  induction 1 as [|res rs Hres _ IH]; [done|]. simpl.
  rewrite join_one_not_nullish by done. simpl. by rewrite IH.
Qed.

(** C6. A response that is [undefined] or [null] makes the join throw a
    TypeError (reading [opaque_id]), so no row at all is shown. *)
Theorem join_nullish_throws responses set :
  set ≠ [] → Exists (λ res, nullish res = true) responses →
  ∃ msg, join responses set = Err (TypeError msg).
Proof.
  intros Hset. destruct set as [|gr set]; [done|].
  induction 1 as [res rs Hres|res rs _ IH].
  - destruct (join_one_nullish res gr set Hres) as [msg Hm].
    exists msg. by rewrite join_cons, Hm.
  - destruct (nullish res) eqn:Hn.
    + destruct (join_one_nullish res gr set Hn) as [msg Hm].
      exists msg. by rewrite join_cons, Hm.
    + destruct IH as [msg Hm]. exists msg.
      by rewrite join_cons, join_one_not_nullish, Hm.
Qed.

Lemma spec_rows_elem responses set row :
  row ∈ spec_rows responses set ↔
  ∃ res gr, res ∈ responses ∧ gr ∈ set ∧
            loose_eq (opaque_id gr) (field res "opaque_id") = true ∧
            row = mk_grantee gr (field res "display_name").
Proof.
  unfold spec_rows, matching. rewrite list_elem_of_In, in_flat_map.
  split.
  - intros (res & Hres & Hrow). apply in_map_iff in Hrow as (gr & <- & Hgr).
    apply filter_In in Hgr as [Hgr Heq].
    exists res, gr. rewrite !list_elem_of_In. done.
  - intros (res & gr & Hres & Hgr & Heq & ->). exists res.
    rewrite <-list_elem_of_In. split; [done|].
    apply in_map_iff. exists gr. split; [done|].
    apply filter_In. rewrite <-list_elem_of_In. done.
Qed.

Lemma spec_rows_length_gen all set responses :
  Forall2 (λ gr res, field res "opaque_id" = opaque_id gr) set responses →
  length (spec_rows responses all) =
    sum_list (map (λ gr, length (List.filter (λ g, loose_eq (opaque_id g) (opaque_id gr)) all)) set).
Proof.
  unfold spec_rows, matching.
  induction 1 as [|gr res set' rs Hid _ IH]; [done|].
  simpl. rewrite length_app, length_map, Hid. by rewrite IH.
Qed.

(** C7. A row is shown exactly when some response and some entry have
    [==] opaque ids; the entry's [idp] plays no part, so an entry
    receives the display name looked up for another identity provider. *)
Theorem join_elem responses set rows row :
  join responses set = Ok rows →
  Forall (λ res, nullish res = false) responses →
  row ∈ rows ↔
  ∃ res gr, res ∈ responses ∧ gr ∈ set ∧
            loose_eq (opaque_id gr) (field res "opaque_id") = true ∧
            row = mk_grantee gr (field res "display_name").
Proof.
  intros Hj Hnn. rewrite join_spec in Hj by done. injection Hj as <-.
  apply spec_rows_elem.
Qed.

(** C8. When each user record carries the [opaque_id] it was looked up
    by, the join gives each entry one row per entry sharing its id: an
    id that occurs [m] times among the shares yields [m * m] rows. *)
Theorem join_length set responses :
  Forall2 (λ gr res, nullish res = false ∧ field res "opaque_id" = opaque_id gr) set responses →
  ∃ rows, join responses set = Ok rows ∧
    length rows =
      sum_list (map (λ gr, length (List.filter (λ g, loose_eq (opaque_id g) (opaque_id gr)) set)) set).
Proof.
  intros HF. exists (spec_rows responses set). split.
  - apply join_spec. clear -HF. induction HF as [|gr res set rs [Hn _] _ IH]; by constructor.
  - apply spec_rows_length_gen. revert HF. apply Forall2_impl. by intros ?? [_ ?].
Qed.

(** ** End to end *)

(** The user service as the resolver relies on it: every user lookup
    resolves, with a record that depends only on the requested URL. *)
Class UserDirectory `{Backend} : Type := {
  user_record : string → js;
  user_lookup : ∀ tr oid i,
    respond tr (mk_request (user_endpoint oid i) GET None) = Resolved (user_record (user_endpoint oid i))
}.

Section EndToEnd.
Context `{Backend}.

Definition shares_request (path : string) : request :=
  mk_request (shares_endpoint path) GET None.

Definition record_of `{!UserDirectory} (gr : entry) : js :=
  user_record (user_endpoint (opaque_id gr) (idp gr)).

Lemma lookup_users_directory `{!UserDirectory} set tr :
  lookup_users set tr = ((tr ++ map user_request set)%list, Ok (map record_of set)).
Proof.
  revert tr. induction set as [|gr set IH]; intros tr; [by rewrite app_nil_r|].
  rewrite lookup_users_cons. unfold user_request at 1. rewrite user_lookup.
  rewrite IH, <-app_assoc. done.
Qed.

Lemma resolve_grantees_unfold path tr body :
  respond tr (shares_request path) = Resolved body →
  resolve_grantees path tr = on_shares body (tr ++ [shares_request path])%list.
Proof. intros Hr. unfold resolve_grantees, mbind, traced_bind. by rewrite (requestAPI_resolved _ _ _ _ _ Hr). Qed.

(** C1. The resolver's contract: the shares request, then one user
    lookup per share in list order, and the rows of the declarative
    join of the records with the shares. *)
Theorem resolve_grantees_spec `{!UserDirectory} path tr body items set :
  respond tr (shares_request path) = Resolved body →
  get_prop body "shares" = Ok (JArr items) →
  mapM to_entry items = Ok set →
  set ≠ [] →
  Forall (λ gr, nullish (record_of gr) = false) set →
  resolve_grantees path tr =
    ((tr ++ shares_request path :: map user_request set)%list,
     Ok (Some (spec_rows (map record_of set) set))).
Proof.
  intros Hr Hs Hset Hne Hrec. rewrite (resolve_grantees_unfold _ _ _ Hr).
  unfold on_shares. rewrite bind_traced_lift, Hs. cbn [truthy negb].
  rewrite bind_traced_lift. cbn [entries_of]. rewrite Hset.
  assert (Nat.leb (length set) 0 = false) as -> by (destruct set; done).
  unfold mbind at 1, traced_bind. rewrite lookup_users_directory.
  unfold mbind, traced_bind, lift. rewrite join_spec by (by apply Forall_fmap).
  by rewrite <-app_assoc.
Qed.

(** C2. A body without a truthy [shares], or with an empty [shares]
    array, ends the resolution after the one shares request, with no
    user lookup and the state left unset. *)
Theorem resolve_grantees_no_shares path tr body v :
  respond tr (shares_request path) = Resolved body →
  get_prop body "shares" = Ok v →
  truthy v = false ∨ v = JArr [] →
  resolve_grantees path tr = ((tr ++ [shares_request path])%list, Ok None).
Proof.
  intros Hr Hs Hv. rewrite (resolve_grantees_unfold _ _ _ Hr).
  unfold on_shares. rewrite bind_traced_lift, Hs.
  destruct Hv as [-> | ->]; done.
Qed.
End EndToEnd.

(** ** Witnesses

    A service that holds one share of [cs3drive:notes.ipynb] for user [A]
    of identity provider [i1], and a directory that answers every user
    lookup with Alice's record; a second service rejects the second of
    two lookups. *)

Module Demo.
Definition path : string := "cs3drive:notes.ipynb".

Definition share (oid perm i : string) : js :=
  JObj [("grantee", JObj [("opaque_id", JStr oid); ("permissions", JStr perm); ("idp", JStr i)])].

Definition items : list js := [share "A" "viewer" "i1"].
Definition set : list entry := [mk_entry (JStr "A") (JStr "viewer") (JStr "i1")].
Definition body : js := JObj [("shares", JArr items)].

Definition alice : js :=
  JObj [("opaque_id", JStr "A"); ("idp", JStr "i1"); ("display_name", JStr "Alice")].

Definition respond_fn (shares_body : js) (tr : list request) (r : request) : reply :=
  if String.eqb (req_endpoint r) (shares_endpoint path) then Resolved shares_body
  else Resolved alice.

Definition backend : Backend := {| respond := respond_fn body |}.

Definition directory : @UserDirectory backend.
Proof. refine {| user_record := λ _, alice |}. intros tr oid i. reflexivity. Defined.

(** The second lookup is rejected. *)
Definition failing : Backend :=
  {| respond := λ tr r, if Nat.eqb (length tr) 2 then Failed (JStr "503") else Resolved alice |}.
End Demo.

(** The spec's example (section 8): one share of [A] at [i1] as viewer,
    [A] resolving to Alice, gives exactly the row of Alice. *)
Example resolve_grantees_alice :
  @resolve_grantees Demo.backend Demo.path [] =
    ([shares_request Demo.path; user_request (mk_entry (JStr "A") (JStr "viewer") (JStr "i1"))],
     Ok (Some [mk_grantee (mk_entry (JStr "A") (JStr "viewer") (JStr "i1")) (JStr "Alice")])).
Proof. vm_compute. reflexivity. Qed.

Lemma resolve_grantees_spec_witness :
  @resolve_grantees Demo.backend Demo.path [] =
    (([] ++ shares_request Demo.path :: map (@user_request) Demo.set)%list,
     Ok (Some (spec_rows (map (@record_of Demo.backend Demo.directory) Demo.set) Demo.set))).
Proof.
  apply (@resolve_grantees_spec Demo.backend Demo.directory _ _ Demo.body Demo.items);
    [reflexivity | reflexivity | reflexivity | apply (bool_decide_unpack _); vm_compute; reflexivity
    | apply (bool_decide_unpack _); vm_compute; reflexivity].
Defined.

Lemma resolve_grantees_no_shares_witness :
  @resolve_grantees {| respond := Demo.respond_fn (JObj []) |} Demo.path [] =
    (([] ++ [shares_request Demo.path])%list, Ok None).
Proof.
  apply (@resolve_grantees_no_shares {| respond := Demo.respond_fn (JObj []) |} _ _ (JObj []) JUndef);
    [reflexivity | reflexivity | left; reflexivity].
Defined.

Lemma lookup_users_resolved_witness :
  ∃ rs, @lookup_users Demo.backend (Demo.set ++ Demo.set) [] =
          (([] ++ map user_request (Demo.set ++ Demo.set))%list, Ok rs) ∧
        length rs = length (Demo.set ++ Demo.set).
Proof.
  apply (@lookup_users_resolved Demo.backend).
  intros [|[|i]] g Hg; try discriminate Hg; injection Hg as <-; eexists; reflexivity.
Defined.

Lemma lookup_users_fail_stop_witness :
  @lookup_users Demo.failing (Demo.set ++ Demo.set ++ Demo.set) [] =
    (([] ++ map user_request (take 3 (Demo.set ++ Demo.set ++ Demo.set)))%list,
     Err (Rejected (JStr "503"))).
Proof.
  apply (@lookup_users_fail_stop Demo.failing _ _ 2 (mk_entry (JStr "A") (JStr "viewer") (JStr "i1")));
    [reflexivity | | reflexivity].
  intros [|[|i]] g Hi Hg; [injection Hg as <- | injection Hg as <- | lia]; eexists; reflexivity.
Defined.

Lemma join_spec_witness :
  join [Demo.alice] Demo.set = Ok (spec_rows [Demo.alice] Demo.set).
Proof. apply join_spec. apply (bool_decide_unpack _). vm_compute. reflexivity. Defined.

Lemma join_nullish_throws_witness :
  ∃ msg, join [Demo.alice; JNull] Demo.set = Err (TypeError msg).
Proof.
  apply join_nullish_throws;
    apply (bool_decide_unpack _); vm_compute; reflexivity.
Defined.

(** Shares of [A] at two identity providers: the entry of [i2] is shown
    with the name looked up for [i1]. *)
Lemma join_elem_witness :
  mk_grantee (mk_entry (JStr "A") (JStr "editor") (JStr "i2")) (JStr "Alice")
    ∈ spec_rows [Demo.alice]
        [mk_entry (JStr "A") (JStr "viewer") (JStr "i1"); mk_entry (JStr "A") (JStr "editor") (JStr "i2")].
Proof.
  apply (join_elem [Demo.alice]
           [mk_entry (JStr "A") (JStr "viewer") (JStr "i1"); mk_entry (JStr "A") (JStr "editor") (JStr "i2")]);
    [reflexivity | apply (bool_decide_unpack _); vm_compute; reflexivity |].
  exists Demo.alice, (mk_entry (JStr "A") (JStr "editor") (JStr "i2")).
  split; [apply (bool_decide_unpack _); vm_compute; reflexivity|].
  split; [apply (bool_decide_unpack _); vm_compute; reflexivity|].
  split; reflexivity.
Defined.

(** Two shares of the same user give four rows. *)
Lemma join_length_witness :
  ∃ rows, join [Demo.alice; Demo.alice] (Demo.set ++ Demo.set) = Ok rows ∧ length rows = 4.
Proof.
  apply (join_length (Demo.set ++ Demo.set) [Demo.alice; Demo.alice]).
  apply (bool_decide_unpack _). vm_compute. reflexivity.
Defined.
