(* ===== verification/Await.v ===== *)
(** * [getGrantees] at the granularity of its awaits

    Resolver.v runs [getGrantees] (infobox.tsx lines 205-259) at once in
    the traced monad: every request is sent and answered before anything
    else happens.  In the browser the function stops at each [await] (and
    at the [then] of the shares request): a click, a keystroke or another
    load may run before the answer arrives.  Here the same code is a
    program of the free monad [prog] over requests: [Ret] a result, or
    [Await q k], which sends [q] and continues with [k] on its answer.
    [resolve_grantees_prog] is [resolve_grantees] written in it, line for
    line; [run_prog] runs a program at once against the [Backend], and
    [resolve_grantees_prog_run] shows that this gives [resolve_grantees]
    back.  [send] is one step of the interleaved run that Widgets.v uses:
    the program runs until its next [await], whose request goes out.
    [reaches] says where in the trace a program's requests went out and
    which answers it got. *)

From S2P Require Import Prelude JsString JsValue Backend Resolver.
From Stdlib Require String.

Open Scope string_scope.

(** ** Programs that await requests *)

Inductive prog (A : Type) : Type :=
| Ret (r : result exn A)
| Await (q : request) (k : reply → prog A).
Arguments Ret {A} r.
Arguments Await {A} q k.

Fixpoint prog_bind {A B} (p : prog A) (f : A → prog B) : prog B :=
  match p with
  | Ret (Ok a) => f a
  | Ret (Err e) => Ret (Err e)
  | Await q k => Await q (λ x, prog_bind (k x) f)
  end.

#[export] Instance prog_ret : MRet prog := λ A a, Ret (Ok a).
#[export] Instance prog_mbind : MBind prog := λ A B f p, prog_bind p f.

(** A thrown exception or a computed value, without awaiting. *)
Definition prog_lift {A} (r : result exn A) : prog A := Ret r.

(** [await requestAPI(endpoint, {method, body})]: a rejection is thrown. *)
Definition await_api (endpoint : string) (m : method) (body : option string) : prog js :=
  Await (mk_request endpoint m body)
        (λ rep, Ret (match rep with Resolved j => Ok j | Failed e => Err (Rejected e) end)).

(** ** [getGrantees], await by await *)

Definition getUsernames_prog (opaqueId idp : js) : prog js :=
  await_api (user_endpoint opaqueId idp) GET None.

Definition lookup_users_prog (set : list entry) : prog (list js) :=
  mapM (λ gr, getUsernames_prog (opaque_id gr) (idp gr)) set.

Definition on_shares_prog (granteesRequest : js) : prog (option (list grantee)) :=
  shares ← prog_lift (get_prop granteesRequest "shares");
  if negb (truthy shares) then mret None else
  set ← prog_lift (entries_of shares);
  if Nat.leb (List.length set) 0 then mret None else
  responses ← lookup_users_prog set;
  rows ← prog_lift (join responses set);
  mret (Some rows).

Definition resolve_grantees_prog (path : string) : prog (option (list grantee)) :=
  granteesRequest ← await_api (shares_endpoint path) GET None;
  on_shares_prog granteesRequest.

(** ** Running a program *)

(** A waiting load: the answer its request got, and what it does with it;
    or its result. *)
Inductive pstate (A : Type) : Type :=
| Waiting (ans : reply) (k : reply → prog A)
| Finished (r : result exn A).
Arguments Waiting {A} ans k.
Arguments Finished {A} r.

Section Run.
Context `{Backend}.

(** At once: each request is answered by the service given the requests
    sent before it. *)
Fixpoint run_prog {A} (p : prog A) : io A :=
  match p with
  | Ret r => lift r
  | Await q k => λ tr, run_prog (k (respond tr q)) (tr ++ [q])%list
  end.

(** Run up to the next [await]: its request goes out and the service
    answers it given the requests sent so far. *)
Definition send {A} (tr : list request) (p : prog A) : list request * pstate A :=
  match p with
  | Ret r => (tr, Finished r)
  | Await q k => ((tr ++ [q])%list, Waiting (respond tr q) k)
  end.
End Run.

(** Every request the program may still await satisfies [P]. *)
Fixpoint all_awaits {A} (P : request → Prop) (p : prog A) : Prop :=
  match p with
  | Ret _ => True
  | Await q k => P q ∧ ∀ a, all_awaits P (k a)
  end.

(** A user lookup of [getUsernames]. *)
Definition is_user_request (q : request) : Prop := ∃ gr, q = user_request gr.

Section Reaches.
Context `{Backend}.

(** [reaches tr m p ml p']: the first request of [p] went out at position
    [m] of the trace [tr], each later one at a later position, and each
    was answered by the service given the requests sent before it; [p']
    is where the program now waits, on the request sent at [ml].  The
    positions in between belong to other loads, clicks being free. *)
Inductive reaches {A} (tr : list request) : nat → prog A → nat → prog A → Prop :=
| reaches_last m q k :
    tr !! m = Some q → reaches tr m (Await q k) m (Await q k)
| reaches_next m q k m' ml p' :
    tr !! m = Some q → m < m' →
    reaches tr m' (k (respond (take m tr) q)) ml p' →
    reaches tr m (Await q k) ml p'.

(** The program, started at position [m], ended with [r]: the answer to
    its last request, sent at [ml], made it return. *)
Definition load_result {A} (tr : list request) (m : nat) (p : prog A) (r : result exn A) : Prop :=
  ∃ ml q k, reaches tr m p ml (Await q k) ∧ k (respond (take ml tr) q) = Ret r.
End Reaches.

(** ** Theorems *)

Lemma all_awaits_bind {A B} P (p : prog A) (f : A → prog B) :
  all_awaits P p → (∀ a, all_awaits P (f a)) → all_awaits P (p ≫= f).
Proof.
  intros Hp Hf. induction p as [r|q k IH]; simpl in *.
  - destruct r; [apply Hf|done].
  - destruct Hp as [Hq Hk]. split; [done|]. intros a. by apply IH.
Qed.

Lemma lookup_users_prog_users set : all_awaits is_user_request (lookup_users_prog set).
Proof.
  induction set as [|gr set IH]; [done|]. unfold lookup_users_prog. cbn [mapM].
  apply all_awaits_bind.
  - simpl. split; [by exists gr|]. by intros [].
  - intros x. apply all_awaits_bind; [exact IH|done].
Qed.

Lemma on_shares_prog_users body : all_awaits is_user_request (on_shares_prog body).
Proof.
  unfold on_shares_prog. apply all_awaits_bind; [done|]. intros shares.
  destruct (negb (truthy shares)); [done|]. apply all_awaits_bind; [done|]. intros set.
  destruct (Nat.leb _ _); [done|].
  apply all_awaits_bind; [apply lookup_users_prog_users|]. intros rs.
  by apply all_awaits_bind.
Qed.

(** The load sends the shares request first, then only user lookups. *)
Lemma resolve_grantees_prog_first path :
  ∃ k, resolve_grantees_prog path = Await (shares_request path) k ∧
       ∀ a, all_awaits is_user_request (k a).
Proof.
  eexists. split; [reflexivity|]. intros a.
  destruct a as [j|e]; cbn; [apply on_shares_prog_users|done].
Qed.

Section ReachesTheorems.
Context `{Backend}.

Lemma reaches_lookup {A} tr m (p : prog A) ml p' :
  reaches tr m p ml p' → ∃ q k, p' = Await q k ∧ tr !! ml = Some q ∧ (m ≤ ml)%nat.
Proof.
  induction 1 as [m q k Hq|m q k m' ml p' Hq Hm _ (q' & k' & -> & Hl & Hle)].
  - by exists q, k.
  - exists q', k'. split_and!; [done|done|lia].
Qed.

(** Later requests leave the positions of the earlier ones, and the
    answers they got, as they were. *)
Lemma reaches_app {A} tr ext m (p : prog A) ml p' :
  reaches tr m p ml p' → reaches (tr ++ ext) m p ml p'.
Proof.
  induction 1 as [m q k Hq|m q k m' ml p' Hq Hm _ IH].
  - constructor. by apply lookup_take_app.
  - destruct (lookup_take_app tr ext _ _ Hq) as [Hq' Ht].
    econstructor; [exact Hq'|exact Hm|]. by rewrite Ht.
Qed.

(** The answer to the last request runs the program to its next await,
    whose request goes out at a later position. *)
Lemma reaches_snoc {A} tr m (p : prog A) ml q k m' q' k' :
  reaches tr m p ml (Await q k) → ml < m' → tr !! m' = Some q' →
  k (respond (take ml tr) q) = Await q' k' → reaches tr m p m' (Await q' k').
Proof.
  remember (Await q k) as w eqn:Ew. intros Hr. revert Ew.
  induction Hr as [m q0 k0 Hq|m q0 k0 m0 ml p' Hq Hm _ IH]; intros Ew Hlt Hq' Ek.
  - injection Ew as -> ->. econstructor; [done|done|]. rewrite Ek. by constructor.
  - econstructor; [done|done|]. by apply IH.
Qed.
End ReachesTheorems.

Section RunTheorems.
Context `{Backend}.

Lemma run_prog_bind {A B} (p : prog A) (f : A → prog B) tr :
  run_prog (p ≫= f) tr =
    match run_prog p tr with
    | (tr', Ok a) => run_prog (f a) tr'
    | (tr', Err e) => (tr', Err e)
    end.
Proof.
  revert tr. induction p as [r|q k IH]; intros tr; [by destruct r|]. apply IH.
Qed.

Lemma run_prog_lift {A} (r : result exn A) tr : run_prog (prog_lift r) tr = (tr, r).
Proof. done. Qed.

Lemma run_await_api e m b tr : run_prog (await_api e m b) tr = requestAPI e m b tr.
Proof. unfold await_api, requestAPI. simpl. by destruct (respond tr _). Qed.

Lemma lookup_users_prog_run set tr : run_prog (lookup_users_prog set) tr = lookup_users set tr.
Proof.
  revert tr. induction set as [|gr set IH]; intros tr; [done|].
  rewrite lookup_users_cons. unfold lookup_users_prog. cbn [mapM].
  rewrite run_prog_bind. unfold getUsernames_prog. rewrite run_await_api. unfold requestAPI.
  destruct (respond tr _); [|done]. cbn [fst snd].
  rewrite run_prog_bind. fold (lookup_users_prog set). rewrite IH.
  by destruct (lookup_users set _) as [tr'' [|]].
Qed.

Lemma on_shares_prog_run body tr : run_prog (on_shares_prog body) tr = on_shares body tr.
Proof.
  unfold on_shares_prog, on_shares. rewrite run_prog_bind, run_prog_lift, bind_traced_lift.
  destruct (get_prop body "shares") as [shares|]; [|done].
  destruct (negb (truthy shares)); [done|].
  rewrite run_prog_bind, run_prog_lift, bind_traced_lift.
  destruct (entries_of shares) as [set|]; [|done].
  destruct (Nat.leb (length set) 0); [done|].
  rewrite run_prog_bind, lookup_users_prog_run. cbv [mbind traced_bind].
  destruct (lookup_users set tr) as [tr' [rs|e]]; [|done].
  by destruct (join rs set).
Qed.

(** [getGrantees] written await by await and run without any other
    event in between is the atomic [resolve_grantees] of Resolver.v: the
    same requests in the same order and the same result, so the
    theorems of Resolver.v describe each load of the interleaved
    model. *)
Lemma resolve_grantees_prog_run path tr :
  run_prog (resolve_grantees_prog path) tr = resolve_grantees path tr.
Proof.
  unfold resolve_grantees_prog, resolve_grantees. rewrite run_prog_bind, run_await_api.
  cbv [mbind traced_bind]. destruct (requestAPI _ _ _ tr) as [tr' [body|e]]; [|done].
  apply on_shares_prog_run.
Qed.
End RunTheorems.
