(* ===== verification/SharesView.v ===== *)
(** * The SHARES tab as a state machine

    [Shares] of infobox.tsx (lines 201-320) keeps two pieces of React
    state, [grantees] and [filteredGrantees] ([shares_state]).  Two
    things change them:
    - the filter box: [filterGrantees] (lines 272-289) keeps the
      grantees whose trimmed [displayName.toString()] matches
      [new RegExp(trimmed input, 'i')], or all of them when the trimmed
      input is empty ([filterGrantees] below);
    - the end of the mount effect (lines 248-249), which sets both lists
      to the joined rows ([apply_load]).
    [view] adds the text of the (uncontrolled) input element, and
    [handle] applies an event; a handler that throws changes no state.
    The list the tab renders (lines 301-317) is [render_rows].

    The regular expression engine is an interface here
    ([RegExpEngine]), with the one law the view's refinement theorem
    needs ([RegExpLiteral]): a pattern without syntax characters
    compiles and finds exactly the case-insensitive occurrences.
    RegexEngine.v implements it with the engine of [Regex.v]. *)

From S2P Require Import Prelude JsString JsValue Backend Resolver.
From Stdlib Require Import Ascii.
From Stdlib Require String.

Open Scope string_scope.

(** ** The interface of [RegExp] *)

Class RegExpEngine : Type := {
  regexp : Type;
  (** [new RegExp(pattern, flags)]: a SyntaxError for a bad pattern. *)
  new_RegExp : string → string → result exn regexp;
  (** [s.search(re)]: the first index of a match, or -1. *)
  search : regexp → string → Z
}.

Class RegExpLiteral `{RegExpEngine} : Prop := {
  literal_regexp : ∀ p, literal_pattern p = true →
    ∃ re, new_RegExp p "i" = Ok re ∧
          ∀ s, negb (Z.eqb (search re s) (-1)) = ci_contains p s
}.

(** ** State *)

Record shares_state : Type := mk_shares_state {
  grantees : list grantee;
  filteredGrantees : list grantee
}.

(** [useState([])] twice. *)
Definition initial_state : shares_state := mk_shares_state [] [].

Section Filter.
Context `{RegExpEngine}.

(** The callback of [grantees.filter] (lines 276-287). *)
Definition keep (value : string) (item : grantee) : result exn bool :=
if String.eqb (trim value) "" then Ok true else
name ← to_string_method (displayName item);
re ← new_RegExp (trim value) "i";
Ok (negb (Z.eqb (search re (trim name)) (-1))).

(** [filterGrantees(event)]: [setFilteredGrantees(grantees.filter(...))]. *)
Definition filterGrantees (value : string) (st : shares_state) : result exn shares_state :=
fl ← filter_result (keep value) (grantees st);
Ok (mk_shares_state (grantees st) fl).
End Filter.

(** [setGrantees(granteesArray); setFilteredGrantees(granteesArray)] when
    the mount effect reaches them; a [false] return or a rejection
    leaves the state. *)
Definition apply_load (outcome : result exn (option (list grantee))) (st : shares_state)
  : shares_state :=
  match outcome with
  | Ok (Some rows) => mk_shares_state rows rows
  | _ => st
  end.

(** The rows the tab renders: the owner ([displayName]) and the label
    ([permission]) of each filtered grantee. *)
Definition render_rows (st : shares_state) : list (js * js) :=
  map (λ g, (displayName g, permission (g_entry g))) (filteredGrantees st).

(** ** Events *)

Inductive event : Type :=
| Typed (value : string)
| Loaded (outcome : result exn (option (list grantee))).

Record view : Type := mk_view {
  vstate : shares_state;
  input : string
}.

Definition initial_view : view := mk_view initial_state "".

Section Events.
Context `{RegExpEngine}.

Definition handle (v : view) (e : event) : view :=
match e with
| Typed value =>
    mk_view (match filterGrantees value (vstate v) with
             | Ok st => st
             | Err _ => vstate v
             end) value
| Loaded o => mk_view (apply_load o (vstate v)) (input v)
end.

Definition run_events (v : view) (es : list event) : view := foldl handle v es.

(** What spec section 4.3 asks of the visible list: the grantees whose
  (trimmed) display name contains the trimmed filter text, ignoring
  case, or all of them for a blank filter. *)
Definition spec_filter (value : string) (l : list grantee) : list grantee :=
if String.eqb (trim value) "" then l
else List.filter (λ g, ci_contains (trim value) (trim (js_ToString (displayName g)))) l.

Definition consistent (v : view) : Prop :=
filteredGrantees (vstate v) = spec_filter (input v) (grantees (vstate v)).
End Events.

(** ** Theorems *)

Lemma filter_const_true {A} (l : list A) : List.filter (λ _, true) l = l.
Proof. induction l as [|x l IH]; simpl; [done|]. by rewrite IH. Qed.

Section FilterTheorems.
Context `{RegExpEngine}.

Lemma keep_blank value g : String.eqb (trim value) "" = true → keep value g = Ok true.
Proof. unfold keep. by intros ->. Qed.

Lemma keep_nullish value g :
String.eqb (trim value) "" = false → nullish (displayName g) = true →
∃ msg, keep value g = Err (TypeError msg).
Proof.
unfold keep. intros -> Hn. destruct (displayName g); try done; eexists; reflexivity.
Qed.

(** C9. A blank filter shows every grantee, whatever was filtered
  before, without reading any display name (so it never throws). *)
Theorem filterGrantees_blank value st :
all_space value = true →
filterGrantees value st = Ok (mk_shares_state (grantees st) (grantees st)).
Proof.
intros Hb%trim_empty. unfold filterGrantees.
rewrite (filter_result_total _ (λ _, true)).
- by rewrite filter_const_true.
- intros g _. apply keep_blank. by rewrite Hb.
Qed.
End FilterTheorems.

Section LiteralTheorems.
Context `{RegExpLiteral}.

Lemma keep_literal value g :
literal_pattern (trim value) = true → nullish (displayName g) = false →
keep value g = Ok (if String.eqb (trim value) "" then true
                   else ci_contains (trim value) (trim (js_ToString (displayName g)))).
Proof.
intros Hlit Hn. unfold keep. destruct (String.eqb (trim value) ""); [done|].
destruct (literal_regexp _ Hlit) as (re & Hre & Hs).
rewrite to_string_method_defined by done. simpl. rewrite Hre. simpl. by rewrite Hs.
Qed.

(** C10. With a filter text that has no regular-expression syntax and
  grantees whose names are defined, the handler computes exactly the
  spec's visible list: the case-insensitive substring filter. *)
Theorem filterGrantees_refines value st :
literal_pattern (trim value) = true →
Forall (λ g, nullish (displayName g) = false) (grantees st) →
filterGrantees value st = Ok (mk_shares_state (grantees st) (spec_filter value (grantees st))).
Proof.
intros Hlit Hn. unfold filterGrantees, spec_filter.
rewrite (filter_result_total _ (λ g, if String.eqb (trim value) "" then true
           else ci_contains (trim value) (trim (js_ToString (displayName g))))).
- simpl. f_equal. destruct (String.eqb (trim value) ""); [|done].
  by rewrite filter_const_true.
- intros g Hg. apply keep_literal; [done|]. by eapply Forall_forall in Hn; [|apply list_elem_of_In].
Qed.

(** C12. A grantee whose display name is [undefined] or [null] (a user
  record without [display_name]) makes every non-blank filter text
  without regular-expression syntax throw a TypeError, so the list no
  longer follows the filter box.  (A text that is not a valid pattern
  throws a SyntaxError at the first named grantee instead, C22.) *)
Theorem filterGrantees_undefined_name value v :
literal_pattern (trim value) = true → all_space value = false →
Exists (λ g, nullish (displayName g) = true) (grantees (vstate v)) →
(∃ msg, filterGrantees value (vstate v) = Err (TypeError msg)) ∧
vstate (handle v (Typed value)) = vstate v.
Proof.
intros Hlit Hsp Hex.
assert (String.eqb (trim value) "" = false) as Hne.
{ apply not_true_is_false. intros ?%String.eqb_eq%trim_empty. congruence. }
assert (∀ l, Exists (λ g, nullish (displayName g) = true) l →
          ∃ msg, filter_result (keep value) l = Err (TypeError msg)) as Hgen.
{ induction 1 as [g l Hg|g l _ IH]; simpl.
  - destruct (keep_nullish value g Hne Hg) as [msg ->]. by eexists.
  - destruct (nullish (displayName g)) eqn:Hn.
    + destruct (keep_nullish value g Hne Hn) as [msg ->]. by eexists.
    + rewrite (keep_literal value g Hlit Hn). destruct IH as [msg ->]. by eexists. }
destruct (Hgen _ Hex) as [msg Hf].
split; [exists msg | ]; unfold handle, filterGrantees; cbn [vstate]; rewrite Hf; done.
Qed.
End LiteralTheorems.

Section ViewTheorems.
Context `{RegExpEngine}.

Definition sublist_inv (v : view) : Prop :=
filteredGrantees (vstate v) `sublist_of` grantees (vstate v).

Lemma handle_sublist v e : sublist_inv v → sublist_inv (handle v e).
Proof.
unfold sublist_inv. intros Hv. destruct e as [value|o]; simpl.
- unfold filterGrantees. destruct (filter_result (keep value) (grantees (vstate v))) eqn:Hf;
    simpl; [by eapply filter_result_sublist|done].
- destruct o as [[rows|]|]; simpl; done.
Qed.

(** C11. Whatever events arrive, in whatever order, the rendered list is
  a sublist of the loaded grantees, in their order. *)
Theorem run_events_sublist es : sublist_inv (run_events initial_view es).
Proof.
unfold run_events. cut (∀ v, sublist_inv v → sublist_inv (foldl handle v es)).
{ intros Hc. apply Hc. constructor. }
induction es as [|e es IH]; intros v Hv; simpl; [done|]. by apply IH, handle_sublist.
Qed.

(** The end of the load sets [filteredGrantees] to all rows and
  ignores the text already typed: the view agrees with the filter box
  afterwards only if every row matches that text. *)
Theorem load_consistent v rows :
consistent (handle v (Loaded (Ok (Some rows)))) ↔ spec_filter (input v) rows = rows.
Proof. unfold consistent. simpl. split; intros Hh; by symmetry. Qed.
End ViewTheorems.

(** ** Rows for the examples *)

Module ViewDemo.
Definition row (name : js) (oid : string) : grantee :=
  mk_grantee (mk_entry (JStr oid) (JStr "viewer") (JStr "i1")) name.
Definition alice : grantee := row (JStr "Alice") "A".
Definition bob : grantee := row (JStr "Bob") "B".
Definition nameless : grantee := row JUndef "C".
Definition loaded : shares_state := mk_shares_state [alice; bob] [bob].
End ViewDemo.
