(* ===== verification/CreateShare.v ===== *)
(** * The share form and its request

    createShare.tsx: [ShareForm] (lines 36-136) keeps three pieces of
    React state, all JavaScript values ([form_state]): [userList] (the
    options of the user picker), [selectedUser] (the picker's selection)
    and [formValues] (the object posted).  Its operations:
    - the mount effect: [getUsers('')] then the numbered options
      ([load_users], [parse_users], lines 60-76);
    - the picker's [onChange] ([setValues], lines 56-58);
    - the role [<select>] ([setFormStateFromValues], lines 78-86), whose
      only options are [viewer] and [editor] ([role]);
    - the button: [localMakeRequest] (lines 88-96) copies the first
      selected user's [idp] and [grantee] into a copy of [formValues]
      and calls [makeRequest] (lines 153-164), which POSTs
      [JSON.stringify(params)] and shows [JSON.stringify(data)], or logs
      the error and shows nothing new.
    [CreateShare] (lines 143-170) adds [message] ([create_share]);
    [click] is the whole button press.  [form_event] and [run_form] are
    the sequences of user actions before a press. *)

From S2P Require Import Prelude JsString JsValue Json Backend.
From Stdlib Require Import Ascii.
From Stdlib Require String.

Open Scope string_scope.

(** ** State *)

Record form_state : Type := mk_form {
  userList : js;
  selectedUser : js;
  formValues : js
}.

(** The object [formValues] holds, for a role. *)
Definition form_object (path grantee idp role : js) : js :=
  JObj [("endpoint", JStr "/"); ("file_path", path); ("grantee", grantee);
        ("idp", idp); ("role", role); ("grantee_type", JStr "user")].

(** The three [useState] initial values (lines 39-54). *)
Definition initial_form (path : string) : form_state :=
  mk_form (JArr [JObj []])
          (JArr [JObj [("idp", JStr ""); ("grantee", JStr "")]])
          (form_object (JStr (resource_of path)) (JStr "") (JStr "") (JStr "viewer")).

Record create_share : Type := mk_create_share {
  form : form_state;
  message : js
}.

(** [useState(null)] of [CreateShare]. *)
Definition initial_create_share (path : string) : create_share :=
  mk_create_share (initial_form path) JNull.

(** ** Operations *)

(** The elements [for ... of] and the spread [[...v]] iterate over:
    those of an array, the characters of a string; anything else
    throws. *)
Definition iterate (v : js) : result exn (list js) :=
  match v with
  | JArr l => Ok l
  | JStr s => Ok (map (λ c, JStr (String.String c String.EmptyString)) (String.list_ascii_of_string s))
  | _ => throw (TypeError (js_ToString v ++ " is not iterable"))
  end.

(** One option of the picker, [id] numbering from [i]. *)
Definition parse_user (i : nat) (user : js) : result exn js :=
  n ← get_prop user "display_name";
  dn ← get_prop user "display_name";
  idp ← get_prop user "idp";
  g ← get_prop user "opaque_id";
  Ok (JObj [("id", JNum (Z.of_nat i)); ("name", n); ("displayName", dn); ("idp", idp); ("grantee", g)]).

Fixpoint parse_users_from (i : nat) (users : list js) : result exn (list js) :=
  match users with
  | [] => Ok []
  | u :: us =>
      p ← parse_user i u;
      rest ← parse_users_from (S i) us;
      Ok (p :: rest)
  end.

(** [let i = 1; for (const user of users) parsedUsers.push({...})] *)
Definition parse_users (users : js) : result exn js :=
  l ← iterate users;
  ps ← parse_users_from 1 l;
  Ok (JArr ps).

Section Operations.
Context `{Backend}.

(** [getUsers(query)] as [CreateShare] passes it (line 151). *)
Definition getUsers (query : string) : io js :=
requestAPI (query_endpoint query) GET None.

(** The mount effect of [ShareForm]: [setUserList(parsedUsers)]. *)
Definition load_users (st : form_state) : io form_state :=
users ← getUsers "";
ul ← lift (parse_users users);
mret (mk_form ul (selectedUser st) (formValues st)).
End Operations.

Definition setValues (selectValues : js) (st : form_state) : form_state :=
  mk_form (userList st) selectValues (formValues st).

(** [tmpFormState[param.target.name] = param.target.value] on a copy. *)
Definition setFormStateFromValues (name value : string) (st : form_state) : result exn form_state :=
  fv ← set_prop (formValues st) name (JStr value);
  Ok (mk_form (userList st) (selectedUser st) fv).

(** [const [user] = [...selectedUser]] and the two assignments. *)
Definition localMakeRequest (st : form_state) : result exn js :=
  l ← iterate (selectedUser st);
  let user := default JUndef (head l) in
  i ← get_prop user "idp";
  fv1 ← set_prop (formValues st) "idp" i;
  g ← get_prop user "grantee";
  set_prop fv1 "grantee" g.

(** What [JSON.stringify] returns, as a value: [undefined] or a string. *)
Definition stringify_value (v : js) : js :=
  match stringify v with Some s => JStr s | None => JUndef end.

Definition post_request (params : js) : request :=
  mk_request "/api/cs3/shares" POST (stringify params).

Section Request.
Context `{Backend}.

(** [makeRequest]: the new [message]; a failure is logged and leaves it. *)
Definition makeRequest (params : js) (msg : js) : io js :=
catch_traced
  (data ← requestAPI "/api/cs3/shares" POST (stringify params);
   mret (stringify_value data))
  (λ _, mret msg).

(** Pressing "Make request": an exception of [localMakeRequest] escapes
  the click handler before any request. *)
Definition click (cs : create_share) : io create_share :=
params ← lift (localMakeRequest (form cs));
msg ← makeRequest params (message cs);
mret (mk_create_share (form cs) msg).
End Request.

(** ** User actions before a press *)

Inductive role : Type := Viewer | Editor.

Definition role_value (r : role) : string :=
  match r with Viewer => "viewer" | Editor => "editor" end.

Inductive form_event : Type :=
| SelectUsers (values : js)
| SelectRole (r : role)
| UsersLoaded (users : js).

Definition handle_form (st : form_state) (e : form_event) : form_state :=
  match e with
  | SelectUsers values => setValues values st
  | SelectRole r =>
      match setFormStateFromValues "role" (role_value r) st with
      | Ok st' => st'
      | Err _ => st
      end
  | UsersLoaded users =>
      match parse_users users with
      | Ok ul => mk_form ul (selectedUser st) (formValues st)
      | Err _ => st
      end
  end.

Definition run_form (st : form_state) (es : list form_event) : form_state :=
  foldl handle_form st es.

(** ** Theorems *)

Definition form_inv (path : string) (st : form_state) : Prop :=
  ∃ r, formValues st = form_object (JStr (resource_of path)) (JStr "") (JStr "") (JStr (role_value r)).

Lemma handle_form_inv path st e : form_inv path st → form_inv path (handle_form st e).
Proof.
  intros [r Hr]. destruct e as [values|r'|users]; simpl.
  - by exists r.
  - exists r'. unfold setFormStateFromValues. rewrite Hr. reflexivity.
  - destruct (parse_users users); by exists r.
Qed.

(** C14. Whatever the user does before pressing the button, the posted
    object keeps its six keys in their order, the path of the file, an
    empty grantee and idp, [grantee_type] "user" (group sharing stays
    disabled) and a role that is "viewer" or "editor". *)
Theorem run_form_inv path es : form_inv path (run_form (initial_form path) es).
Proof.
  unfold run_form. cut (∀ st, form_inv path st → form_inv path (foldl handle_form st es)).
  { intros Hc. apply Hc. by exists Viewer. }
  induction es as [|e es IH]; intros st Hst; simpl; [done|]. by apply IH, handle_form_inv.
Qed.

(** The shape of an option of the picker: the object [parse_user]
    builds, its keys in that order, with a numeric [id]. *)
Definition option_keys : list string := ["id"; "name"; "displayName"; "idp"; "grantee"].

Definition is_user_option (p : js) : bool :=
  match p with
  | JObj (((_, JNum _) :: _) as kvs) => bool_decide (map fst kvs = option_keys)
  | _ => false
  end.

(** [userList] is the initial placeholder [[{}]] or an array of options. *)
Definition user_list_typed (ul : js) : Prop :=
  ul = JArr [JObj []] ∨ ∃ ps, ul = JArr ps ∧ Forall (λ p, is_user_option p = true) ps.

Lemma parse_user_typed i u p : parse_user i u = Ok p → is_user_option p = true.
Proof.
  unfold parse_user, mbind, result_bind. intros Hp.
  repeat (destruct (get_prop _ _) in Hp; [|discriminate]). simplify_eq. unfold is_user_option. apply bool_decide_eq_true_2. reflexivity.
Qed.

Lemma parse_users_typed users ul : parse_users users = Ok ul → user_list_typed ul.
Proof.
  unfold parse_users. destruct (iterate users) as [l|]; simpl; [|discriminate].
  intros Hl. right. cut (∀ i ps, parse_users_from i l = Ok ps → Forall (λ p, is_user_option p = true) ps).
  { intros Hc. destruct (parse_users_from 1 l) as [ps|] eqn:E; simplify_eq/=. eauto. }
  clear Hl. induction l as [|u us IH]; intros i ps; simpl; [intros; by simplify_eq|].
  destruct (parse_user i u) as [p|] eqn:Ep; simpl; [|discriminate].
  destruct (parse_users_from (S i) us) as [rest|] eqn:Er; simpl; [|discriminate].
  intros; simplify_eq. constructor; [by eapply parse_user_typed | by apply (IH (S i))].
Qed.

(** C27. Whatever the user does and whatever the user query returns,
    [userList] is either the initial placeholder [[{}]] or an array of
    options each of which has the keys [id], [name], [displayName],
    [idp], [grantee] in that order, with a numeric [id]: a failed parse
    never leaves a partial or non-array list. *)
Theorem run_form_userList_typed path es : user_list_typed (userList (run_form (initial_form path) es)).
Proof.
  unfold run_form. cut (∀ st, user_list_typed (userList st) → user_list_typed (userList (foldl handle_form st es))).
  { intros Hc. apply Hc. by left. }
  induction es as [|e es IH]; intros st Hst; simpl; [done|]. apply IH.
  destruct e as [values|r|users]; simpl; [done| |].
  - unfold setFormStateFromValues. by destruct (set_prop _ _ _).
  - destruct (parse_users users) eqn:E; [by eapply parse_users_typed|done].
Qed.

Lemma localMakeRequest_obj st kvs rest path g i r :
  formValues st = form_object path g i r →
  selectedUser st = JArr (JObj kvs :: rest) →
  localMakeRequest st =
    Ok (form_object path (field (JObj kvs) "grantee") (field (JObj kvs) "idp") r).
Proof. intros Hf Hs. unfold localMakeRequest. rewrite Hs, Hf. reflexivity. Qed.

(** The object posted for the picked user [JObj kvs]. *)
Definition params_of (path : string) (kvs : list (string * js)) (r : role) : js :=
  form_object (JStr (resource_of path)) (field (JObj kvs) "grantee")
              (field (JObj kvs) "idp") (JStr (role_value r)).

Section ClickTheorems.
Context `{Backend}.

Lemma makeRequest_resolved params m tr data :
respond tr (post_request params) = Resolved data →
makeRequest params m tr = ((tr ++ [post_request params])%list, Ok (stringify_value data)).
Proof.
intros Hr. unfold makeRequest, catch_traced, mbind, traced_bind.
by rewrite (requestAPI_resolved _ _ _ _ _ Hr).
Qed.

Lemma makeRequest_failed params m tr reason :
respond tr (post_request params) = Failed reason →
makeRequest params m tr = ((tr ++ [post_request params])%list, Ok m).
Proof.
intros Hr. unfold makeRequest, catch_traced, mbind, traced_bind.
by rewrite (requestAPI_failed _ _ _ _ _ Hr).
Qed.

(** C13. With a user picked, pressing the button sends exactly one
  request, a POST of the form's object with the picked user's [idp]
  and [grantee] to [/api/cs3/shares], and on success the panel shows
  [JSON.stringify] of the response. *)
Theorem click_posts cs tr kvs rest path r data :
formValues (form cs) = form_object (JStr (resource_of path)) (JStr "") (JStr "") (JStr (role_value r)) →
selectedUser (form cs) = JArr (JObj kvs :: rest) →
respond tr (post_request (params_of path kvs r)) = Resolved data →
click cs tr =
  ((tr ++ [post_request (params_of path kvs r)])%list,
   Ok (mk_create_share (form cs) (stringify_value data))).
Proof.
intros Hf Hs Hr. unfold click.
rewrite bind_traced_lift, (localMakeRequest_obj _ _ _ _ _ _ _ Hf Hs).
unfold mbind, traced_bind. by rewrite (makeRequest_resolved _ _ _ _ Hr).
Qed.

(** C15. A rejected POST is caught: nothing escapes the handler and the
  message stays what it was, so a previous success keeps showing (the
  spec expects the result to be unset). *)
Theorem click_post_rejected cs tr kvs rest path r reason :
formValues (form cs) = form_object (JStr (resource_of path)) (JStr "") (JStr "") (JStr (role_value r)) →
selectedUser (form cs) = JArr (JObj kvs :: rest) →
respond tr (post_request (params_of path kvs r)) = Failed reason →
click cs tr = ((tr ++ [post_request (params_of path kvs r)])%list, Ok cs).
Proof.
intros Hf Hs Hr. unfold click.
rewrite bind_traced_lift, (localMakeRequest_obj _ _ _ _ _ _ _ Hf Hs).
unfold mbind, traced_bind. rewrite (makeRequest_failed _ _ _ _ Hr). by destruct cs.
Qed.

(** C16. With the selection cleared, pressing the button throws a
  TypeError (reading [idp] of [undefined]) before any request. *)
Theorem click_no_selection cs tr :
selectedUser (form cs) = JArr [] →
∃ msg, click cs tr = (tr, Err (TypeError msg)).
Proof.
intros Hs. unfold click, localMakeRequest. rewrite Hs. eexists. reflexivity.
Qed.

Lemma click_trace cs tr params :
localMakeRequest (form cs) = Ok params →
fst (click cs tr) = (tr ++ [post_request params])%list.
Proof.
intros Hl. unfold click. rewrite bind_traced_lift, Hl. unfold mbind, traced_bind.
destruct (respond tr (post_request params)) as [data|reason] eqn:Hr.
- by rewrite (makeRequest_resolved _ _ _ _ Hr).
- by rewrite (makeRequest_failed _ _ _ _ Hr).
Qed.

Lemma run_form_selected st es :
(∀ e, e ∈ es → ∀ v, e ≠ SelectUsers v) →
selectedUser (run_form st es) = selectedUser st.
Proof.
unfold run_form. revert st. induction es as [|e es IH]; intros st Hes; [done|]. simpl.
rewrite IH by (intros e' He'; apply Hes; by right).
destruct e as [v|r|users]; simpl.
- by destruct (Hes _ (list_elem_of_here _ _) v).
- unfold setFormStateFromValues. destruct (set_prop (formValues st) "role" (JStr (role_value r)));
    done.
- by destruct (parse_users users).
Qed.

(** C17. Pressing the button before picking anyone posts an empty
  [grantee] and [idp]: the placeholder selection of [useState] is sent
  as if it were a user. *)
Theorem click_without_picking path es tr m :
(∀ e, e ∈ es → ∀ v, e ≠ SelectUsers v) →
∃ r, fst (click (mk_create_share (run_form (initial_form path) es) m) tr) =
     (tr ++ [post_request (form_object (JStr (resource_of path)) (JStr "") (JStr "") (JStr (role_value r)))])%list.
Proof.
intros Hes. destruct (run_form_inv path es) as [r Hr]. exists r.
apply click_trace. simpl.
rewrite (localMakeRequest_obj _ [("idp", JStr ""); ("grantee", JStr "")] [] _ _ _ _ Hr);
  [reflexivity|].
by rewrite run_form_selected.
Qed.
(** After a share is created, the panel shows a JSON text that
  [JSON.parse] reads back as the service's answer (spec section 6:
  echoed verbatim), up to the members JSON has no text for. *)
Theorem click_message_json cs tr kvs rest path r data :
formValues (form cs) = form_object (JStr (resource_of path)) (JStr "") (JStr "") (JStr (role_value r)) →
selectedUser (form cs) = JArr (JObj kvs :: rest) →
respond tr (post_request (params_of path kvs r)) = Resolved data →
json_wf data = true → data ≠ JUndef →
∃ t, snd (click cs tr) = Ok (mk_create_share (form cs) (JStr t)) ∧ json_parse t = Ok (json_normalize data).
Proof.
intros Hf Hs Hr Hwf Hdef.
destruct (stringify data) as [t|] eqn:Ht; [|by apply stringify_None in Ht].
exists t. split; [|by apply parse_stringify].
unfold click. rewrite bind_traced_lift, (localMakeRequest_obj _ _ _ _ _ _ _ Hf Hs).
unfold mbind, traced_bind. rewrite (makeRequest_resolved _ _ _ _ Hr).
unfold stringify_value. by rewrite Ht.
Qed.
End ClickTheorems.

(** C18. The picker's options are numbered 1, 2, ... in the order the
    query returned the users, each named by its [display_name]. *)
Theorem parse_users_ids users :
  Forall (λ u, nullish u = false) users →
  ∃ ps, parse_users (JArr users) = Ok (JArr ps) ∧
        map (λ p, field p "id") ps = map (λ i, JNum (Z.of_nat i)) (seq 1 (length users)) ∧
        map (λ p, field p "name") ps = map (λ u, field u "display_name") users.
Proof.
  intros Hnn. unfold parse_users. simpl.
  cut (∀ i, ∃ ps, parse_users_from i users = Ok ps ∧
        map (λ p, field p "id") ps = map (λ i, JNum (Z.of_nat i)) (seq i (length users)) ∧
        map (λ p, field p "name") ps = map (λ u, field u "display_name") users).
  { intros Hc. destruct (Hc 1) as (ps & -> & Hid & Hname). by exists ps. }
  induction Hnn as [|u us Hu _ IH]; intros i; [by exists []|].
  destruct (IH (S i)) as (ps & Hps & Hid & Hname).
  eexists. split; [| split].
  - simpl. unfold parse_user. rewrite !get_prop_not_nullish by done. simpl. by rewrite Hps.
  - simpl. f_equal. exact Hid.
  - simpl. f_equal. exact Hname.
Qed.

(** ** Witnesses *)

Module FormDemo.
Definition path : string := "cs3drive:notes.ipynb".
Definition alice : list (string * js) := [("idp", JStr "i1"); ("grantee", JStr "A")].
Definition form0 : form_state :=
  mk_form (JArr []) (JArr [JObj alice])
          (form_object (JStr (resource_of path)) (JStr "") (JStr "") (JStr "viewer")).
Definition cs0 : create_share := mk_create_share form0 JNull.
Definition answer (r : reply) : Backend := {| respond := λ _ _, r |}.
Definition id42 : js := JObj [("id", JStr "42")].
End FormDemo.

(** The spec's example: a response [{"id":"42"}] is shown as the text
    [{"id":"42"}]. *)
Lemma click_posts_witness :
  @click (FormDemo.answer (Resolved FormDemo.id42)) FormDemo.cs0 [] =
    ([post_request (params_of FormDemo.path FormDemo.alice Viewer)],
     Ok (mk_create_share FormDemo.form0
           (JStr ("{" ++ String.String dq ("id" ++ String.String dq (":" ++
                   String.String dq ("42" ++ String.String dq "}"))))))).
Proof.
  rewrite (@click_posts (FormDemo.answer (Resolved FormDemo.id42)) FormDemo.cs0 []
             FormDemo.alice [] FormDemo.path Viewer FormDemo.id42);
    reflexivity.
Defined.

Lemma click_post_rejected_witness :
  @click (FormDemo.answer (Failed (JStr "500"))) (mk_create_share FormDemo.form0 (JStr "earlier")) [] =
    ([post_request (params_of FormDemo.path FormDemo.alice Viewer)],
     Ok (mk_create_share FormDemo.form0 (JStr "earlier"))).
Proof.
  apply (@click_post_rejected (FormDemo.answer (Failed (JStr "500")))
           (mk_create_share FormDemo.form0 (JStr "earlier")) [] FormDemo.alice [] FormDemo.path Viewer
           (JStr "500")); reflexivity.
Defined.

Lemma click_no_selection_witness :
  ∃ msg, @click (FormDemo.answer (Resolved FormDemo.id42))
           (mk_create_share (setValues (JArr []) FormDemo.form0) JNull) [] = ([], Err (TypeError msg)).
Proof. apply (@click_no_selection (FormDemo.answer (Resolved FormDemo.id42))). reflexivity. Defined.

Lemma click_without_picking_witness :
  ∃ r, fst (@click (FormDemo.answer (Resolved FormDemo.id42))
              (mk_create_share (run_form (initial_form FormDemo.path) [SelectRole Editor]) JNull) []) =
       ([] ++ [post_request (form_object (JStr (resource_of FormDemo.path)) (JStr "") (JStr "")
                               (JStr (role_value r)))])%list.
Proof.
  apply (@click_without_picking (FormDemo.answer (Resolved FormDemo.id42))).
  intros e He v. apply list_elem_of_singleton in He as ->. discriminate.
Defined.

Lemma parse_users_ids_witness :
  ∃ ps, parse_users (JArr [JObj [("display_name", JStr "Alice")]; JObj [("display_name", JStr "Bob")]])
          = Ok (JArr ps) ∧
        map (λ p, field p "id") ps = map (λ i, JNum (Z.of_nat i)) (seq 1 2) ∧
        map (λ p, field p "name") ps =
          map (λ u, field u "display_name") [JObj [("display_name", JStr "Alice")]; JObj [("display_name", JStr "Bob")]].
Proof.
  apply parse_users_ids. apply (bool_decide_unpack _). vm_compute. reflexivity.
Defined.
