(* ===== verification/Submissions.v ===== *)
(** * Presses of the share button and their answers, interleaved

    [makeRequest] (createShare.tsx lines 153-164) is [async] and the
    button's [onClick] does not wait for it: a press sends its POST and
    returns, and the answer runs the rest of [makeRequest] whenever it
    arrives.  Nothing disables the button meanwhile, so several POSTs
    can be in flight, and their answers can arrive in any order.

    [submissions] is the state of the panel with the POSTs in flight
    ([in_flight], in the order sent) and all POSTs sent ([posted]);
    [submit_step] applies one event: a press, the answer to one request
    in flight, or an edit of the form.  [run_submissions_inv]: every
    request in flight was sent, in order; [stale_answer]: a second
    press is not blocked while the first is in flight, and the message
    ends up showing whichever answer arrives last, which may belong to
    the older press. *)

From S2P Require Import Prelude JsString JsValue Backend CreateShare.
From Stdlib Require String.

Open Scope string_scope.

Record submissions : Type := mk_submissions {
  sub_form : form_state;
  sub_message : js;
  in_flight : list js;     (** the [params] of the POSTs awaiting an answer *)
  posted : list request    (** every POST sent, in order *)
}.

Definition initial_submissions (path : string) : submissions :=
  mk_submissions (initial_form path) JNull [] [].

Inductive submit_event : Type :=
| Press
| Answer (k : nat) (r : reply)    (** the answer to the [k]-th request in flight *)
| Edit (e : form_event).

(** [localMakeRequest] and the first half of [makeRequest], up to the
    [await]: an exception escapes the handler and changes nothing. *)
Definition press (st : submissions) : submissions :=
  match localMakeRequest (sub_form st) with
  | Ok params =>
      mk_submissions (sub_form st) (sub_message st)
                     (in_flight st ++ [params]) (posted st ++ [post_request params])
  | Err _ => st
  end.

(** The rest of [makeRequest] once its answer arrives:
    [setMessage(JSON.stringify(data))], or the [catch] that only logs. *)
Definition answer (k : nat) (r : reply) (st : submissions) : submissions :=
  match in_flight st !! k with
  | None => st
  | Some _ =>
      mk_submissions (sub_form st)
                     (match r with Resolved data => stringify_value data | Failed _ => sub_message st end)
                     (delete k (in_flight st)) (posted st)
  end.

Definition submit_step (st : submissions) (e : submit_event) : submissions :=
  match e with
  | Press => press st
  | Answer k r => answer k r st
  | Edit e => mk_submissions (handle_form (sub_form st) e) (sub_message st) (in_flight st) (posted st)
  end.

Definition run_submissions (st : submissions) (es : list submit_event) : submissions :=
  foldl submit_step st es.

(** Every request in flight was sent, and they stay in the order sent. *)
Definition submissions_inv (st : submissions) : Prop :=
  (post_request <$> in_flight st) `sublist_of` posted st.

(** ** Theorems *)

Lemma submit_step_inv st e : submissions_inv st → submissions_inv (submit_step st e).
Proof.
  unfold submissions_inv. intros Hinv. destruct e as [|k r|e]; simpl; [| |done].
  - unfold press. destruct (localMakeRequest (sub_form st)); simpl; [|done].
    rewrite fmap_app. by apply sublist_app.
  - unfold answer. destruct (in_flight st !! k); simpl; [|done].
    etrans; [|apply Hinv]. apply (fmap_sublist post_request), sublist_delete.
Qed.

(** Over any interleaving of presses, answers and edits, the
    requests awaiting an answer were all sent, in the order sent: an
    answer is only ever applied for a POST that went out. *)
Theorem run_submissions_inv path es : submissions_inv (run_submissions (initial_submissions path) es).
Proof.
  unfold run_submissions. cut (∀ st, submissions_inv st → submissions_inv (foldl submit_step st es)).
  { intros Hc. apply Hc. constructor. }
  induction es as [|e es IH]; intros st Hst; simpl; [done|]. by apply IH, submit_step_inv.
Qed.

Module SubmitDemo.
Definition bob : list (string * js) := [("idp", JStr "i2"); ("grantee", JStr "B")].
Definition start : submissions := mk_submissions FormDemo.form0 JNull [] [].
Definition ok_alice : js := JObj [("share", JStr "alice")].
Definition ok_bob : js := JObj [("share", JStr "bob")].
End SubmitDemo.

(** C23. The button is not disabled while a POST is in flight, and the
    answers are applied in the order they arrive: from any state with
    nothing in flight, a press, any edit of the form, and a second press
    send two POSTs; when the second one's answer arrives first, the
    panel ends up showing the answer of the older press. *)
Theorem stale_answer st e p1 p2 d1 d2 :
  in_flight st = [] → localMakeRequest (sub_form st) = Ok p1 →
  localMakeRequest (handle_form (sub_form st) e) = Ok p2 →
  posted (run_submissions st [Press; Edit e; Press; Answer 1 (Resolved d2); Answer 0 (Resolved d1)]) =
    (posted st ++ [post_request p1; post_request p2])%list ∧
  sub_message (run_submissions st [Press; Edit e; Press; Answer 1 (Resolved d2); Answer 0 (Resolved d1)]) =
    stringify_value d1 ∧
  in_flight (run_submissions st [Press; Edit e; Press; Answer 1 (Resolved d2); Answer 0 (Resolved d1)]) = [].
Proof.
  intros Hf H1 H2. unfold run_submissions. simpl. unfold press. rewrite H1. simpl. rewrite H2.
  unfold answer. simpl. rewrite Hf. simpl. split_and!; [|done|done]. by rewrite <-app_assoc.
Qed.

Lemma stale_answer_witness :
  posted (run_submissions SubmitDemo.start
            [Press; Edit (SelectUsers (JArr [JObj SubmitDemo.bob])); Press;
             Answer 1 (Resolved SubmitDemo.ok_bob); Answer 0 (Resolved SubmitDemo.ok_alice)]) =
    (posted SubmitDemo.start ++ [post_request (params_of FormDemo.path FormDemo.alice Viewer);
                                 post_request (params_of FormDemo.path SubmitDemo.bob Viewer)])%list ∧
  sub_message (run_submissions SubmitDemo.start
            [Press; Edit (SelectUsers (JArr [JObj SubmitDemo.bob])); Press;
             Answer 1 (Resolved SubmitDemo.ok_bob); Answer 0 (Resolved SubmitDemo.ok_alice)]) =
    stringify_value SubmitDemo.ok_alice ∧
  in_flight (run_submissions SubmitDemo.start
            [Press; Edit (SelectUsers (JArr [JObj SubmitDemo.bob])); Press;
             Answer 1 (Resolved SubmitDemo.ok_bob); Answer 0 (Resolved SubmitDemo.ok_alice)]) = [].
Proof. apply stale_answer; reflexivity. Defined.
