(* ===== verification/FormView.v ===== *)
(** * What the share form renders

    createShare.tsx: [ShareForm] renders a [Select] of
    react-dropdown-select over [userList] (lines 103-110), which reads
    each option's value and label as [option[valueField]] and
    [option[labelField]], with [valueField="name"] and
    [labelField="displayName"] ([select_option], [picker_options]).
    [Results] (lines 21-27) renders [message] as the child of a [<pre>]:
    React renders [null], [undefined] and booleans as nothing, strings
    and numbers as their text, an array as its elements in turn, and
    throws on a plain object ([render_child], [results_text]).

    The theorems: both the value and the label of every option are the
    user's [display_name] ([picker_value_is_display_name]), so the
    numbered [id] of [parse_user] never reaches the picker; and the
    message is always [null], [undefined] or a string, so [Results]
    never throws, whatever presses and answers happen
    ([results_always_render]). *)

From S2P Require Import Prelude JsString JsValue Backend CreateShare Submissions.
From Stdlib Require String.

Open Scope string_scope.

(** [getByPath(item, field)] of react-dropdown-select, for a field name
    without dots. *)
Definition select_option (valueField labelField : string) (o : js) : js * js :=
  (field o valueField, field o labelField).

(** The [options] the picker shows: [valueField="name"],
    [labelField="displayName"]. *)
Definition picker_options (st : form_state) : list (js * js) :=
  match userList st with
  | JArr l => map (select_option "name" "displayName") l
  | _ => []
  end.

(** A JavaScript value as a React child: an array renders its elements
    one after the other; [None] when React throws ("Objects are not
    valid as a React child"). *)
Fixpoint render_child (v : js) : option string :=
  match v with
  | JUndef | JNull | JBool _ => Some ""
  | JStr s => Some s
  | JNum _ => Some (js_ToString v)
  | JArr l =>
      (fix render_children (l : list js) : option string :=
         match l with
         | [] => Some ""
         | c :: rest => s1 ← render_child c; s2 ← render_children rest; Some (s1 +:+ s2)
         end) l
  | JObj _ => None
  end.

(** [<pre>{props.message}</pre>] of [Results]. *)
Definition results_text (message : js) : option string := render_child message.

(** The values [message] can take: [useState(null)] and what
    [JSON.stringify] returns. *)
Definition message_shape (m : js) : Prop := m = JNull ∨ m = JUndef ∨ ∃ s, m = JStr s.

(** ** Theorems *)

Lemma parse_user_fields i u :
  nullish u = false →
  parse_user i u = Ok (JObj [("id", JNum (Z.of_nat i)); ("name", field u "display_name");
                             ("displayName", field u "display_name"); ("idp", field u "idp");
                             ("grantee", field u "opaque_id")]).
Proof. intros Hu. unfold parse_user. by rewrite !get_prop_not_nullish. Qed.

Lemma parse_users_from_fields users : ∀ i,
  Forall (λ u, nullish u = false) users →
  ∃ ps, parse_users_from i users = Ok ps ∧
        map (select_option "name" "displayName") ps =
          map (λ u, (field u "display_name", field u "display_name")) users.
Proof.
  induction users as [|u us IH]; intros i Hnn; [by exists []|].
  inversion Hnn as [|? ? Hu Hus]; subst.
  destruct (IH (S i) Hus) as (ps & Hps & Hmap).
  eexists. split.
  - simpl. rewrite parse_user_fields by done. simpl. by rewrite Hps.
  - simpl. f_equal. exact Hmap.
Qed.

Lemma stringify_value_shape v : message_shape (stringify_value v).
Proof. unfold stringify_value, message_shape. destruct (stringify v); naive_solver. Qed.

Lemma submit_step_shape st e : message_shape (sub_message st) → message_shape (sub_message (submit_step st e)).
Proof.
  intros Hm. destruct e as [|k r|e]; simpl; [|unfold answer|done].
  - unfold press. by destruct (localMakeRequest (sub_form st)).
  - destruct (in_flight st !! k); [|done]. destruct r; simpl; [apply stringify_value_shape|done].
Qed.

(** C28. Once the user query has loaded, the picker shows one option per
    user, in the order returned, and both the option's value
    ([valueField="name"]) and its label are the user's [display_name]:
    two users with the same display name give equal options, although
    [parse_user] numbers them with distinct ids. *)
Theorem picker_value_is_display_name users st :
  Forall (λ u, nullish u = false) users →
  ∃ ul, parse_users (JArr users) = Ok ul ∧
        picker_options (handle_form st (UsersLoaded (JArr users))) =
          map (λ u, (field u "display_name", field u "display_name")) users.
Proof.
  intros Hnn. destruct (parse_users_from_fields users 1 Hnn) as (ps & Hps & Hmap).
  exists (JArr ps). unfold parse_users. simpl. rewrite Hps. split; [done|].
  unfold handle_form, picker_options, parse_users. simpl. rewrite Hps. exact Hmap.
Qed.

(** C29. Whatever the presses, answers and form edits, the message is
    [null], [undefined] or a string, so [Results] always renders it (as
    nothing or as the text) and never throws. *)
Theorem results_always_render path es :
  message_shape (sub_message (run_submissions (initial_submissions path) es)) ∧
  ∃ t, results_text (sub_message (run_submissions (initial_submissions path) es)) = Some t.
Proof.
  assert (message_shape (sub_message (run_submissions (initial_submissions path) es))) as Hm.
  { unfold run_submissions. cut (∀ st, message_shape (sub_message st) →
                                  message_shape (sub_message (foldl submit_step st es))).
    { intros Hc. apply Hc. by left. }
    induction es as [|e es IH]; intros st Hst; simpl; [done|]. by apply IH, submit_step_shape. }
  split; [done|]. destruct Hm as [-> | [-> | [s ->]]]; eexists; reflexivity.
Qed.

Module PickerDemo.
(** Two users of different identity providers with one display name. *)
Definition homonyms : list js :=
  [JObj [("display_name", JStr "Alice"); ("idp", JStr "i1"); ("opaque_id", JStr "A")];
   JObj [("display_name", JStr "Alice"); ("idp", JStr "i2"); ("opaque_id", JStr "B")]].
End PickerDemo.

Lemma picker_value_is_display_name_witness :
  ∃ ul, parse_users (JArr PickerDemo.homonyms) = Ok ul ∧
        picker_options (handle_form (initial_form FormDemo.path) (UsersLoaded (JArr PickerDemo.homonyms))) =
          map (λ u, (field u "display_name", field u "display_name")) PickerDemo.homonyms.
Proof.
  apply picker_value_is_display_name. apply (bool_decide_unpack _). vm_compute. reflexivity.
Defined.
