(* ===== verification/Infobox.v ===== *)
(** * The file-information panel: tabs and the INFO table

    infobox.tsx: [Main] (lines 22-70) keeps [activeTab] and passes it to
    [Content] (lines 105-119), which shows [Shares] for ["shares"] and
    [Info] otherwise.  [Menu] (lines 72-103) keeps its own [activeTab]
    for the highlight, and its items call [setActiveTab] and the
    [tabHandler] ([switchTabs] of [Main]) with different names: ["info"]
    and ["info"], ["share"] and ["shares"]; LINKS has no handler
    ([panel], [click_menu]); [render_menu] is what [Menu] renders.
    [Header] (lines 121-130) is [header].  [Info] (lines 151-192) is the table
    [info_rows]; the dates go through [moment(Date.parse(.)).format('LLLL')],
    a library this development takes as a parameter [format_date]. *)

From S2P Require Import Prelude JsString JsValue.
From Stdlib Require Import Ascii.
From Stdlib Require String.

Open Scope string_scope.

(** ** Tabs *)

Record panel : Type := mk_panel {
  main_activeTab : string;   (** [Main]'s state *)
  menu_activeTab : string    (** [Menu]'s state *)
}.

(** Both start at ['info'] (lines 24 and 73). *)
Definition initial_panel : panel := mk_panel "info" "info".

(** [switchTabs(tabname)] of [Main]. *)
Definition switchTabs (tabname : string) (p : panel) : panel :=
  mk_panel tabname (menu_activeTab p).

Inductive menu_item : Type := ItemInfo | ItemShares | ItemLinks.

(** The [onClick] of each menu item. *)
Definition click_menu (p : panel) (i : menu_item) : panel :=
  match i with
  | ItemInfo => switchTabs "info" (mk_panel (main_activeTab p) "info")
  | ItemShares => switchTabs "shares" (mk_panel (main_activeTab p) "share")
  | ItemLinks => p
  end.

Inductive content : Type := InfoContent | SharesContent.

(** [Content]'s switch on [contentType]. *)
Definition content_of (contentType : string) : content :=
  if String.eqb contentType "shares" then SharesContent else InfoContent.

(** The [className] of a menu item: ["active"] when it is the highlighted
    one. *)
Definition item_class (p : panel) (i : menu_item) : string :=
  match i with
  | ItemInfo => if String.eqb (menu_activeTab p) "info" then "active" else ""
  | ItemShares => if String.eqb (menu_activeTab p) "share" then "active" else ""
  | ItemLinks => ""
  end.

Definition run_menu (p : panel) (clicks : list menu_item) : panel := foldl click_menu p clicks.

(** The rendered [Menu]: each [<li>] with its text, its [className] and
    the item its [onClick] is (LINKS has none). *)
Definition render_menu (p : panel) : list (string * string * option menu_item) :=
  [("INFO", item_class p ItemInfo, Some ItemInfo);
   ("SHARES", item_class p ItemShares, Some ItemShares);
   ("LINKS", "", None)].

(** The text of the menu item whose content is shown. *)
Definition content_label (c : content) : string :=
  match c with InfoContent => "INFO" | SharesContent => "SHARES" end.

(** ** The INFO table *)

Record file_info : Type := mk_file_info {
  fi_name : string;
  fi_path : string;
  mimetype : js;
  size : js;
  ftype : string;
  writable : bool;
  created : string;
  last_modified : string
}.

Section Info.
Variable format_date : string → string.

(** The rows of [Info]: a label and the text of its cell. *)
Definition info_rows (fi : file_info) : list (string * string) :=
(if truthy (mimetype fi) then [("Mimetype:", js_ToString (mimetype fi))] else []) ++
(if truthy (size fi) then [("Size:", js_ToString (size fi) ++ " Bytes")] else []) ++
[("Type:", ftype fi);
 ("Writable:", if writable fi then "Yes" else "No");
 ("Created:", format_date (created fi));
 ("Last Modified:", format_date (last_modified fi))].

(** [Header] (lines 121-130): the icon [findFileIcon] picks for the file
    (services.ts, a parameter here) and the file name. *)
Variable findFileIcon : file_info → string.

Definition header (fi : file_info) : string * string := (findFileIcon fi, fi_name fi).
End Info.

(** ** Theorems *)

(** The highlighted item and the shown content agree. *)
Definition tabs_agree (p : panel) : Prop :=
  (menu_activeTab p = "info" ∧ main_activeTab p = "info") ∨
  (menu_activeTab p = "share" ∧ main_activeTab p = "shares").

Lemma click_menu_agree p i : tabs_agree p → tabs_agree (click_menu p i).
Proof. destruct i; simpl; [left | right | done]; done. Qed.

Lemma run_menu_tabs_agree clicks : tabs_agree (run_menu initial_panel clicks).
Proof.
  unfold run_menu. cut (∀ p, tabs_agree p → tabs_agree (foldl click_menu p clicks)).
  { intros Hc. apply Hc. by left. }
  induction clicks as [|i clicks IH]; intros p Hp; simpl; [done|].
  by apply IH, click_menu_agree.
Qed.

(** C19. Whatever items are clicked, the highlighted menu item is the
    one whose content [Content] shows, although [Menu] and [Main] name
    the shares tab differently ("share" and "shares"). *)
Theorem run_menu_agree clicks :
  let p := run_menu initial_panel clicks in
  (item_class p ItemInfo = "active" ∧ item_class p ItemShares = "" ∧
   content_of (main_activeTab p) = InfoContent) ∨
  (item_class p ItemShares = "active" ∧ item_class p ItemInfo = "" ∧
   content_of (main_activeTab p) = SharesContent).
Proof.
  cbv zeta. pose proof (run_menu_tabs_agree clicks) as Hag.
  unfold item_class. destruct Hag as [[-> ->] | [-> ->]]; [left | right]; done.
Qed.

(** What [Menu] renders: whatever items are clicked, exactly one
    [<li>] has the class "active", and its text is the tab whose content
    is shown; LINKS is never highlighted. *)
Lemma render_menu_one_active clicks :
  let p := run_menu initial_panel clicks in
  map (λ it, it.1.1) (List.filter (λ it, String.eqb it.1.2 "active") (render_menu p)) =
    [content_label (content_of (main_activeTab p))].
Proof.
  cbv zeta. destruct (run_menu_tabs_agree clicks) as [[Hm Hc] | [Hm Hc]];
    unfold render_menu, item_class; rewrite Hm, Hc; reflexivity.
Qed.

Section InfoTheorems.
Variable format_date : string → string.

(** C20. The INFO table has a Size row exactly when [size] is truthy, so
  an empty (0-byte) file shows no size at all. *)
Theorem info_rows_size fi :
"Size:" ∈ map fst (info_rows format_date fi) ↔ truthy (size fi) = true.
Proof.
unfold info_rows. rewrite list_elem_of_In.
destruct (truthy (mimetype fi)), (truthy (size fi)); simpl;
  split; intros H; try done; intuition congruence.
Qed.
End InfoTheorems.

Lemma info_rows_size_witness :
  ¬ "Size:" ∈ map fst (info_rows (λ d, d)
                   (mk_file_info "empty.txt" "cs3drive:empty.txt" (JStr "text/plain") (JNum 0)
                                 "file" true "2020-01-01" "2020-01-02")).
Proof. rewrite info_rows_size. simpl. discriminate. Defined.
