(* ===== verification/Panel.v ===== *)
(** * The panel as a whole: tabs, [Content], and the lifetime of the SHARES state

    [Main] renders [Content] in the same place whatever the tab
    (infobox.tsx lines 57-69), and [Content] (lines 105-119) does not
    render [Shares] as a component: it calls [Shares({content})] as a
    function.  The two [useState]s and the [useEffect] of [Shares]
    (lines 202-205, 259) are therefore hooks of [Content].  React gives a
    component whose last render called no hook a fresh set of hooks (the
    mount dispatcher), and does not object to an update render that calls
    none, so:
    - opening SHARES mounts new hooks: empty lists, an empty filter box,
      and the mount effect starts a new load ([mount_shares]);
    - going back to INFO drops them ([render_content]);
    - a load started by an earlier visit completes into the queue of a
      hook that no longer exists: React drops it ([panel_step], [PLoad]).
    [content_state] is this: the tab states of Infobox.v, the hooks of
    [Content] as an optional [view] of SharesView.v, the number of the
    visit that owns them, and the loads in flight, each tagged with its
    visit.  [panel_step] applies a menu click, a keystroke in the filter
    box, or the end of a load. *)

From S2P Require Import Prelude JsString JsValue Resolver SharesView Infobox.
From stdpp Require Import sets.
From Stdlib Require String.

Open Scope string_scope.

Record content_state : Type := mk_content_state {
  cpanel : panel;           (** the [activeTab] states of [Main] and [Menu] *)
  hooks : option view;      (** the hooks of [Content], while SHARES is shown *)
  visit : nat;              (** the visit of SHARES that mounted them *)
  pending : list nat        (** the loads in flight, by the visit that started them *)
}.

(** The panel as it first renders: INFO, so [Content] has no hook. *)
Definition initial_content : content_state := mk_content_state initial_panel None 0 [].

Inductive panel_event : Type :=
| PClick (i : menu_item)
| PType (value : string)
| PLoad (g : nat) (outcome : result exn (option (list grantee))).

(** The render of [Content] after [Main]'s state changed: [Shares]
    mounts new hooks and starts its load when the last render had none,
    keeps them otherwise; [Info] calls no hook, and the hooks are gone. *)
Definition mount_shares (c : content_state) : content_state :=
  mk_content_state (cpanel c) (Some initial_view) (S (visit c)) (pending c ++ [S (visit c)]).

Definition render_content (c : content_state) : content_state :=
  match content_of (main_activeTab (cpanel c)), hooks c with
  | SharesContent, None => mount_shares c
  | SharesContent, Some _ => c
  | InfoContent, _ => mk_content_state (cpanel c) None (visit c) (pending c)
  end.

Section Step.
Context `{RegExpEngine}.

Definition panel_step (c : content_state) (e : panel_event) : content_state :=
  match e with
  | PClick i => render_content (mk_content_state (click_menu (cpanel c) i) (hooks c) (visit c) (pending c))
  | PType value =>
      match hooks c with
      | Some v => mk_content_state (cpanel c) (Some (handle v (Typed value))) (visit c) (pending c)
      | None => c
      end
  | PLoad g o =>
      let rest := List.remove Nat.eq_dec g (pending c) in
      match hooks c with
      | Some v => if Nat.eqb g (visit c)
                  then mk_content_state (cpanel c) (Some (handle v (Loaded o))) (visit c) rest
                  else mk_content_state (cpanel c) (hooks c) (visit c) rest
      | None => mk_content_state (cpanel c) None (visit c) rest
      end
  end.

Definition run_panel (c : content_state) (es : list panel_event) : content_state :=
  foldl panel_step c es.

(** The events of one visit, as the view of SharesView.v sees them: the
    keystrokes, and the loads of that visit. *)
Fixpoint visit_events (g : nat) (es : list panel_event) : list event :=
  match es with
  | [] => []
  | PType value :: es' => Typed value :: visit_events g es'
  | PLoad g' o :: es' => if Nat.eqb g' g then Loaded o :: visit_events g es' else visit_events g es'
  | PClick _ :: es' => visit_events g es'
  end.
End Step.

(** The event that ends a visit of SHARES. *)
Definition closes_shares (e : panel_event) : bool :=
  match e with PClick ItemInfo => true | _ => false end.

(** The hooks exist exactly while [Main] shows SHARES, the menu agrees
    with it, and no load in flight belongs to a visit still to come. *)
Definition content_inv (c : content_state) : Prop :=
  tabs_agree (cpanel c) ∧
  (is_Some (hooks c) ↔ content_of (main_activeTab (cpanel c)) = SharesContent) ∧
  Forall (λ g, g ≤ visit c)%nat (pending c).

#[export] Instance content_eq_dec : EqDecision content.
Proof. solve_decision. Defined.

#[export] Instance content_inv_dec c : Decision (content_inv c).
Proof. unfold content_inv, tabs_agree. apply _. Defined.
(** ** Theorems *)

Local Open Scope list_scope.

Lemma render_content_panel c : cpanel (render_content c) = cpanel c.
Proof. unfold render_content. by repeat case_match. Qed.

Lemma render_content_hooks c :
  is_Some (hooks (render_content c)) ↔ content_of (main_activeTab (cpanel c)) = SharesContent.
Proof. unfold render_content. repeat case_match; simpl; simplify_eq; naive_solver. Qed.

Lemma Forall_le_mono (l : list nat) n m :
  Forall (λ g, g ≤ n)%nat l → (n ≤ m)%nat → Forall (λ g, g ≤ m)%nat l.
Proof. intros Hl Hnm. induction Hl; constructor; [lia|done]. Qed.

Lemma render_content_pending c :
  Forall (λ g, g ≤ visit c)%nat (pending c) →
  Forall (λ g, g ≤ visit (render_content c))%nat (pending (render_content c)).
Proof.
  intros Hp. unfold render_content, mount_shares. repeat case_match; simpl; try done;
    rewrite ?Forall_app; try split; try (by constructor); eapply Forall_le_mono; [exact Hp | lia].
Qed.

Lemma remove_Forall (P : nat → Prop) g l : Forall P l → Forall P (List.remove Nat.eq_dec g l).
Proof.
  induction 1 as [|x l Hx _ IH]; simpl; [done|]. by destruct (Nat.eq_dec g x); [|constructor].
Qed.

Section StepTheorems.
Context `{RegExpEngine}.

Lemma panel_step_inv c e : content_inv c → content_inv (panel_step c e).
Proof.
  intros Hc. pose proof Hc as (Hag & Hh & Hp). unfold content_inv.
  destruct e as [i|value|g o]; simpl.
  - split_and!; rewrite ?render_content_panel.
    + by apply click_menu_agree.
    + apply render_content_hooks.
    + by apply render_content_pending.
  - destruct (hooks c) eqn:E; [|done]. split_and!; [done| |done].
    simpl. rewrite <- Hh. naive_solver.
  - destruct (hooks c) eqn:E; [destruct (Nat.eqb g (visit c))|];
      split_and!; simpl; try done; try (by apply remove_Forall); rewrite <- Hh, ?E; naive_solver.
Qed.

Lemma run_panel_inv_from c es : content_inv c → content_inv (run_panel c es).
Proof.
  revert c. induction es as [|e es IH]; intros c Hc; simpl; [done|]. by apply IH, panel_step_inv.
Qed.

Lemma panel_step_sublist c e :
  (∀ v, hooks c = Some v → sublist_inv v) →
  ∀ v, hooks (panel_step c e) = Some v → sublist_inv v.
Proof.
  intros Hc v'. destruct e; cbn [panel_step]; unfold render_content, mount_shares;
    repeat case_match; cbn [hooks cpanel visit pending] in *; intros; simplify_eq;
    first [by apply handle_sublist, Hc | by apply Hc | apply sublist_nil].
Qed.

Lemma closes_shares_false e : closes_shares e = false → e ≠ PClick ItemInfo.
Proof. by intros He ->. Qed.

(** Within a visit of SHARES, a click other than INFO leaves the hooks
    where they are. *)
Lemma click_keeps_hooks c v i :
  content_inv c → hooks c = Some v → i ≠ ItemInfo →
  hooks (panel_step c (PClick i)) = Some v ∧ visit (panel_step c (PClick i)) = visit c.
Proof.
  intros (_ & Hh & _) E Hi. rewrite E in Hh. assert (content_of (main_activeTab (cpanel c)) = SharesContent) as Hs
    by (apply Hh; by eexists).
  simpl. unfold render_content. destruct i; [done| |]; simpl; by rewrite ?Hs, E.
Qed.
End StepTheorems.

Lemma visit_events_cons g e es : visit_events g (e :: es) = (visit_events g [e] ++ visit_events g es)%list.
Proof. destruct e as [|?|g' ?]; simpl; [done|done|]. by destruct (Nat.eqb g' g). Qed.

Section VisitTheorems.
Context `{RegExpEngine}.

(** One event of a visit is the event of [visit_events] applied to the
    view. *)
Lemma step_within_visit c v e :
  content_inv c → hooks c = Some v → e ≠ PClick ItemInfo →
  hooks (panel_step c e) = Some (run_events v (visit_events (visit c) [e])) ∧
  visit (panel_step c e) = visit c.
Proof.
  intros Hc E He. destruct e as [i|value|g o].
  - apply click_keeps_hooks; [done|done|congruence].
  - simpl. by rewrite E.
  - simpl. rewrite E. by destruct (Nat.eqb g (visit c)).
Qed.

(** Closing SHARES and opening it again. *)
Lemma run_reopen c :
  let c' := run_panel c [PClick ItemInfo; PClick ItemShares] in
  hooks c' = Some initial_view ∧ visit c' = S (visit c) ∧
  pending c' = pending c ++ [S (visit c)] ∧ main_activeTab (cpanel c') = "shares".
Proof. done. Qed.

(** The load of the current visit reaches the view. *)
Lemma load_current c g o v :
  hooks c = Some v → visit c = g →
  hooks (panel_step c (PLoad g o)) = Some (handle v (Loaded o)) ∧ cpanel (panel_step c (PLoad g o)) = cpanel c.
Proof. intros E <-. simpl. by rewrite E, Nat.eqb_refl. Qed.

Lemma run_panel_app c es es' : run_panel c (es ++ es') = run_panel (run_panel c es) es'.
Proof. apply foldl_app. Qed.

Lemma run_panel_inv_sublist c es :
  content_inv c → (∀ v, hooks c = Some v → sublist_inv v) →
  content_inv (run_panel c es) ∧ ∀ v, hooks (run_panel c es) = Some v → sublist_inv v.
Proof.
  revert c. induction es as [|e es IH]; intros c Hc Hs; simpl; [done|].
  apply IH; [by apply panel_step_inv | by apply panel_step_sublist].
Qed.

(** Invariant of the composed panel: whatever the user clicks and
    types and whenever the loads complete, the hooks of [Content] exist
    exactly while [Main] shows SHARES, the highlighted item agrees with
    the content, every load in flight was started by this or an earlier
    visit, and the rendered list is a sublist of the loaded one. *)
Theorem run_panel_inv es :
  content_inv (run_panel initial_content es) ∧
  ∀ v, hooks (run_panel initial_content es) = Some v → sublist_inv v.
Proof.
  apply run_panel_inv_sublist; [|done].
  apply (bool_decide_unpack _). vm_compute. reflexivity.
Qed.

(** C24. Within one visit of SHARES (no click on INFO), the composed
    panel is the shares view of SharesView.v run on the keystrokes and
    on the loads this visit started: the loads of earlier visits are
    dropped, and the visit keeps its number. *)
Theorem visit_refines c v es :
  content_inv c → hooks c = Some v → existsb closes_shares es = false →
  hooks (run_panel c es) = Some (run_events v (visit_events (visit c) es)) ∧
  visit (run_panel c es) = visit c.
Proof.
  revert c v. induction es as [|e es IH]; intros c v Hc E Hn; [done|].
  simpl in Hn. apply orb_false_iff in Hn as [He Hn].
  destruct (step_within_visit c v e Hc E (closes_shares_false e He)) as [E' Hv].
  destruct (IH (panel_step c e) _ (panel_step_inv c e Hc) E' Hn) as [IH1 IH2].
  rewrite Hv in IH1, IH2.
  change (run_panel c (e :: es)) with (run_panel (panel_step c e) es).
  rewrite IH1, IH2, (visit_events_cons (visit c) e es). split; [|done].
  unfold run_events. by rewrite foldl_app.
Qed.

(** C26. Whatever happened before, the user can always get the current
    list: closing and reopening SHARES starts a load, and when it
    returns rows, the panel shows SHARES with every row, consistent with
    its empty filter box. *)
Theorem shares_recoverable es rows :
  ∃ es' g,
    es' = [PClick ItemInfo; PClick ItemShares] ∧
    g ∈ pending (run_panel initial_content (es ++ es')) ∧
    let c := run_panel initial_content (es ++ es' ++ [PLoad g (Ok (Some rows))]) in
    hooks c = Some (mk_view (mk_shares_state rows rows) "") ∧
    content_of (main_activeTab (cpanel c)) = SharesContent ∧
    consistent (mk_view (mk_shares_state rows rows) "").
Proof.
  set (c0 := run_panel initial_content es).
  destruct (run_reopen c0) as (Hh & Hv & Hp & Hm).
  exists [PClick ItemInfo; PClick ItemShares], (S (visit c0)). split; [done|].
  rewrite !run_panel_app. fold c0. rewrite Hp. split; [set_solver|].
  change (run_panel ?c [PLoad ?g ?o]) with (panel_step c (PLoad g o)).
  cbv zeta. destruct (load_current _ _ (Ok (Some rows)) _ Hh Hv) as [-> ->]. rewrite Hm.
  split_and!; [done|done|]. unfold consistent. reflexivity.
Qed.

End VisitTheorems.
