(* ===== verification/Widgets.v ===== *)
(** * The two JupyterLab widgets and the applications they render

    [InfoboxWidget] (infobox.tsx lines 135-147) and [ShareWidget]
    (createShare.tsx lines 175-187) are [ReactWidget]s: the constructor
    adds the CSS class ['jp-ReactWidget'] and keeps the file's
    [Contents.IModel] (a [file_info] of Infobox.v); [render] returns
    [<Main fileInfo/>] and [<CreateShare fileInfo/>].

    [infobox_app] is what an [InfoboxWidget] runs: the panel of Panel.v,
    the requests sent so far, and each load in flight, by the visit of
    SHARES that started it, as the program of Await.v waiting for the
    answer to its last request.  [app_step] is a click, a keystroke or
    the answer to the request a load awaits.  When a click mounts the
    hooks of [Shares] (a new visit, Panel.v), the mount effect starts
    [getGrantees] for the widget's file ([resolve_grantees_prog]): the
    shares request goes out.  Each answer runs the load to its next
    [await], whose request goes out, or to its end, where [setGrantees]
    reaches the panel as a [PLoad] of that visit.  The answers of
    different loads, clicks and keystrokes come in any order, so the
    lookups of two loads interleave as they do in the browser.

    A [ShareWidget] runs the share form of Submissions.v for its file
    ([ShareWidget_render]); the answer of its mount effect's user query
    is an [Edit (UsersLoaded users)] there.

    The theorems: one shares request per opening of SHARES
    ([shares_request_per_visit]); what the widget shows is a run of
    Panel.v in which each completed load is [getGrantees] for the
    widget's file, started by the shares request of its visit and fed
    the answers of its own requests in the trace ([load_of_visit],
    [run_app_refines]); every POST of a [ShareWidget] is a
    share of its own file ([share_widget_posts]). *)

From S2P Require Import Prelude JsString JsValue Backend Resolver Await SharesView Infobox Panel CreateShare Submissions.
From Stdlib Require String.

Open Scope string_scope.

(** ** The widgets *)

(** [this.addClass(name)]: [classList.add], which adds a class once. *)
Definition addClass (name : string) (classes : list string) : list string :=
  if bool_decide (name ∈ classes) then classes else classes ++ [name].

Record infobox_widget : Type := mk_infobox_widget {
  iw_classes : list string;
  iw_fileInfo : file_info     (** [private readonly fileInfo] *)
}.

Record share_widget : Type := mk_share_widget {
  sw_classes : list string;
  sw_fileInfo : file_info
}.

Section Widgets.
(** The classes the [ReactWidget] base constructor gives the node
    (lumino's, outside the repository). *)
Variable base_classes : list string.

Definition InfoboxWidget_new (fileInfo : file_info) : infobox_widget :=
  mk_infobox_widget (addClass "jp-ReactWidget" base_classes) fileInfo.

Definition ShareWidget_new (fileInfo : file_info) : share_widget :=
  mk_share_widget (addClass "jp-ReactWidget" base_classes) fileInfo.
End Widgets.

(** ** What [InfoboxWidget] runs *)

(** A load in flight: the answer its request will get, and the rest of
    [getGrantees] after it. *)
Definition load_state : Type := reply * (reply → prog (option (list grantee))).

Record infobox_app : Type := mk_infobox_app {
  app_file : file_info;                             (** [props.fileInfo] of [Main] *)
  app_content : content_state;
  app_trace : list request;
  app_loads : list (nat * load_state)               (** by visit *)
}.

(** [render() { return <Main fileInfo={this.fileInfo}/> }], with [Main]'s
    constructor: [this.state] starts at INFO, and the [setState] it
    calls before the component is mounted is ignored by React. *)
Definition InfoboxWidget_render (w : infobox_widget) : infobox_app :=
  mk_infobox_app (iw_fileInfo w) initial_content [] [].

(** The load of visit [g], while it is in flight. *)
Definition load_of (g : nat) (loads : list (nat * load_state)) : option load_state :=
  snd <$> List.find (λ l, Nat.eqb l.1 g) loads.

(** The load of visit [g] now waits on another request. *)
Definition update_load (g : nat) (w : load_state) (loads : list (nat * load_state)) : list (nat * load_state) :=
  map (λ l, if Nat.eqb l.1 g then (g, w) else l) loads.

Inductive app_event : Type :=
| AClick (i : menu_item)
| AType (value : string)
| AAnswer (g : nat).     (** the request the load of visit [g] awaits is answered *)

Section App.
Context `{Backend} `{RegExpEngine}.

Definition app_step (a : infobox_app) (e : app_event) : infobox_app :=
  match e with
  | AClick i =>
      let c' := panel_step (app_content a) (PClick i) in
      if Nat.eqb (visit c') (visit (app_content a))
      then mk_infobox_app (app_file a) c' (app_trace a) (app_loads a)
      else match send (app_trace a) (resolve_grantees_prog (fi_path (app_file a))) with
           | (tr', Waiting ans k) => mk_infobox_app (app_file a) c' tr' (app_loads a ++ [(visit c', (ans, k))])
           | (tr', Finished o) => mk_infobox_app (app_file a) (panel_step c' (PLoad (visit c') o)) tr' (app_loads a)
           end
  | AType value => mk_infobox_app (app_file a) (panel_step (app_content a) (PType value))
                                  (app_trace a) (app_loads a)
  | AAnswer g =>
      match load_of g (app_loads a) with
      | Some (ans, k) =>
          match send (app_trace a) (k ans) with
          | (tr', Waiting ans' k') => mk_infobox_app (app_file a) (app_content a) tr' (update_load g (ans', k') (app_loads a))
          | (tr', Finished o) => mk_infobox_app (app_file a) (panel_step (app_content a) (PLoad g o)) tr'
                                   (List.filter (λ l, negb (Nat.eqb l.1 g)) (app_loads a))
          end
      | None => a
      end
  end.

Definition run_app (a : infobox_app) (es : list app_event) : infobox_app := foldl app_step a es.
End App.

(** ** What [ShareWidget] runs *)

(** [render() { return <CreateShare fileInfo={this.fileInfo}/> }]: the
    form of [ShareForm] for the widget's file, nothing posted yet.  The
    mount effect's user query ends as an [Edit (UsersLoaded users)] of
    Submissions.v, whenever it arrives. *)
Definition ShareWidget_render (w : share_widget) : submissions :=
  initial_submissions (fi_path (sw_fileInfo w)).

(** ** Counting the shares requests *)

Definition is_shares_request (path : string) (r : request) : bool :=
  String.eqb (req_endpoint r) (shares_endpoint path).

Definition shares_requests (path : string) (tr : list request) : nat :=
  length (List.filter (is_shares_request path) tr).

Section Loads.
Context `{Backend}.

(** The load of visit [g] started with the [g]-th shares request of the
    file, sent at position [m] of the trace. *)
Definition started_at (path : string) (tr : list request) (g m : nat) : Prop :=
  tr !! m = Some (shares_request path) ∧ S (shares_requests path (take m tr)) = g.

(** The load of visit [g], waiting on the answer [ans] before it goes on
    with [k]: [getGrantees] for the file, started by the shares request
    of its visit, its requests sent and answered along the trace. *)
Definition load_waiting (path : string) (tr : list request) (g : nat) (ans : reply)
    (k : reply → prog (option (list grantee))) : Prop :=
  ∃ m ml q, started_at path tr g m ∧
            reaches tr m (resolve_grantees_prog path) ml (Await q k) ∧
            ans = respond (take ml tr) q.

(** A load of visit [g] that ended with [o]: [getGrantees] for the file,
    run from the [g]-th shares request with the answers its requests got
    in the trace. *)
Definition load_of_visit (path : string) (tr : list request) (g : nat)
    (o : result exn (option (list grantee))) : Prop :=
  ∃ m, started_at path tr g m ∧ load_result tr m (resolve_grantees_prog path) o.

(** Each load in flight is waiting as above, and what it may still
    await are user lookups. *)
Definition loads_from_code (path : string) (a : infobox_app) : Prop :=
  ∀ g ans k, load_of g (app_loads a) = Some (ans, k) →
    load_waiting path (app_trace a) g ans k ∧ ∀ x, all_awaits is_user_request (k x).

(** The loads in flight are those of the panel, each is [getGrantees] for
    the widget's file, and the trace holds one shares request per
    opening of SHARES. *)
Definition app_inv (a : infobox_app) : Prop :=
  content_inv (app_content a) ∧
  map fst (app_loads a) = pending (app_content a) ∧
  loads_from_code (fi_path (app_file a)) a ∧
  shares_requests (fi_path (app_file a)) (app_trace a) = visit (app_content a).
End Loads.

(** ** Theorems *)

Local Open Scope list_scope.

(** *** The requests of one load *)

Lemma user_not_shares q path : is_user_request q → is_shares_request path q = false.
Proof.
  intros [gr ->]. unfold is_shares_request.
  destruct (String.eqb_spec (req_endpoint (user_request gr)) (shares_endpoint path)) as [E|]; [|done].
  apply (f_equal (String.get 9)) in E. vm_compute in E. discriminate.
Qed.

Lemma shares_requests_snoc path tr q :
  shares_requests path (tr ++ [q]) = shares_requests path tr + (if is_shares_request path q then 1 else 0).
Proof.
  unfold shares_requests. rewrite List.filter_app, length_app. cbn [List.filter].
  by destruct (is_shares_request path q).
Qed.

Section Send.
Context `{Backend}.

(** The mount sends the shares request and waits on its answer. *)
Lemma send_resolve path tr :
  ∃ k, resolve_grantees_prog path = Await (shares_request path) k ∧
       send tr (resolve_grantees_prog path) =
         ((tr ++ [shares_request path])%list, Waiting (respond tr (shares_request path)) k) ∧
       ∀ x, all_awaits is_user_request (k x).
Proof.
  destruct (resolve_grantees_prog_first path) as (k & E & Hk). exists k. by rewrite E.
Qed.

(** After its first answer, a load sends at most one more request at
    each answer, a user lookup. *)
Lemma send_users {A} path tr (p : prog A) :
  all_awaits is_user_request p →
  match send tr p with
  | (tr', Waiting _ k) => shares_requests path tr' = shares_requests path tr ∧
                          ∀ x, all_awaits is_user_request (k x)
  | (tr', Finished _) => tr' = tr
  end.
Proof.
  destruct p as [r|q k]; simpl; [done|]. intros [Hq Hk].
  rewrite shares_requests_snoc, user_not_shares by done. split; [lia|done].
Qed.
Lemma send_waiting {A} tr (p : prog A) tr' ans k :
  send tr p = (tr', Waiting ans k) → ∃ q, p = Await q k ∧ tr' = tr ++ [q] ∧ ans = respond tr q.
Proof. destruct p as [r|q k0]; simpl; [done|]. intros [= <- <- <-]. by exists q. Qed.

Lemma send_trace {A} tr (p : prog A) tr' s : send tr p = (tr', s) → ∃ ext, tr' = tr ++ ext.
Proof. destruct p; simpl; intros [= <- _]; [exists []; by rewrite app_nil_r|by eexists]. Qed.

Lemma send_finished {A} tr (p : prog A) tr' o :
  send tr p = (tr', Finished o) → p = Ret o ∧ tr' = tr.
Proof. destruct p; simpl; [|done]. by intros [= <- <-]. Qed.
End Send.

(** *** Loads along a growing trace *)

Section TraceGrowth.
Context `{Backend}.

Lemma started_at_app path tr ext g m :
  started_at path tr g m → started_at path (tr ++ ext) g m.
Proof.
  intros [Hq Hg]. destruct (lookup_take_app tr ext _ _ Hq) as [Hq' Ht]. split; [done|]. by rewrite Ht.
Qed.

Lemma load_waiting_app path tr ext g ans k :
  load_waiting path tr g ans k → load_waiting path (tr ++ ext) g ans k.
Proof.
  intros (m & ml & q & Hs & Hr & ->).
  destruct (reaches_lookup _ _ _ _ _ Hr) as (? & ? & [= <- <-] & Hq & _).
  exists m, ml, q. split_and!; [by apply started_at_app|by apply reaches_app|].
  by rewrite (proj2 (lookup_take_app tr ext _ _ Hq)).
Qed.

Lemma load_of_visit_app path tr ext g o :
  load_of_visit path tr g o → load_of_visit path (tr ++ ext) g o.
Proof.
  intros (m & Hs & ml & q & k & Hr & Hk).
  destruct (reaches_lookup _ _ _ _ _ Hr) as (? & ? & [= <- <-] & Hq & _).
  exists m. split; [by apply started_at_app|]. exists ml, q, k. split; [by apply reaches_app|].
  by rewrite (proj2 (lookup_take_app tr ext _ _ Hq)).
Qed.

(** The mount of visit [S n], the [n] shares requests before it: its
    load waits on the answer to the shares request it sends. *)
Lemma load_waiting_mount path tr k :
  resolve_grantees_prog path = Await (shares_request path) k →
  load_waiting path (tr ++ [shares_request path]) (S (shares_requests path tr))
               (respond tr (shares_request path)) k.
Proof.
  intros Ep. exists (length tr), (length tr), (shares_request path).
  rewrite take_app_length, Ep. split_and!; [|by constructor; apply list_lookup_middle|done].
  split; [by apply list_lookup_middle|by rewrite take_app_length].
Qed.

(** An answer that runs the load to its next await: the request of that
    await goes out at the end of the trace. *)
Lemma load_waiting_next path tr g ans k q' k' :
  load_waiting path tr g ans k → k ans = Await q' k' →
  load_waiting path (tr ++ [q']) g (respond tr q') k'.
Proof.
  intros (m & ml & q & Hs & Hr & ->) Ek.
  destruct (reaches_lookup _ _ _ _ _ Hr) as (? & ? & [= <- <-] & Hq & _).
  destruct (lookup_take_app tr [q'] _ _ Hq) as [_ Ht].
  exists m, (length tr), q'. split_and!; [by apply started_at_app| |by rewrite take_app_length].
  eapply reaches_snoc; [by apply reaches_app| |by apply list_lookup_middle|by rewrite Ht].
  apply lookup_lt_Some in Hq. lia.
Qed.

(** An answer that ends the load: its result is a load of its visit. *)
Lemma load_waiting_done path tr g ans k o :
  load_waiting path tr g ans k → k ans = Ret o → load_of_visit path tr g o.
Proof.
  intros (m & ml & q & Hs & Hr & ->) Ek. exists m. split; [done|]. by exists ml, q, k.
Qed.
End TraceGrowth.

(** *** The panel steps the application takes *)

Section PanelShape.
Context `{RegExpEngine}.

(** A click keeps the visit, or mounts a new one and starts its load. *)
Lemma click_visit c i :
  (visit (panel_step c (PClick i)) = visit c ∧ pending (panel_step c (PClick i)) = pending c) ∨
  (visit (panel_step c (PClick i)) = S (visit c) ∧
   pending (panel_step c (PClick i)) = pending c ++ [S (visit c)]).
Proof. simpl. unfold render_content, mount_shares. repeat case_match; simpl; auto. Qed.

Lemma type_visit c v :
  visit (panel_step c (PType v)) = visit c ∧ pending (panel_step c (PType v)) = pending c.
Proof. simpl. by destruct (hooks c). Qed.

Lemma load_visit c g o :
  visit (panel_step c (PLoad g o)) = visit c ∧
  pending (panel_step c (PLoad g o)) = List.remove Nat.eq_dec g (pending c).
Proof. simpl. destruct (hooks c); [case_match|]; done. Qed.
End PanelShape.

Section LoadsTable.
Context {A : Type}.
Implicit Types l : list (nat * A).

Lemma load_find_app g l g' o o' :
  snd <$> List.find (λ x, Nat.eqb x.1 g) (l ++ [(g', o)]) = Some o' →
  snd <$> List.find (λ x, Nat.eqb x.1 g) l = Some o' ∨ (g = g' ∧ o' = o).
Proof.
  induction l as [|[k v] l IH]; simpl.
  - destruct (Nat.eqb_spec g' g); simpl; intros; simplify_eq; auto.
  - destruct (Nat.eqb_spec k g); simpl; auto.
Qed.

Lemma load_find_filter g g' l o :
  snd <$> List.find (λ x, Nat.eqb x.1 g') (List.filter (λ x, negb (Nat.eqb x.1 g)) l) = Some o →
  snd <$> List.find (λ x, Nat.eqb x.1 g') l = Some o.
Proof.
  induction l as [|[k v] l IH]; simpl; [done|].
  destruct (Nat.eqb_spec k g) as [->|Hk]; simpl.
  - destruct (Nat.eqb_spec g g') as [->|Hg]; simpl; [|done].
    intros Hf. exfalso. clear IH. induction l as [|[k' v'] l IH]; simpl in Hf; [done|].
    destruct (Nat.eqb k' g') eqn:E; simpl in Hf; [by apply IH|]. rewrite E in Hf. by apply IH.
  - destruct (Nat.eqb_spec k g'); simpl; auto.
Qed.

Lemma map_fst_filter g l :
  map fst (List.filter (λ x, negb (Nat.eqb x.1 g)) l) = List.remove Nat.eq_dec g (map fst l).
Proof.
  induction l as [|[k v] l IH]; simpl; [done|].
  destruct (Nat.eq_dec g k), (Nat.eqb_spec k g); subst; simpl; try congruence; by rewrite IH.
Qed.
Lemma map_fst_update g (w : A) l :
  map fst (map (λ x, if Nat.eqb x.1 g then (g, w) else x) l) = map fst l.
Proof.
  induction l as [|[k v] l IH]; simpl; [done|]. destruct (Nat.eqb_spec k g); subst; simpl; by rewrite IH.
Qed.

Lemma load_find_update g g' (w : A) l o :
  snd <$> List.find (λ x, Nat.eqb x.1 g') (map (λ x, if Nat.eqb x.1 g then (g, w) else x) l) = Some o →
  (g' = g ∧ o = w) ∨ snd <$> List.find (λ x, Nat.eqb x.1 g') l = Some o.
Proof.
  induction l as [|[k v] l IH]; simpl; [done|].
  destruct (Nat.eqb_spec k g) as [->|Hk]; simpl.
  - destruct (Nat.eqb_spec g g') as [->|]; simpl; [intros [= ->]; by left|done].
  - destruct (Nat.eqb_spec k g'); simpl; auto.
Qed.
End LoadsTable.

(** *** The application's invariant *)

Section AppTheorems.
Context `{Backend} `{RegExpEngine}.

Lemma app_step_file a e : app_file (app_step a e) = app_file a.
Proof. destruct e; unfold app_step; repeat case_match; done. Qed.

Lemma app_step_inv a e : app_inv a → app_inv (app_step a e).
Proof.
  intros (Hc & Hp & Hl & Hn). unfold app_inv, loads_from_code in *.
  destruct e as [i|value|g].
  - unfold app_step. cbv zeta. destruct (click_visit (app_content a) i) as [[Hv Hpe]|[Hv Hpe]].
    + rewrite Hv, Nat.eqb_refl. cbn [app_content app_loads app_trace app_file].
      split_and!; [by apply panel_step_inv|by rewrite Hpe|done|by rewrite Hv].
    + rewrite Hv. replace (Nat.eqb (S _) _) with false by (symmetry; apply Nat.eqb_neq; lia).
      destruct (send_resolve (fi_path (app_file a)) (app_trace a)) as (k & Ep & -> & Hk).
      cbn [app_content app_loads app_trace app_file]. split_and!.
      * by apply panel_step_inv.
      * by rewrite map_app, Hp, Hpe.
      * intros g ans k' Hg. unfold load_of in Hg. apply load_find_app in Hg as [Hg|[-> [= -> ->]]].
        -- destruct (Hl g ans k' Hg) as [Hw Hk']. split; [by apply load_waiting_app|done].
        -- split; [|done]. rewrite <-Hn. by apply load_waiting_mount.
      * rewrite shares_requests_snoc, Hn. unfold is_shares_request. rewrite String.eqb_refl. lia.
  - unfold app_step. cbn [app_content app_loads app_trace app_file].
    destruct (type_visit (app_content a) value) as [Hv Hpe].
    split_and!; [by apply panel_step_inv|by rewrite Hpe|done|by rewrite Hv].
  - unfold app_step. destruct (load_of g (app_loads a)) as [[ans k]|] eqn:Eo; [|by split_and!].
    destruct (Hl g ans k Eo) as [Hw Hk].
    pose proof (send_users (fi_path (app_file a)) (app_trace a) (k ans) (Hk ans)) as Hs.
    destruct (send (app_trace a) (k ans)) as [tr' [ans' k'|o]] eqn:Es.
    + destruct Hs as [Hs Hk']. destruct (send_waiting _ _ _ _ _ Es) as (q' & Eq' & Etr & Eans). subst tr' ans'.
      cbn [app_content app_loads app_trace app_file]. split_and!.
      * done.
      * unfold update_load. by rewrite map_fst_update.
      * intros g' ans2 k2 Hg'. unfold load_of, update_load in Hg'.
        apply load_find_update in Hg' as [[-> [= -> ->]]|Hg'].
        -- split; [|done]. by eapply load_waiting_next.
        -- destruct (Hl g' ans2 k2 Hg') as [Hw2 Hk2]. split; [by apply load_waiting_app|done].
      * by rewrite Hs.
    + subst tr'. destruct (load_visit (app_content a) g o) as [Hv Hpe].
      cbn [app_content app_loads app_trace app_file]. split_and!.
      * by apply panel_step_inv.
      * by rewrite map_fst_filter, Hp, Hpe.
      * intros g' ans2 k2 Hg'. apply (Hl g' ans2 k2). unfold load_of in *. by eapply load_find_filter.
      * by rewrite Hv.
Qed.

Lemma run_app_inv_from a es : app_inv a → app_inv (run_app a es).
Proof.
  revert a. induction es as [|e es IH]; intros a Ha; simpl; [done|]. by apply IH, app_step_inv.
Qed.

Lemma run_app_file a es : app_file (run_app a es) = app_file a.
Proof.
  revert a. induction es as [|e es IH]; intros a; simpl; [done|]. by rewrite IH, app_step_file.
Qed.

(** The requests sent are never taken back. *)
Lemma app_step_trace a e : ∃ ext, app_trace (app_step a e) = app_trace a ++ ext.
Proof.
  destruct e as [i|value|g]; unfold app_step; cbv zeta.
  - case_match; [exists []; by rewrite app_nil_r|].
    destruct (send _ _) as [tr' s0] eqn:Es. destruct (send_trace _ _ _ _ Es) as [ext ->].
    destruct s0; by exists ext.
  - exists []. by rewrite app_nil_r.
  - destruct (load_of g (app_loads a)) as [[ans k]|]; [|exists []; by rewrite app_nil_r].
    destruct (send _ _) as [tr' s0] eqn:Es. destruct (send_trace _ _ _ _ Es) as [ext ->].
    destruct s0; by exists ext.
Qed.

Lemma run_app_trace a es : ∃ ext, app_trace (run_app a es) = app_trace a ++ ext.
Proof.
  revert a. induction es as [|e es IH]; intros a; simpl; [exists []; by rewrite app_nil_r|].
  destruct (app_step_trace a e) as [ext1 E1]. destruct (IH (app_step a e)) as [ext2 E2].
  exists (ext1 ++ ext2). by rewrite E2, E1, app_assoc.
Qed.

Lemma render_inv bc fi : app_inv (InfoboxWidget_render (InfoboxWidget_new bc fi)).
Proof.
  split_and!; [|done|by intros ? ? ? ?|done].
  apply (bool_decide_unpack _). vm_compute. reflexivity.
Qed.
End AppTheorems.

Lemma localMakeRequest_shape st P g i r params :
  formValues st = form_object P g i r → localMakeRequest st = Ok params →
  ∃ g' i', params = form_object P g' i' r.
Proof.
  intros Hf. unfold localMakeRequest. rewrite Hf.
  destruct (iterate (selectedUser st)) as [l|]; simpl; [|discriminate].
  destruct (get_prop _ "idp") as [i'|]; simpl; [|discriminate].
  destruct (get_prop _ "grantee") as [g'|]; simpl; [|discriminate].
  intros [= <-]. by exists g', i'.
Qed.

(** What a [ShareWidget] posts: a share of its own file. *)
Definition posts_for (path : string) (st : submissions) : Prop :=
  form_inv path (sub_form st) ∧
  Forall (λ r, ∃ g i role, r = post_request (form_object (JStr (resource_of path)) g i (JStr (role_value role))))
         (posted st).

Lemma submit_step_posts path st e : posts_for path st → posts_for path (submit_step st e).
Proof.
  intros [[role Hf] Hp]. destruct e as [|k r|e]; simpl.
  - unfold press. destruct (localMakeRequest (sub_form st)) as [params|] eqn:E; [|by split; [exists role|]].
    destruct (localMakeRequest_shape _ _ _ _ _ _ Hf E) as (g' & i' & ->).
    split; [by exists role|]. apply Forall_app; split; [done|]. constructor; [|done]. by exists g', i', role.
  - unfold answer. destruct (in_flight st !! k); [|by split; [exists role|]]. by split; [exists role|].
  - split; [|done]. apply handle_form_inv. by exists role.
Qed.

Section Claims.
Context `{Backend} `{RegExpEngine}.

Lemma app_step_panel a e :
  app_inv a →
  ∃ pes, app_content (app_step a e) = run_panel (app_content a) pes ∧
         ∀ g o, PLoad g o ∈ pes → load_of_visit (fi_path (app_file a)) (app_trace (app_step a e)) g o.
Proof.
  intros (_ & _ & Hl & _). destruct e as [i|value|g].
  - exists [PClick i]. split; [|by intros ? ? ?%list_elem_of_singleton].
    unfold app_step. cbv zeta. case_match; [done|].
    by destruct (send_resolve (fi_path (app_file a)) (app_trace a)) as (k & _ & -> & _).
  - exists [PType value]. split; [done|]. by intros ? ? ?%list_elem_of_singleton.
  - unfold app_step. destruct (load_of g (app_loads a)) as [[ans k]|] eqn:Eo;
      [|exists []; split; [done|by intros ? ? ?%not_elem_of_nil]].
    destruct (send (app_trace a) (k ans)) as [tr' [ans' k'|o]] eqn:Es.
    + exists []. split; [done|]. by intros ? ? ?%not_elem_of_nil.
    + exists [PLoad g o]. split; [done|]. intros g' o' [= -> ->]%list_elem_of_singleton.
      destruct (Hl g ans k Eo) as [Hw _].
      destruct (send_finished _ _ _ _ Es) as [Ek ->]. by eapply load_waiting_done.
Qed.

(** C25. An [InfoboxWidget] sends the shares request of its file once per
    opening of SHARES, whatever the clicks, keystrokes and completions:
    since [Content] remounts [Shares] on every visit, each visit loads
    the shares (and looks the users up) again; the lookups never count
    as a shares request. *)
Theorem shares_request_per_visit bc fi es :
  shares_requests (fi_path fi) (app_trace (run_app (InfoboxWidget_render (InfoboxWidget_new bc fi)) es)) =
    visit (app_content (run_app (InfoboxWidget_render (InfoboxWidget_new bc fi)) es)).
Proof.
  destruct (run_app_inv_from _ es (render_inv bc fi)) as (_ & _ & _ & Hn).
  rewrite run_app_file in Hn. exact Hn.
Qed.

(** C30. Every share a [ShareWidget] posts, whatever the presses, answers
    and edits in between, is a share of the widget's own file
    ([/home/] and its path without [cs3drive:]), of a user, with the
    role "viewer" or "editor". *)
Theorem share_widget_posts bc fi es :
  Forall (λ r, ∃ g i role,
            r = post_request (form_object (JStr (resource_of (fi_path fi))) g i (JStr (role_value role))))
         (posted (run_submissions (ShareWidget_render (ShareWidget_new bc fi)) es)).
Proof.
  cut (∀ st, posts_for (fi_path fi) st → posts_for (fi_path fi) (run_submissions st es)).
  { intros Hc. apply Hc. split; [by exists Viewer|constructor]. }
  unfold run_submissions. induction es as [|e es IH]; intros st Hst; simpl; [done|].
  by apply IH, submit_step_posts.
Qed.

(** C31. What an [InfoboxWidget] shows, with its loads, clicks and
    keystrokes interleaved in any order, is a run of the panel of
    Panel.v in which every load that completes, tagged with visit [g],
    carries the result of [getGrantees] for the widget's file started
    by the [g]-th shares request of the trace: each of its requests is
    an entry of the trace after the previous one, answered by the
    service given the requests sent before it. *)
Theorem run_app_refines bc fi es :
  ∃ pes, app_content (run_app (InfoboxWidget_render (InfoboxWidget_new bc fi)) es) = run_panel initial_content pes ∧
         ∀ g o, PLoad g o ∈ pes →
           load_of_visit (fi_path fi) (app_trace (run_app (InfoboxWidget_render (InfoboxWidget_new bc fi)) es)) g o.
Proof.
  cut (∀ a, app_inv a → app_file a = fi →
            ∃ pes, app_content (run_app a es) = run_panel (app_content a) pes ∧
                   ∀ g o, PLoad g o ∈ pes → load_of_visit (fi_path fi) (app_trace (run_app a es)) g o).
  { intros Hc. by apply Hc; [apply render_inv|]. }
  induction es as [|e es IH]; intros a Ha Hf; [by exists []; split; [|intros ? ? ?%not_elem_of_nil]|].
  destruct (app_step_panel a e Ha) as (pes1 & E1 & H1).
  destruct (IH (app_step a e) (app_step_inv a e Ha) ltac:(by rewrite app_step_file)) as (pes2 & E2 & H2).
  exists (pes1 ++ pes2). change (run_app a (e :: es)) with (run_app (app_step a e) es). split.
  - by rewrite E2, E1, run_panel_app.
  - intros g o [Hg|Hg]%elem_of_app; [|by apply (H2 g o)].
    destruct (run_app_trace (app_step a e) es) as [ext ->].
    apply load_of_visit_app. rewrite <-Hf. by apply (H1 g o).
Qed.
End Claims.
