(* ===== verification/Regex.v ===== *)
(** * The regular expressions of the filter box

    [filterGrantees] (infobox.tsx line 285) compiles the trimmed filter
    text with [new RegExp(text, 'i')] and calls [String.prototype.search].
    This file models that part of ECMA-262 (non-unicode mode, with the
    web-compatibility grammar of Annex B) on Latin-1 strings:
    - [regex]: the patterns, with literals, [.], classes [[...]] and the
      escapes [\d \D \w \W \s \S], concatenation, alternation, groups,
      the quantifiers [* + ? {n} {n,} {n,m}] (greedy or lazy), and the
      assertions [^ $ \b \B];
    - [ends]: the executable matcher, the end positions of the matches
      of a pattern that start at a position (which match a backtracking
      engine returns first does not matter to [search]);
    - [search_from]: the first position where a match starts, or -1;
    - [parse_pattern]: the pattern grammar with its SyntaxErrors.
    Backreferences, lookaround, named groups and the [\c], [\u] and octal
    escapes are outside the model: the parser reports them as
    [Unmodelled] rather than guess. *)

From S2P Require Import Prelude JsString JsValue.
From Stdlib Require Import Ascii.
From Stdlib Require String.

Open Scope string_scope.

(** ** Syntax *)

Inductive class_escape : Type := EDigit | ENotDigit | EWord | ENotWord | ESpace | ENotSpace.

Inductive class_item : Type :=
| CChar (c : ascii)
| CRange (lo hi : ascii)
| CEsc (k : class_escape).

Inductive regex : Type :=
| REmpty
| RChar (c : ascii)
| RAny
| RClass (neg : bool) (items : list class_item)
| RSeq (r1 r2 : regex)
| RAlt (r1 r2 : regex)
| RRepeat (r : regex) (min : nat) (max : option nat)
| RBol
| REol
| RWordB (neg : bool).

(** ** Characters *)

Definition code (c : ascii) : nat := nat_of_ascii c.

Definition is_digit (c : ascii) : bool := Nat.leb 48 (code c) && Nat.leb (code c) 57.

(** [WordCharacters]: [a-z A-Z 0-9 _]. *)
Definition is_word_char (c : ascii) : bool :=
  is_digit c || (Nat.leb 65 (code c) && Nat.leb (code c) 90) ||
  (Nat.leb 97 (code c) && Nat.leb (code c) 122) || Nat.eqb (code c) 95.

(** LineTerminator, in Latin-1: LF and CR. *)
Definition is_line_terminator (c : ascii) : bool := Nat.eqb (code c) 10 || Nat.eqb (code c) 13.

Definition escape_matches (k : class_escape) (c : ascii) : bool :=
  match k with
  | EDigit => is_digit c
  | ENotDigit => negb (is_digit c)
  | EWord => is_word_char c
  | ENotWord => negb (is_word_char c)
  | ESpace => is_js_space c
  | ENotSpace => negb (is_js_space c)
  end.

(** With the [i] flag, a character matches a set when some member has
    the same canonical form. *)
Definition item_matches (it : class_item) (c : ascii) : bool :=
  match it with
  | CChar m => canon_eqb m c
  | CRange lo hi =>
      existsb (λ n, canon_eqb (ascii_of_nat n) c) (seq (code lo) (S (code hi) - code lo))
  | CEsc k => escape_matches k c
  end.

Definition class_matches (items : list class_item) (c : ascii) : bool :=
  existsb (λ it, item_matches it c) items.

(** ** The matcher *)

Section Matcher.
Variable s : list ascii.

(** [IsWordChar(e)] of ECMA-262: false outside the input. *)
Definition word_at (i : Z) : bool :=
  match i with
  | Z0 | Zpos _ => match nth_error s (Z.to_nat i) with Some c => is_word_char c | None => false end
  | Zneg _ => false
  end.

Definition one_char (p : ascii → bool) (i : nat) : list nat :=
  match nth_error s i with
  | Some c => if p c then [S i] else []
  | None => []
  end.

(** Iterations of a pattern: [step] takes the start positions of one
    iteration to its end positions. *)
Fixpoint iterate_exact (step : nat → list nat) (k : nat) (ps : list nat) : list nat :=
  match k with
  | O => ps
  | S k' => iterate_exact step k' (flat_map step ps)
  end.

(** The end positions after [n], [n+1], ..., [n+extra] more iterations. *)
Fixpoint iterate_upto (step : nat → list nat) (extra : nat) (ps : list nat) : list nat :=
  match extra with
  | O => ps
  | S e => ps ++ iterate_upto step e (flat_map step ps)
  end.

(** At most [length s] iterations beyond [min] can each consume a
    character, and an iteration that consumes none can be dropped, so
    that many suffice. *)
Definition repeat_bound (min : nat) (max : option nat) : nat :=
  match max with
  | Some m => Nat.min (m - min) (length s)
  | None => length s
  end.

Fixpoint ends (r : regex) (i : nat) : list nat :=
  match r with
  | REmpty => [i]
  | RChar c => one_char (canon_eqb c) i
  | RAny => one_char (λ c, negb (is_line_terminator c)) i
  | RClass neg items => one_char (λ c, Bool.eqb (class_matches items c) (negb neg)) i
  | RSeq r1 r2 => flat_map (ends r2) (ends r1 i)
  | RAlt r1 r2 => ends r1 i ++ ends r2 i
  | RRepeat r min max =>
      match max with
      | Some m => if Nat.ltb m min then [] else
                  iterate_upto (ends r) (repeat_bound min max) (iterate_exact (ends r) min [i])
      | None => iterate_upto (ends r) (repeat_bound min max) (iterate_exact (ends r) min [i])
      end
  | RBol => if Nat.eqb i 0 then [i] else []
  | REol => if Nat.eqb i (length s) then [i] else []
  | RWordB neg =>
      if Bool.eqb (xorb (word_at (Z.of_nat i - 1)) (word_at (Z.of_nat i))) (negb neg) then [i] else []
  end.

(** [search]: the first start position, from [i] on, with a match. *)
Fixpoint search_from (r : regex) (i : nat) (fuel : nat) : option nat :=
  match fuel with
  | O => None
  | S f => match ends r i with
           | [] => search_from r (S i) f
           | _ => Some i
           end
  end.

Definition search_regex (r : regex) : Z :=
  match search_from r 0 (S (length s)) with
  | Some i => Z.of_nat i
  | None => -1
  end.
End Matcher.

(** ** The pattern grammar *)

(** Why a pattern is refused: a SyntaxError of [new RegExp], a construct
    outside the model, or (never) too
    little fuel ([parse_pattern_no_fuel]). *)
Inductive perr : Type :=
| PSyntax (msg : string)
| PUnmodelled (what : string)
| PFuel.

Notation presult A := (result perr (A * list ascii)).

Definition hex_value (c : ascii) : option nat :=
  let n := code c in
  if Nat.leb 48 n && Nat.leb n 57 then Some (n - 48)
  else if Nat.leb 97 n && Nat.leb n 102 then Some (n - 87)
  else if Nat.leb 65 n && Nat.leb n 70 then Some (n - 55)
  else None.

(** Decimal digits as a number, with the rest. *)
Fixpoint p_digits (l : list ascii) (acc : nat) (seen : bool) : option (nat * list ascii) :=
  match l with
  | c :: l' => if is_digit c then p_digits l' (acc * 10 + (code c - 48)) true
               else if seen then Some (acc, l) else None
  | [] => if seen then Some (acc, []) else None
  end.

(** After a [{]: [n}], [n,}] or [n,m}]. *)
Definition braced (l : list ascii) : option (nat * option nat * list ascii) :=
  match p_digits l 0 false with
  | Some (n, "}"%char :: r) => Some (n, Some n, r)
  | Some (n, ","%char :: "}"%char :: r) => Some (n, None, r)
  | Some (n, ","%char :: r) =>
      match p_digits r 0 false with
      | Some (m, "}"%char :: r') => Some (n, Some m, r')
      | _ => None
      end
  | _ => None
  end.

Definition is_quantifier_start (l : list ascii) : bool :=
  match l with
  | "*"%char :: _ | "+"%char :: _ | "?"%char :: _ => true
  | "{"%char :: r => match braced r with Some _ => true | None => false end
  | _ => false
  end.

Definition skip_lazy (l : list ascii) : list ascii :=
  match l with "?"%char :: r => r | _ => l end.

(** A quantifier after an atom, if any. *)
Definition p_quantifier (atom : regex) (l : list ascii) : presult regex :=
  match l with
  | "*"%char :: r => Ok (RRepeat atom 0 None, skip_lazy r)
  | "+"%char :: r => Ok (RRepeat atom 1 None, skip_lazy r)
  | "?"%char :: r => Ok (RRepeat atom 0 (Some 1), skip_lazy r)
  | "{"%char :: r =>
      match braced r with
      | Some (n, Some m, r') =>
          if Nat.ltb m n then Err (PSyntax "numbers out of order in {} quantifier")
          else Ok (RRepeat atom n (Some m), skip_lazy r')
      | Some (n, None, r') => Ok (RRepeat atom n None, skip_lazy r')
      | None => Ok (atom, l)
      end
  | _ => Ok (atom, l)
  end.

(** The control escapes [\f \n \r \t \v]. *)
Definition control_escape (c : ascii) : option ascii :=
  match code c with
  | 102 => Some (ascii_of_nat 12)
  | 110 => Some (ascii_of_nat 10)
  | 114 => Some (ascii_of_nat 13)
  | 116 => Some (ascii_of_nat 9)
  | 118 => Some (ascii_of_nat 11)
  | _ => None
  end.

Definition class_escape_of (c : ascii) : option class_escape :=
  match code c with
  | 100 => Some EDigit | 68 => Some ENotDigit
  | 119 => Some EWord | 87 => Some ENotWord
  | 115 => Some ESpace | 83 => Some ENotSpace
  | _ => None
  end.

(** What follows a backslash, in or out of a class: a character, a class
    escape, or a refusal.  [\b] is handled by the callers. *)
Inductive escaped : Type := EscChar (c : ascii) | EscClass (k : class_escape).

Definition p_escape (l : list ascii) : presult escaped :=
  match l with
  | [] => Err (PSyntax "\ at end of pattern")
  | c :: r =>
      match class_escape_of c, control_escape c with
      | Some k, _ => Ok (EscClass k, r)
      | None, Some c' => Ok (EscChar c', r)
      | None, None =>
          if Nat.eqb (code c) 48 then
            match r with
            | d :: _ => if is_digit d then Err (PUnmodelled "legacy octal escape")
                        else Ok (EscChar (ascii_of_nat 0), r)
            | [] => Ok (EscChar (ascii_of_nat 0), r)
            end
          else if is_digit c then Err (PUnmodelled "backreference or octal escape")
          else if Nat.eqb (code c) 99 then Err (PUnmodelled "control escape \c")
          else if Nat.eqb (code c) 117 then Err (PUnmodelled "unicode escape \u")
          else if Nat.eqb (code c) 120 then
            match r with
            | h1 :: h2 :: r' =>
                match hex_value h1, hex_value h2 with
                | Some a, Some b => Ok (EscChar (ascii_of_nat (a * 16 + b)), r')
                | _, _ => Ok (EscChar c, r)
                end
            | _ => Ok (EscChar c, r)
            end
          else Ok (EscChar c, r)
      end
  end.

(** One [ClassAtom]. *)
Definition p_class_atom (l : list ascii) : presult escaped :=
  match l with
  | "\"%char :: "b"%char :: r => Ok (EscChar (ascii_of_nat 8), r)
  | "\"%char :: "-"%char :: r => Ok (EscChar "-"%char, r)
  | "\"%char :: r => p_escape r
  | c :: r => Ok (EscChar c, r)
  | [] => Err (PSyntax "Unterminated character class")
  end.

Definition item_of (e : escaped) : class_item :=
  match e with EscChar c => CChar c | EscClass k => CEsc k end.

(** [ClassRanges] up to the closing [\]]. *)
Fixpoint p_class (fuel : nat) (l : list ascii) : presult (list class_item) :=
  match fuel with
  | O => Err PFuel
  | S f =>
      match l with
      | [] => Err (PSyntax "Unterminated character class")
      | "]"%char :: r => Ok ([], r)
      | _ =>
          '(a, r) ← p_class_atom l;
          match r with
          | "-"%char :: r1 =>
              match r1 with
              | "]"%char :: _ =>
                  '(items, r2) ← p_class f r1; Ok (item_of a :: CChar "-"%char :: items, r2)
              | [] => Err (PSyntax "Unterminated character class")
              | _ =>
                  '(b, r2) ← p_class_atom r1;
                  match a, b with
                  | EscChar lo, EscChar hi =>
                      if Nat.ltb (code hi) (code lo)
                      then Err (PSyntax "Range out of order in character class")
                      else '(items, r3) ← p_class f r2; Ok (CRange lo hi :: items, r3)
                  | _, _ =>
                      '(items, r3) ← p_class f r2;
                      Ok (item_of a :: CChar "-"%char :: item_of b :: items, r3)
                  end
              end
          | _ => '(items, r2) ← p_class f r; Ok (item_of a :: items, r2)
          end
      end
  end.

Definition assertion_then (a : regex) (r : list ascii) : presult regex :=
  if is_quantifier_start r then Err (PSyntax "Nothing to repeat") else Ok (a, r).

(** Right-nested concatenation of the terms of an alternative. *)
Fixpoint seq_of (ts : list regex) : regex :=
  match ts with
  | [] => REmpty
  | [t] => t
  | t :: ts' => RSeq t (seq_of ts')
  end.

Fixpoint p_disj (fuel : nat) (l : list ascii) {struct fuel} : presult regex :=
  match fuel with
  | O => Err PFuel
  | S f =>
      '(a, r) ← p_alt f l [];
      match r with
      | "|"%char :: r' => '(d, r'') ← p_disj f r'; Ok (RAlt a d, r'')
      | _ => Ok (a, r)
      end
  end
with p_alt (fuel : nat) (l : list ascii) (acc : list regex) {struct fuel} : presult regex :=
  match fuel with
  | O => Err PFuel
  | S f =>
      match l with
      | [] | "|"%char :: _ | ")"%char :: _ => Ok (seq_of (rev acc), l)
      | _ => '(t, r) ← p_term f l; p_alt f r (t :: acc)
      end
  end
with p_term (fuel : nat) (l : list ascii) {struct fuel} : presult regex :=
  match fuel with
  | O => Err PFuel
  | S f =>
      match l with
      | "^"%char :: r => assertion_then RBol r
      | "$"%char :: r => assertion_then REol r
      | "\"%char :: "b"%char :: r => assertion_then (RWordB false) r
      | "\"%char :: "B"%char :: r => assertion_then (RWordB true) r
      | "\"%char :: r =>
          '(e, r') ← p_escape r;
          match e with
          | EscChar c => p_quantifier (RChar c) r'
          | EscClass k => p_quantifier (RClass false [CEsc k]) r'
          end
      | "("%char :: "?"%char :: ":"%char :: r =>
          '(d, r') ← p_disj f r;
          match r' with
          | ")"%char :: r'' => p_quantifier d r''
          | _ => Err (PSyntax "Unterminated group")
          end
      | "("%char :: "?"%char :: _ => Err (PUnmodelled "lookaround or named group")
      | "("%char :: r =>
          '(d, r') ← p_disj f r;
          match r' with
          | ")"%char :: r'' => p_quantifier d r''
          | _ => Err (PSyntax "Unterminated group")
          end
      | "["%char :: "^"%char :: r =>
          '(items, r') ← p_class (S (length r)) r; p_quantifier (RClass true items) r'
      | "["%char :: r =>
          '(items, r') ← p_class (S (length r)) r; p_quantifier (RClass false items) r'
      | "."%char :: r => p_quantifier RAny r
      | "*"%char :: _ | "+"%char :: _ | "?"%char :: _ => Err (PSyntax "Nothing to repeat")
      | "{"%char :: r =>
          match braced r with
          | Some _ => Err (PSyntax "Nothing to repeat")
          | None => p_quantifier (RChar "{"%char) r
          end
      | c :: r => p_quantifier (RChar c) r
      | [] => Err (PSyntax "empty term")
      end
  end.

(** [new RegExp(pattern)]: the whole pattern, with [3 * length + 3] fuel. *)
Definition parse_pattern (p : string) : result perr regex :=
  let l := String.list_ascii_of_string p in
  match p_disj (3 * length l + 3) l with
  | Ok (r, []) => Ok r
  | Ok (_, _) => Err (PSyntax "Unmatched ')'")
  | Err e => Err e
  end.

(** ** The parser always finishes within its fuel

    [within n res]: the parse did not run out of fuel, and if it
    succeeded it left at most [n] characters. *)
Local Open Scope nat_scope.

Definition within {A} (n : nat) (res : presult A) : Prop :=
  match res with Ok (_, r) => length r ≤ n | Err e => e ≠ PFuel end.

Lemma within_mono {A} n n' (res : presult A) : n ≤ n' → within n res → within n' res.
Proof. destruct res as [[? r]|e]; simpl; [lia|auto]. Qed.

Lemma within_bind {A B} n n' (m : presult A) (k : A * list ascii → presult B) :
  within n m → (∀ a r, length r ≤ n → within n' (k (a, r))) → within n' (m ≫= k).
Proof. destruct m as [[a r]|e]; simpl; auto. Qed.

Lemma within_err {A} n msg : within (A:=A) n (Err (PSyntax msg)).
Proof. done. Qed.

Lemma within_err_unmodelled {A} n w : within (A:=A) n (Err (PUnmodelled w)).
Proof. done. Qed.

Lemma within_ok {A} n (a : A) r : length r ≤ n → within n (Ok (a, r)).
Proof. done. Qed.

#[export] Hint Resolve within_err within_err_unmodelled within_ok : cs3.

Lemma p_digits_len l : ∀ acc seen n r, p_digits l acc seen = Some (n, r) → length r ≤ length l.
Proof.
  induction l as [|c l IH]; intros acc seen n r; simpl.
  - destruct seen; intros [=]; subst; simpl; lia.
  - destruct (is_digit c); [intros ?%IH; lia|]. destruct seen; intros [=]; subst; simpl; lia.
Qed.

Lemma braced_len l n m r : braced l = Some (n, m, r) → length r < length l.
Proof.
  unfold braced. destruct (p_digits l 0 false) as [[k l']|] eqn:E; [|done].
  apply p_digits_len in E.
  repeat case_match; intros [=]; subst;
    try match goal with H : p_digits _ _ _ = Some _ |- _ => apply p_digits_len in H end;
    simpl in *; lia.
Qed.

Lemma skip_lazy_len l : length (skip_lazy l) ≤ length l.
Proof. destruct l as [|c l]; simpl; [lia|]. repeat case_match; simpl; lia. Qed.

Lemma p_quantifier_within a l : within (length l) (p_quantifier a l).
Proof.
  unfold p_quantifier.
  repeat case_match; subst; auto with cs3;
    try match goal with H : braced _ = Some _ |- _ => apply braced_len in H end;
    apply within_ok; etrans; try apply skip_lazy_len; simpl in *; lia.
Qed.

Lemma p_escape_within l : within (pred (length l)) (p_escape l).
Proof.
  unfold p_escape. destruct l as [|c r]; [done|].
  repeat case_match; subst; auto with cs3; apply within_ok; simpl; lia.
Qed.

Lemma p_class_atom_within l : within (pred (length l)) (p_class_atom l).
Proof.
  unfold p_class_atom. repeat case_match; subst; auto with cs3;
    try (apply within_ok; simpl; lia).
  all: eapply within_mono; [|apply p_escape_within]; simpl; lia.
Qed.

Lemma p_class_within f : ∀ l, length l < f → within (pred (length l)) (p_class f l).
Proof.
  induction f as [|f IH]; intros l Hl; [lia|]. simpl.
  repeat match goal with
  | |- within _ (p_class_atom _ ≫= _) =>
      eapply within_bind; [apply p_class_atom_within|]; intros ?? ?; cbn beta iota
  | |- within _ (p_class f _ ≫= _) =>
      eapply within_bind; [apply IH; simpl in *; lia|]; intros ?? ?; cbn beta iota
  | |- within _ (Ok _) => apply within_ok; simpl in *; lia
  | |- within _ (Err (PSyntax _)) => done
  | |- within _ (match _ with _ => _ end) => case_match; subst
  | |- within _ (if _ then _ else _) => case_match
  end.
Qed.

Lemma assertion_then_within a l : within (length l) (assertion_then a l).
Proof. unfold assertion_then. case_match; auto with cs3. Qed.

Lemma parse_within f :
  (∀ l, 3 * length l + 3 ≤ f → within (length l) (p_disj f l)) ∧
  (∀ l acc, 3 * length l + 2 ≤ f → within (length l) (p_alt f l acc)) ∧
  (∀ l, 3 * length l + 1 ≤ f → within (pred (length l)) (p_term f l)).
Proof.
  induction f as [|f (IHd & IHa & IHt)]; [split_and!; intros; lia|].
  split_and!; intros l; [|intros acc|]; intros Hf; cbn [p_disj p_alt p_term];
  repeat match goal with
  | |- within _ (p_alt f _ _ ≫= _) =>
      eapply within_bind; [apply IHa; simpl in *; lia|]; intros ?? ?; cbn beta iota
  | |- within _ (p_disj f _ ≫= _) =>
      eapply within_bind; [apply IHd; simpl in *; lia|]; intros ?? ?; cbn beta iota
  | |- within _ (p_term f _ ≫= _) =>
      eapply within_bind; [apply IHt; simpl in *; lia|]; intros ?? ?; cbn beta iota
  | |- within _ (p_escape _ ≫= _) =>
      eapply within_bind; [apply p_escape_within|]; intros ?? ?; cbn beta iota
  | |- within _ (p_class _ _ ≫= _) =>
      eapply within_bind; [apply p_class_within; lia|]; intros ?? ?; cbn beta iota
  | |- within _ (p_alt f _ _) => eapply within_mono; [|apply IHa; simpl in *; lia]; simpl in *; lia
  | |- within _ (p_quantifier _ _) => eapply within_mono; [|apply p_quantifier_within]; simpl in *; lia
  | |- within _ (assertion_then _ _) => eapply within_mono; [|apply assertion_then_within]; simpl in *; lia
  | |- within _ (Ok _) => apply within_ok; simpl in *; lia
  | |- within _ (Err (PSyntax _)) => done
  | |- within _ (Err (PUnmodelled _)) => done
  | |- within _ (Err _ ≫= _) => done
  | |- within _ (match _ with _ => _ end) => case_match; subst
  end.
Qed.

(** [new RegExp(p, 'i')] always finishes: with [3 * length p + 3]
    fuel the parser accepts the pattern, or refuses it with a
    SyntaxError or as a construct outside the model, but never runs out
    of fuel. *)
Theorem parse_pattern_no_fuel p : parse_pattern p ≠ Err PFuel.
Proof.
  unfold parse_pattern.
  destruct (parse_within (3 * length (String.list_ascii_of_string p) + 3)) as [Hd _].
  specialize (Hd (String.list_ascii_of_string p) (le_n _)).
  destruct (p_disj _ _) as [[r [|c l]]|e]; simpl in *; congruence.
Qed.
