(* ===== verification/RegexSpec.v ===== *)
(** * The matcher of Regex.v against a relational semantics

    ECMA-262 gives [RegExp] a backtracking semantics; [search] only asks
    whether some match starts at a position, so what matters of it is the
    set of pairs (start, end) a pattern can match.  [matches s r i j] is
    that set, written as rules: atoms consume one character that
    satisfies them, [RSeq] composes, [RAlt] chooses, and a quantifier
    iterates its atom any number of times between its bounds ([reps]).
    The engine's rule that an iteration beyond the minimum must not
    match the empty string changes no end position (such an iteration
    can be left out), so the rules omit it.

    [ends_spec] proves the executable [ends] computes exactly this set;
    its one non-structural step is that [repeat_bound] iterations beyond
    the minimum are enough ([iter_compress]).  [search_regex_spec] then
    characterizes [String.prototype.search]: the least start position of
    a match, or -1. *)

From S2P Require Import Prelude JsString Regex.
From stdpp Require Import sets.
From Stdlib Require Import Ascii.
From Stdlib Require String.

Local Open Scope nat_scope.

(** ** Iterating a relation *)

Section Iterate.
Context (R : nat → nat → Prop).

(** [iter n a b]: [n] steps of [R] lead from [a] to [b]. *)
Fixpoint iter (n : nat) (a b : nat) : Prop :=
  match n with
  | O => a = b
  | S n' => ∃ k, R a k ∧ iter n' k b
  end.

Lemma iter_add n1 n2 a b : iter (n1 + n2) a b ↔ ∃ k, iter n1 a k ∧ iter n2 k b.
Proof.
  revert a. induction n1 as [|n1 IH]; intros a; simpl.
  - split; [by eauto | by intros (k & -> & ?)].
  - split.
    + intros (k & Hk & (m & ? & ?)%IH). eauto.
    + intros (m & (k & Hk & ?) & ?). exists k. split; [done|]. apply IH. eauto.
Qed.

(** A step either stays in place or moves forward to a position at
    most [L]: the iterations that stay can be left out, and at most
    [L] others fit. *)
Context (L : nat).
Hypothesis R_forward : ∀ a b, R a b → a = b ∨ (a < b ∧ b ≤ L).

Lemma iter_forward n : ∀ a b, iter n a b → a ≤ b.
Proof.
  induction n as [|n IH]; intros a b; simpl; [lia|].
  intros (k & Hk%R_forward & Hit%IH). lia.
Qed.

Lemma iter_compress n a b :
  iter n a b → ∃ n', n' ≤ n ∧ iter n' a b ∧ (n' = 0 ∨ (n' ≤ b - a ∧ b ≤ L)).
Proof.
  revert a. induction n as [|n IH]; intros a; simpl.
  - intros ->. exists 0. simpl. split_and!; [lia|done|by left].
  - intros (k & Hk & Hn). pose proof (iter_forward n k b Hn).
    destruct (IH k Hn) as (n' & Hle & Hit & Hb).
    destruct (R_forward a k Hk) as [<- | [Hak HkL]].
    + exists n'. split_and!; [lia|done|done].
    + exists (S n'). split_and!; [lia|simpl; eauto|right].
      destruct Hb as [-> | [? ?]]; [simpl in Hit; subst; lia | lia].
Qed.

Section Step.
Context (step : nat → list nat).
Hypothesis step_spec : ∀ a b, b ∈ step a ↔ R a b.

Lemma elem_of_flat_map_step ps b : b ∈ flat_map step ps ↔ ∃ a, a ∈ ps ∧ R a b.
Proof.
  rewrite list_elem_of_In, in_flat_map.
  setoid_rewrite <- list_elem_of_In. by setoid_rewrite step_spec.
Qed.

Lemma iterate_exact_spec k : ∀ ps b, b ∈ iterate_exact step k ps ↔ ∃ a, a ∈ ps ∧ iter k a b.
Proof.
  induction k as [|k IH]; intros ps b; simpl.
  - split; [by eauto | by intros (a & ? & ->)].
  - rewrite IH. setoid_rewrite elem_of_flat_map_step. naive_solver.
Qed.

Lemma iterate_upto_spec e : ∀ ps b,
  b ∈ iterate_upto step e ps ↔ ∃ a, a ∈ ps ∧ ∃ n, n ≤ e ∧ iter n a b.
Proof.
  induction e as [|e IH]; intros ps b; simpl.
  - split; [intros Hb; exists b; split; [done|]; exists 0; simpl; split; [lia|done]|].
    intros (a & Ha & n & Hn & Hit). assert (n = 0) as -> by lia. by simpl in Hit; subst.
  - rewrite elem_of_app, IH. setoid_rewrite elem_of_flat_map_step. split.
    + intros [Hb | (a & (a0 & Ha0 & Hr) & n & Hn & Hit)].
      * exists b. split; [done|]. exists 0. simpl. split; [lia|done].
      * exists a0. split; [done|]. exists (S n). simpl. split; [lia|eauto].
    + intros (a & Ha & [|n] & Hn & Hit); simpl in Hit.
      * subst. by left.
      * destruct Hit as (k & Hk & Hit). right. exists k. split; [eauto|]. exists n. split; [lia|done].
Qed.
End Step.
End Iterate.

(** ** The rules *)

Section Semantics.
Variable s : list ascii.

Definition within_max (max : option nat) (n : nat) : Prop :=
  match max with Some m => n ≤ m | None => True end.

Inductive matches : regex → nat → nat → Prop :=
| M_empty i : matches REmpty i i
| M_char c i ch :
    nth_error s i = Some ch → canon_eqb c ch = true → matches (RChar c) i (S i)
| M_any i ch :
    nth_error s i = Some ch → is_line_terminator ch = false → matches RAny i (S i)
| M_class neg items i ch :
    nth_error s i = Some ch → class_matches items ch = negb neg →
    matches (RClass neg items) i (S i)
| M_seq r1 r2 i j k : matches r1 i j → matches r2 j k → matches (RSeq r1 r2) i k
| M_alt_l r1 r2 i j : matches r1 i j → matches (RAlt r1 r2) i j
| M_alt_r r1 r2 i j : matches r2 i j → matches (RAlt r1 r2) i j
| M_repeat r min max n i j :
    min ≤ n → within_max max n → reps r n i j → matches (RRepeat r min max) i j
| M_bol : matches RBol 0 0
| M_eol : matches REol (length s) (length s)
| M_wordb neg i :
    xorb (word_at s (Z.of_nat i - 1)) (word_at s (Z.of_nat i)) = negb neg →
    matches (RWordB neg) i i
with reps : regex → nat → nat → nat → Prop :=
| R_zero r i : reps r 0 i i
| R_step r n i j k : matches r i j → reps r n j k → reps r (S n) i k.

Scheme matches_mut := Induction for matches Sort Prop
with reps_mut := Induction for reps Sort Prop.

Lemma reps_iter r n : ∀ i j, reps r n i j ↔ iter (matches r) n i j.
Proof.
  induction n as [|n IH]; intros i j; simpl.
  - split; [by inversion 1 | intros ->; constructor].
  - split.
    + inversion 1; subst. eexists. split; [done|]. by apply IH.
    + intros (k & Hk & Hit). econstructor; [done|]. by apply IH.
Qed.

Lemma nth_error_lt i ch : nth_error s i = Some ch → S i ≤ length s.
Proof. intros H. assert (nth_error s i ≠ None) as Hn%nth_error_Some by congruence. lia. Qed.

(** Every match moves forward, and a match that consumes a character
    ends inside the input. *)
Lemma matches_forward r i j : matches r i j → i = j ∨ (i < j ∧ j ≤ length s).
Proof.
  apply (matches_mut (λ r i j _, i = j ∨ (i < j ∧ j ≤ length s))
                     (λ r n i j _, i = j ∨ (i < j ∧ j ≤ length s)));
    intros; repeat match goal with H : nth_error _ _ = Some _ |- _ => apply nth_error_lt in H end;
    try (by left); try (right; lia); lia.
Qed.
End Semantics.

(** ** The matcher computes the rules *)

Section Correctness.
Variable s : list ascii.

Lemma one_char_spec p i j :
  j ∈ one_char s p i ↔ ∃ ch, nth_error s i = Some ch ∧ p ch = true ∧ j = S i.
Proof.
  unfold one_char. destruct (nth_error s i) as [ch|].
  - destruct (p ch) eqn:Hp; rewrite ?list_elem_of_singleton, ?elem_of_nil.
    + split; [intros ->; eauto | by intros (? & [= <-] & _ & ->)].
    + split; [done | intros (? & [= <-] & ? & _); congruence].
  - rewrite elem_of_nil. split; [done | by intros (? & [=] & _)].
Qed.

Lemma repeat_bound_spec min max e :
  within_max max (min + e) → e ≤ length s → e ≤ repeat_bound s min max.
Proof. unfold repeat_bound, within_max. destruct max; lia. Qed.

Lemma repeat_bound_max min max e : within_max max min →
  e ≤ repeat_bound s min max → within_max max (min + e).
Proof. unfold repeat_bound, within_max. destruct max; lia. Qed.

Section Repeat.
Context (r : regex) (min : nat) (max : option nat).
Hypothesis IH : ∀ a b, b ∈ ends s r a ↔ matches s r a b.
Hypothesis Hmax : within_max max min.

Lemma repeat_spec i j :
  j ∈ iterate_upto (ends s r) (repeat_bound s min max) (iterate_exact (ends s r) min [i]) ↔
    matches s (RRepeat r min max) i j.
Proof.
  rewrite (iterate_upto_spec _ _ IH).
  setoid_rewrite (iterate_exact_spec _ _ IH). setoid_rewrite list_elem_of_singleton.
  split.
  - intros (a & (? & -> & Hmin) & e & He & Hit).
    apply (M_repeat _ _ _ _ (min + e)); [lia | by apply repeat_bound_max |].
    apply reps_iter, iter_add. eauto.
  - inversion 1 as [| | | | | | |? ? ? n ? ? Hn Hw Hr| | |]; subst.
    apply reps_iter in Hr. replace n with (min + (n - min)) in Hr, Hw by lia.
    apply iter_add in Hr as (a & Ha & Hit).
    destruct (iter_compress _ (length s) (matches_forward s r) _ _ _ Hit)
      as (e & He & Hit' & Hb).
    pose proof (iter_forward _ (length s) (matches_forward s r) _ _ _ Hit').
    exists a. split; [eauto|]. exists e. split; [|done].
    apply repeat_bound_spec.
    + destruct max; simpl in *; lia.
    + destruct Hb as [-> | [? ?]]; lia.
Qed.
End Repeat.

(** The executable matcher and the rules agree: [ends s r i] lists
    exactly the ends of the matches of [r] from [i]. *)
Lemma ends_spec r : ∀ i j, j ∈ ends s r i ↔ matches s r i j.
Proof.
  induction r as [| c | | neg items | r1 IH1 r2 IH2 | r1 IH1 r2 IH2 | r IH min max | | | neg];
    intros i j; simpl.
  - rewrite list_elem_of_singleton. split; [intros ->; constructor | by inversion 1].
  - rewrite one_char_spec. split; [intros (ch & ? & ? & ->); by econstructor | inversion 1; eauto].
  - rewrite one_char_spec. setoid_rewrite negb_true_iff.
    split; [intros (ch & ? & ? & ->); by econstructor | inversion 1; eauto].
  - rewrite one_char_spec. setoid_rewrite Bool.eqb_true_iff.
    split; [intros (ch & ? & ? & ->); by econstructor | inversion 1; eauto].
  - rewrite (elem_of_flat_map_step _ _ IH2). setoid_rewrite IH1.
    split; [intros (k & ? & ?); by econstructor | inversion 1; eauto].
  - rewrite elem_of_app, IH1, IH2.
    split; [intros [?|?]; by constructor | inversion 1; eauto].
  - destruct max as [m|]; [destruct (Nat.ltb_spec m min)|].
    + split; [set_solver|]. inversion 1; subst. simpl in *. lia.
    + apply repeat_spec; [done|]. simpl. lia.
    + by apply repeat_spec.
  - destruct (Nat.eqb_spec i 0) as [->|]; rewrite ?list_elem_of_singleton.
    + split; [intros ->; constructor | by inversion 1].
    + split; [set_solver | inversion 1; subst; lia].
  - destruct (Nat.eqb_spec i (length s)) as [->|]; rewrite ?list_elem_of_singleton.
    + split; [intros ->; constructor | by inversion 1].
    + split; [set_solver | inversion 1; subst; lia].
  - destruct (Bool.eqb _ _) eqn:Hw; rewrite ?list_elem_of_singleton.
    + apply (proj1 (Bool.eqb_true_iff _ _)) in Hw. split; [intros ->; constructor; exact Hw | by inversion 1].
    + split; [set_solver | inversion 1; subst].
      apply (proj1 (Bool.eqb_false_iff _ _)) in Hw. congruence.
Qed.
End Correctness.

(** ** [String.prototype.search] *)

(** What [search] returns: the least position at most [length s] where
    a match starts, or -1 when there is none. *)
Definition first_match (s : list ascii) (r : regex) (res : Z) : Prop :=
  (res = (-1)%Z ∧ ∀ i j, i ≤ length s → ¬ matches s r i j) ∨
  (∃ i, res = Z.of_nat i ∧ i ≤ length s ∧ (∃ j, matches s r i j) ∧
        ∀ i' j, i' < i → ¬ matches s r i' j).

Section Search.
Variable s : list ascii.

Lemma ends_nil r i : ends s r i = [] ↔ ∀ j, ¬ matches s r i j.
Proof.
  setoid_rewrite <- ends_spec. destruct (ends s r i) as [|k l].
  - split; [intros _ j ?%elem_of_nil; done | done].
  - split; [done|]. intros H. destruct (H k). left.
Qed.

Lemma search_from_spec r fuel : ∀ i,
  match search_from s r i fuel with
  | Some k => i ≤ k < i + fuel ∧ ends s r k ≠ [] ∧ ∀ k', i ≤ k' < k → ends s r k' = []
  | None => ∀ k', i ≤ k' < i + fuel → ends s r k' = []
  end.
Proof.
  induction fuel as [|fuel IH]; intros i; simpl; [intros; lia|].
  destruct (ends s r i) as [|e es] eqn:Hi.
  - specialize (IH (S i)). destruct (search_from s r (S i) fuel) as [k|].
    + destruct IH as (? & ? & Hbefore). split; [lia|split; [done|]].
      intros k' ?. destruct (Nat.eq_dec k' i) as [->|]; [done|]. apply Hbefore. lia.
    + intros k' ?. destruct (Nat.eq_dec k' i) as [->|]; [done|]. apply IH. lia.
  - split; [lia|split; [try rewrite Hi; discriminate|intros; lia]].
Qed.

(** [s.search(re)], as the filter calls it, returns the least
    position where the pattern matches under the rules of [matches], or
    -1 when it matches nowhere. *)
Theorem search_regex_spec r : first_match s r (search_regex s r).
Proof.
  unfold search_regex, first_match. pose proof (search_from_spec r (S (length s)) 0) as Hs.
  destruct (search_from s r 0 (S (length s))) as [k|].
  - right. destruct Hs as (? & Hk & Hbefore). exists k. split; [done|split; [lia|split]].
    + destruct (ends s r k) as [|j l] eqn:E; [done|]. exists j. apply ends_spec. rewrite E. left.
    + intros i' j ?. apply ends_nil, Hbefore. lia.
  - left. split; [done|]. intros i j ?. apply ends_nil, Hs. lia.
Qed.
End Search.
