(* ===== verification/RegexEngine.v ===== *)
(** * The RegExp engine of the filter, as an instance of the interface

    [new RegExp(text, 'i')] is [regexp_new]: [parse_pattern], its
    SyntaxErrors as JavaScript's, and [OutsideModel] for the constructs
    [Regex.v] leaves out; [s.search(re)] is [regex_search].  [js_regexp]
    packs them as the [RegExpEngine] of SharesView.v, and
    [js_regexp_literal] discharges its law [RegExpLiteral]: a text
    without syntax characters parses to its characters and is found
    exactly where it occurs, ignoring case.  The theorems of SharesView.v
    therefore hold of the code's engine. *)

From S2P Require Import Prelude JsString JsValue Resolver SharesView Infobox Panel Regex.
From Stdlib Require Import Ascii.
From Stdlib Require String.

Open Scope string_scope.

(** ** The engine *)

Definition regexp_new (p flags : string) : result exn regex :=
  if String.eqb flags "i" then
    match parse_pattern p with
    | Ok r => Ok r
    | Err (PSyntax msg) => throw (SyntaxError ("Invalid regular expression: /" ++ p ++ "/i: " ++ msg))
    | Err (PUnmodelled w) => throw (OutsideModel w)
    | Err PFuel => throw (OutsideModel "parser fuel")
    end
  else throw (OutsideModel "flags other than i").

Definition regex_search (r : regex) (s : string) : Z :=
  search_regex (String.list_ascii_of_string s) r.

Definition js_regexp : RegExpEngine := {|
  regexp := regex;
  new_RegExp := regexp_new;
  search := regex_search
|}.

(** ** Literal patterns *)

Fixpoint ci_prefix (p s : list ascii) : bool :=
  match p, s with
  | [], _ => true
  | a :: p', b :: s' => canon_eqb a b && ci_prefix p' s'
  | _ :: _, [] => false
  end.

Lemma ci_prefixb_list p s :
  ci_prefixb p s = ci_prefix (String.list_ascii_of_string p) (String.list_ascii_of_string s).
Proof. revert s. induction p as [|a p IH]; intros [|b s]; simpl; rewrite ?IH; done. Qed.

Lemma drop_nth_error (s : list ascii) i :
  drop i s = match nth_error s i with Some c => c :: drop (S i) s | None => [] end.
Proof.
  revert i. induction s as [|c s IH]; intros [|i]; simpl; first [done | apply IH].
Qed.

Lemma ends_RChar s c i :
  ends s (RChar c) i = if ci_prefix [c] (drop i s) then [S i] else [].
Proof.
  simpl. unfold one_char. rewrite drop_nth_error.
  destruct (nth_error s i) as [ch|]; simpl; [|done]. by rewrite andb_true_r.
Qed.

Lemma ci_prefix_cons_drop s c cs i :
  ci_prefix (c :: cs) (drop i s) = ci_prefix [c] (drop i s) && ci_prefix cs (drop (S i) s).
Proof.
  rewrite (drop_nth_error s i). destruct (nth_error s i); simpl; [|done].
  by rewrite andb_true_r.
Qed.

Lemma ends_literal s cs i :
  ends s (seq_of (map RChar cs)) i =
    if ci_prefix cs (drop i s) then [i + length cs] else [].
Proof.
  revert i. induction cs as [|c cs IH]; intros i.
  - simpl. by rewrite Nat.add_0_r.
  - destruct cs as [|c' cs'].
    + change (seq_of (map RChar [c])) with (RChar c).
      rewrite ends_RChar. simpl. by rewrite Nat.add_1_r.
    + change (ends s (seq_of (map RChar (c :: c' :: cs'))) i)
        with (flat_map (ends s (seq_of (map RChar (c' :: cs')))) (ends s (RChar c) i)).
      rewrite ends_RChar, (ci_prefix_cons_drop s c (c' :: cs') i).
      destruct (ci_prefix [c] (drop i s)); [|done].
      cbn [flat_map andb]. rewrite app_nil_r, IH.
      destruct (ci_prefix (c' :: cs') (drop (S i) s)); [|done].
      simpl. do 2 f_equal. lia.
Qed.

(** The parser on a text without syntax characters: each character is a
    term [RChar c] with no quantifier after it. *)
Definition literal_list (l : list ascii) : bool := forallb (λ c, negb (is_syntax_char c)) l.

Lemma literal_pattern_list p :
  literal_pattern p = literal_list (String.list_ascii_of_string p).
Proof. induction p as [|c p IH]; simpl; [done|]. by rewrite IH. Qed.

Lemma p_quantifier_literal a l :
  literal_list l = true → p_quantifier a l = Ok (a, l).
Proof.
  destruct l as [|c l]; [done|]. simpl. intros [Hc _]%andb_prop.
  destruct c as [[] [] [] [] [] [] [] []]; first [discriminate Hc | reflexivity].
Qed.

Lemma p_alt_literal_step f c l acc :
  is_syntax_char c = false →
  p_alt (S (S f)) (c :: l) acc =
    ('(t, r) ← p_quantifier (RChar c) l; p_alt (S f) r (t :: acc)).
Proof. intros Hc. destruct c as [[] [] [] [] [] [] [] []]; first [discriminate Hc | reflexivity]. Qed.

Lemma p_alt_literal l : ∀ f acc,
  literal_list l = true → length l < f →
  p_alt f l acc = Ok (seq_of (rev acc ++ map RChar l), []).
Proof.
  induction l as [|c l IH]; intros f acc Hl Hf.
  - destruct f as [|f]; [lia|]. simpl. by rewrite app_nil_r.
  - destruct f as [|[|f]]; simpl in Hf; [lia|lia|].
    simpl in Hl. apply andb_prop in Hl as [Hc Hl]. apply negb_true_iff in Hc.
    rewrite p_alt_literal_step, p_quantifier_literal by done.
    cbn [mbind result_bind]. rewrite IH by (done || lia). simpl. by rewrite <- app_assoc.
Qed.

(** [new RegExp(p, 'i')] of a text without syntax characters
    is the sequence of its characters. *)
Lemma parse_pattern_literal p :
  literal_pattern p = true →
  parse_pattern p = Ok (seq_of (map RChar (String.list_ascii_of_string p))).
Proof.
  rewrite literal_pattern_list. intros Hl. unfold parse_pattern.
  remember (String.list_ascii_of_string p) as l eqn:El. clear El.
  replace (3 * length l + 3) with (S (3 * length l + 2)) by lia. simpl.
  rewrite p_alt_literal by (done || lia). reflexivity.
Qed.

(** ** Search *)

Lemma search_from_Some s r : ∀ fuel i,
  is_Some (search_from s r i fuel) ↔ ∃ k, k < fuel ∧ ends s r (i + k) ≠ [].
Proof.
  induction fuel as [|fuel IH]; intros i; simpl.
  - split; [intros [? [=]] | intros (k & Hk & _); lia].
  - destruct (ends s r i) as [|e es] eqn:Ei.
    + rewrite IH. split.
      * intros (k & Hk & Hne). exists (S k). rewrite Nat.add_succ_r. split; [lia|done].
      * intros ([|k] & Hk & Hne); [by rewrite Nat.add_0_r, Ei in Hne|].
        exists k. rewrite Nat.add_succ_r in Hne. split; [lia|done].
    + split; [|by eauto]. intros _. exists 0. rewrite Nat.add_0_r, Ei. split; [lia|done].
Qed.

Lemma search_regex_found s r :
  negb (Z.eqb (search_regex s r) (-1)) = true ↔ ∃ k : nat, (k ≤ length s)%nat ∧ ends s r k ≠ [].
Proof.
  transitivity (is_Some (search_from s r 0 (S (length s)))).
  - unfold search_regex. destruct (search_from s r 0 (S (length s))) as [i|]; simpl.
    + split; [by eauto|]. intros _. apply negb_true_iff, Z.eqb_neq. lia.
    + split; [done|]. intros [? [=]].
  - rewrite search_from_Some. split; intros (k & Hk & H); exists k; split; done || lia.
Qed.

Lemma ci_contains_drop p s :
  ci_contains p s = true ↔
    ∃ k : nat, (k ≤ String.length s)%nat ∧
         ci_prefix (String.list_ascii_of_string p) (drop k (String.list_ascii_of_string s)) = true.
Proof.
  induction s as [|c s IH]; simpl; rewrite ci_prefixb_list, orb_true_iff.
  - split.
    + intros [H|H]; [|done]. exists 0. split; [lia|done].
    + intros (k & Hk & H). left. by destruct k; [|lia].
  - rewrite IH. split.
    + intros [H | (k & Hk & H)]; [exists 0; split; [lia|done]|].
      exists (S k). split; [lia|done].
    + intros ([|k] & Hk & H); [by left|]. right. exists k. split; [lia|done].
Qed.

Lemma length_list_ascii s : length (String.list_ascii_of_string s) = String.length s.
Proof. induction s; simpl; auto. Qed.

(** [js_regexp] meets the law of literal texts: the component
    SharesView.v is proved against holds of this engine. *)
#[export] Instance js_regexp_literal : @RegExpLiteral js_regexp.
Proof.
  constructor. intros p Hp. exists (seq_of (map RChar (String.list_ascii_of_string p))).
  split.
  - simpl. unfold regexp_new. simpl. by rewrite parse_pattern_literal.
  - intros s. apply eq_bool_prop_intro. simpl. unfold regex_search.
    rewrite Is_true_true, search_regex_found, Is_true_true, ci_contains_drop, length_list_ascii.
    apply exist_proper. intros k. rewrite ends_literal.
    destruct (ci_prefix _ _); naive_solver.
Qed.

(** ** The filter with the code's engine *)

(** The witnesses of the theorems of SharesView.v, with this engine. *)

Lemma filterGrantees_blank_witness :
  @filterGrantees js_regexp " " ViewDemo.loaded =
    Ok (mk_shares_state (grantees ViewDemo.loaded) (grantees ViewDemo.loaded)).
Proof. apply (@filterGrantees_blank js_regexp). reflexivity. Defined.

Lemma filterGrantees_refines_witness :
  @filterGrantees js_regexp " ali" ViewDemo.loaded =
    Ok (mk_shares_state (grantees ViewDemo.loaded) (spec_filter " ali" (grantees ViewDemo.loaded))).
Proof.
  apply (@filterGrantees_refines js_regexp js_regexp_literal); [reflexivity|].
  apply (bool_decide_unpack _). vm_compute. reflexivity.
Defined.

Lemma filterGrantees_undefined_name_witness :
  (∃ msg, @filterGrantees js_regexp "ali"
             (mk_shares_state [ViewDemo.alice; ViewDemo.nameless] [ViewDemo.alice]) = Err (TypeError msg)) ∧
  vstate (@handle js_regexp
            (mk_view (mk_shares_state [ViewDemo.alice; ViewDemo.nameless] [ViewDemo.alice]) "al")
            (Typed "ali")) =
    mk_shares_state [ViewDemo.alice; ViewDemo.nameless] [ViewDemo.alice].
Proof.
  apply (@filterGrantees_undefined_name js_regexp js_regexp_literal "ali"
           (mk_view (mk_shares_state [ViewDemo.alice; ViewDemo.nameless] [ViewDemo.alice]) "al"));
    [reflexivity | reflexivity | apply (bool_decide_unpack _); vm_compute; reflexivity].
Defined.

(** Typing "ali" before the load ends, then the load: Bob is shown
    although he does not match. *)
Lemma load_consistent_witness :
  ¬ consistent
      (@handle js_regexp (mk_view initial_state "ali") (Loaded (Ok (Some [ViewDemo.alice; ViewDemo.bob])))).
Proof.
  rewrite (@load_consistent js_regexp). simpl. vm_compute. discriminate.
Defined.

Section SyntaxErrors.
Context (value : string) (msg : string).
Hypothesis Hblank : String.eqb (trim value) "" = false.
Hypothesis Hsyntax : parse_pattern (trim value) = Err (PSyntax msg).

Lemma keep_js_syntax_error g :
  nullish (displayName g) = false → ∃ m, @keep js_regexp value g = Err (SyntaxError m).
Proof.
  intros Hn. unfold keep. rewrite Hblank, to_string_method_defined by done. simpl.
  unfold regexp_new. rewrite Hsyntax. simpl. by eexists.
Qed.

(** C22. With the code's engine, a filter text that is not a valid
    pattern (an unbalanced parenthesis, a lone quantifier, ...) makes
    [new RegExp] throw a SyntaxError as soon as the first grantee with
    a name is tested: the handler throws, and the list stays as it was
    instead of being filtered. *)
Theorem typed_syntax_error v g rest :
  grantees (vstate v) = g :: rest → nullish (displayName g) = false →
  (∃ m, @filterGrantees js_regexp value (vstate v) = Err (SyntaxError m)) ∧
  vstate (@handle js_regexp v (Typed value)) = vstate v.
Proof.
  intros Hg Hn. destruct (keep_js_syntax_error g Hn) as [m Hk].
  assert (@filterGrantees js_regexp value (vstate v) = Err (SyntaxError m)) as Hf.
  { unfold filterGrantees. rewrite Hg. simpl. by rewrite Hk. }
  split; [by exists m|]. unfold handle. cbn [vstate]. by rewrite Hf.
Qed.
End SyntaxErrors.

Lemma typed_syntax_error_witness :
  (∃ m, @filterGrantees js_regexp "(ali" ViewDemo.loaded = Err (SyntaxError m)) ∧
  vstate (@handle js_regexp (mk_view ViewDemo.loaded "") (Typed "(ali")) = ViewDemo.loaded.
Proof.
  refine (typed_syntax_error "(ali" "Unterminated group" _ _
            (mk_view ViewDemo.loaded "") ViewDemo.alice [ViewDemo.bob] _ _);
    vm_compute; reflexivity.
Defined.

(** ** The composed panel with the code's engine *)

Module PanelDemo.
(** SHARES opened once; its load is in flight. *)
Definition opened : content_state := @run_panel js_regexp initial_content [PClick ItemShares].
Definition visit1 : list panel_event :=
  [PType "bo"; PClick ItemShares; PLoad 1 (Ok (Some [ViewDemo.alice; ViewDemo.bob]))].
End PanelDemo.

Lemma visit_refines_witness :
  hooks (@run_panel js_regexp PanelDemo.opened PanelDemo.visit1) =
    Some (@run_events js_regexp initial_view (visit_events (visit PanelDemo.opened) PanelDemo.visit1)) ∧
  visit (@run_panel js_regexp PanelDemo.opened PanelDemo.visit1) = visit PanelDemo.opened.
Proof.
  apply (@visit_refines js_regexp);
    [apply (bool_decide_unpack _); vm_compute; reflexivity | reflexivity | reflexivity].
Defined.
